(** * yuque-dl: the markdown image to base64 conversion pipeline

    A shallow embedding of [src/convert/imageUtils.ts] (the image codec),
    [src/convert/markdownProcessor.ts] (the reference extractor and the
    rewriter) and [src/convert/converter.ts] (the orchestrator), followed by
    the properties established for them.

    Conventions.
    - JavaScript strings are [string]s holding their UTF-8 bytes.  Every
      test the code performs on a character compares it with an ASCII
      character, and lower-casing maps to ASCII only the letters [A]-[Z]
      and the Kelvin sign, which [toLowerCase] takes into account.
    - A [Buffer] is a [list byte].
    - A call that may throw returns a [Completion]; the payload of [Throws]
      is the [message] of the thrown [Error].
    - Logging and the progress spinner do not influence any returned value
      and are left out.
    - The file system answers each call; of a call that can change the
      disk the embedding records that it was made and whether it returned,
      not what it left on the disk. *)

From Stdlib Require Import String Ascii List Bool Arith NArith ZArith Lia.
From Stdlib Require Import Strings.Byte.
Import ListNotations.

Local Open Scope list_scope.
Local Open Scope string_scope.

(* ================================================================== *)
(** ** Completions: the outcome of a call that may throw *)

Inductive Completion (A : Type) : Type :=
| Returns (value : A)
| Throws (message : string).

Arguments Returns {A} value.
Arguments Throws {A} message.

(* ================================================================== *)
(** ** Base64, as produced by [Buffer.prototype.toString('base64')] *)

Module Base64.

Definition alphabet : list ascii :=
  list_ascii_of_string
    "ABCDEFGHIJKLMNOPQRSTUVWXYZabcdefghijklmnopqrstuvwxyz0123456789+/".

Definition pad : ascii := "="%char.

(** The character of a 6-bit value. *)
Definition sextet_char (n : N) : ascii :=
  nth (N.to_nat n) alphabet pad.

Fixpoint position (c : ascii) (l : list ascii) (i : N) : option N :=
  match l with
  | [] => None
  | x :: l' => if Ascii.eqb x c then Some i else position c l' (N.succ i)
  end.

(** The 6-bit value of a character of the alphabet. *)
Definition char_sextet (c : ascii) : option N := position c alphabet 0%N.

(** Three bytes are regrouped into four 6-bit values. *)
Definition group3 (b0 b1 b2 : N) : N * N * N * N :=
  (b0 / 4,
   (b0 mod 4) * 16 + b1 / 16,
   (b1 mod 16) * 4 + b2 / 64,
   b2 mod 64)%N.

Fixpoint encode_chars (buf : list byte) : list ascii :=
  match buf with
  | [] => []
  | [b0] =>
      let '(s0, s1, _, _) := group3 (Byte.to_N b0) 0 0 in
      [sextet_char s0; sextet_char s1; pad; pad]
  | [b0; b1] =>
      let '(s0, s1, s2, _) := group3 (Byte.to_N b0) (Byte.to_N b1) 0 in
      [sextet_char s0; sextet_char s1; sextet_char s2; pad]
  | b0 :: b1 :: b2 :: rest =>
      let '(s0, s1, s2, s3) :=
        group3 (Byte.to_N b0) (Byte.to_N b1) (Byte.to_N b2) in
      sextet_char s0 :: sextet_char s1 :: sextet_char s2 :: sextet_char s3
        :: encode_chars rest
  end.

Definition encode (buf : list byte) : string :=
  string_of_list_ascii (encode_chars buf).

(** Four 6-bit values give back three bytes. *)
Definition ungroup0 (s0 s1 : N) : N := (s0 * 4 + s1 / 16)%N.
Definition ungroup1 (s1 s2 : N) : N := ((s1 mod 16) * 16 + s2 / 4)%N.
Definition ungroup2 (s2 s3 : N) : N := ((s2 mod 4) * 64 + s3)%N.

Definition bind {A B} (o : option A) (k : A -> option B) : option B :=
  match o with Some a => k a | None => None end.

(** Strict decoder: the input is a sequence of four-character groups;
    only the last group may be padded. *)
Fixpoint decode_chars (cs : list ascii) : option (list byte) :=
  match cs with
  | [] => Some []
  | c0 :: c1 :: c2 :: c3 :: rest =>
      bind (char_sextet c0) (fun s0 =>
      bind (char_sextet c1) (fun s1 =>
      bind (Byte.of_N (ungroup0 s0 s1)) (fun b0 =>
      if Ascii.eqb c3 pad then
        match rest with
        | [] =>
            if Ascii.eqb c2 pad then Some [b0]
            else
              bind (char_sextet c2) (fun s2 =>
              bind (Byte.of_N (ungroup1 s1 s2)) (fun b1 =>
              Some [b0; b1]))
        | _ :: _ => None
        end
      else
        bind (char_sextet c2) (fun s2 =>
        bind (char_sextet c3) (fun s3 =>
        bind (Byte.of_N (ungroup1 s1 s2)) (fun b1 =>
        bind (Byte.of_N (ungroup2 s2 s3)) (fun b2 =>
        bind (decode_chars rest) (fun tl =>
        Some (b0 :: b1 :: b2 :: tl)))))))))
  | _ => None
  end.

Definition decode (payload : string) : option (list byte) :=
  decode_chars (list_ascii_of_string payload).

(** The check that the value [k] is read back from its character, and
    that this character is not the padding. *)
Definition sextet_ok (k : nat) : bool :=
  match char_sextet (sextet_char (N.of_nat k)) with
  | Some m => N.eqb m (N.of_nat k)
  | None => false
  end
  && negb (Ascii.eqb (sextet_char (N.of_nat k)) pad).

End Base64.

(* ================================================================== *)
(** ** The JavaScript string methods used by the converter *)

Module JsString.

(** [s.startsWith(p)] *)
Definition startsWith (s p : string) : bool := String.prefix p s.

Fixpoint rev (s : string) : string :=
  match s with
  | EmptyString => EmptyString
  | String c s' => rev s' ++ String c EmptyString
  end.

(** [s.endsWith(p)] *)
Definition endsWith (s p : string) : bool := String.prefix (rev p) (rev s).

Definition lower_char (c : ascii) : ascii :=
  let n := nat_of_ascii c in
  if (Nat.leb 65 n && Nat.leb n 90)%bool then ascii_of_nat (n + 32) else c.

(** The Kelvin sign U+212A in UTF-8: the one character outside ASCII that
    JavaScript lower-cases to an ASCII letter, [k]. *)
Definition isKelvinSign (c0 c1 c2 : ascii) : bool :=
  (Ascii.eqb c0 "226" && Ascii.eqb c1 "132" && Ascii.eqb c2 "170")%bool.

(** [s.toLowerCase()] on a string held as its UTF-8 bytes: [A]-[Z] and the
    Kelvin sign are mapped.  Every other character outside ASCII has a
    lower case outside ASCII, and the code only compares the result with
    ASCII file extensions, so those characters are left as they are. *)
Fixpoint toLowerCase (s : string) : string :=
  match s with
  | EmptyString => EmptyString
  | String c s' =>
      match s' with
      | String c1 (String c2 rest) =>
          if isKelvinSign c c1 c2 then String "k" (toLowerCase rest)
          else String (lower_char c) (toLowerCase s')
      | _ => String (lower_char c) (toLowerCase s')
      end
  end.

(** [s.split(sep)[0]] for a one-character separator: the text before the
    first [sep], the whole of [s] when there is none. *)
Fixpoint splitHead (sep : ascii) (s : string) : string :=
  match s with
  | EmptyString => EmptyString
  | String c s' =>
      if Ascii.eqb c sep then EmptyString else String c (splitHead sep s')
  end.

Fixpoint drop (n : nat) (s : string) : string :=
  match n, s with
  | O, _ => s
  | S _, EmptyString => EmptyString
  | S n', String _ s' => drop n' s'
  end.

(** The text before and the text after the first occurrence of [pat] in
    [s] (as located by [s.indexOf(pat)]). *)
Fixpoint cutFirst (pat s : string) : option (string * string) :=
  if String.prefix pat s then Some (EmptyString, drop (String.length pat) s)
  else
    match s with
    | EmptyString => None
    | String c s' =>
        match cutFirst pat s' with
        | Some (before, after) => Some (String c before, after)
        | None => None
        end
    end.

(** [GetSubstitution] of ECMA-262 for a search value that is a string:
    there are no captures, so [$$], [$&], [$`] and [$'] are the only
    patterns that are expanded; [$1], [$<] and a lone [$] stand for
    themselves. *)
Fixpoint getSubstitution (matched before after template : string) : string :=
  match template with
  | EmptyString => EmptyString
  | String "$" (String "$" t) =>
      String "$" (getSubstitution matched before after t)
  | String "$" (String "&" t) =>
      matched ++ getSubstitution matched before after t
  | String "$" (String "`" t) =>
      before ++ getSubstitution matched before after t
  | String "$" (String "'" t) =>
      after ++ getSubstitution matched before after t
  | String c t => String c (getSubstitution matched before after t)
  end.

(** [s.replace(pat, template)] with a string [pat]: the first occurrence
    only, and the template is expanded by [getSubstitution]. *)
Definition replace (s pat template : string) : string :=
  match cutFirst pat s with
  | Some (before, after) =>
      before ++ getSubstitution pat before after template ++ after
  | None => s
  end.

(** [s.includes(c)] for a single character [c]. *)
Fixpoint includesChar (c : ascii) (s : string) : bool :=
  match s with
  | EmptyString => false
  | String x s' => Ascii.eqb x c || includesChar c s'
  end.

(** Truthiness of a string: only the empty string is falsy. *)
Definition truthy (s : string) : bool :=
  match s with EmptyString => false | _ => true end.

End JsString.

(* ================================================================== *)
(** ** The functions of Node's POSIX [path] module used by the converter *)

Module NodePath.

Definition slash : ascii := "/"%char.
Definition dot : ascii := "."%char.

(** [path.isAbsolute(p)] *)
Definition isAbsolute (p : string) : bool :=
  match p with
  | String c _ => Ascii.eqb c slash
  | EmptyString => false
  end.

(** The loop of [path.dirname]: [rev_tail] holds the characters at the
    indices [i], [i-1], ..., [1]; the result is the value of [end]. *)
Fixpoint dirname_end (rev_tail : list ascii) (i : nat) (matchedSlash : bool)
  : option nat :=
  match rev_tail with
  | [] => None
  | code :: r =>
      if Ascii.eqb code slash then
        if matchedSlash then dirname_end r (i - 1) true else Some i
      else dirname_end r (i - 1) false
  end.

(** [path.dirname(p)] *)
Definition dirname (p : string) : string :=
  match p with
  | EmptyString => "."
  | String c tl =>
      let hasRoot := Ascii.eqb c slash in
      match dirname_end (List.rev (list_ascii_of_string tl))
              (String.length p - 1) true with
      | None => if hasRoot then "/" else "."
      | Some e =>
          if hasRoot && Nat.eqb e 1 then "//" else String.substring 0 e p
      end
  end.

(** The pieces of [s] between the occurrences of [sep]. *)
Fixpoint split (sep : ascii) (s : string) : list string :=
  match s with
  | EmptyString => [EmptyString]
  | String c s' =>
      if Ascii.eqb c sep then EmptyString :: split sep s'
      else
        match split sep s' with
        | h :: t => String c h :: t
        | [] => [String c EmptyString]
        end
  end.

(** One segment of [normalizeString]; [stack] holds the segments kept so
    far, the last one first. *)
Definition normalizeSegment (allowAboveRoot : bool) (stack : list string)
           (seg : string) : list string :=
  if String.eqb seg "" || String.eqb seg "." then stack
  else if String.eqb seg ".." then
    match stack with
    | top :: below =>
        if String.eqb top ".." then
          if allowAboveRoot then ".." :: stack else stack
        else below
    | [] => if allowAboveRoot then [".."] else []
    end
  else seg :: stack.

Definition normalizeString (p : string) (allowAboveRoot : bool) : string :=
  String.concat "/"
    (List.rev (fold_left (normalizeSegment allowAboveRoot) (split slash p) [])).

(** The loop of [path.resolve], from the last argument to the first and
    then the working directory, until an absolute path is met. *)
Fixpoint resolve_gather (rev_args : list string) (resolvedPath : string)
  : string * bool :=
  match rev_args with
  | [] => (resolvedPath, false)
  | p :: rest =>
      if String.eqb p "" then resolve_gather rest resolvedPath
      else
        let resolvedPath' := p ++ "/" ++ resolvedPath in
        if isAbsolute p then (resolvedPath', true)
        else resolve_gather rest resolvedPath'
  end.

(** [path.resolve(...args)] in a process whose working directory is
    [cwd]. *)
Definition resolve (cwd : string) (args : list string) : string :=
  let '(resolvedPath, resolvedAbsolute) :=
    resolve_gather (List.rev args ++ [cwd])%list "" in
  let normalized := normalizeString resolvedPath (negb resolvedAbsolute) in
  if resolvedAbsolute then "/" ++ normalized
  else if Nat.ltb 0 (String.length normalized) then normalized else ".".

Record ExtState := {
  startDot : option nat;
  startPart : nat;
  endPos : option nat;
  matchedSlash : bool;
  preDotState : Z
}.

(** The loop of [path.extname]: [rev_chars] holds the characters at the
    indices [i], [i-1], ..., [0]. *)
Fixpoint extname_loop (rev_chars : list ascii) (i : nat) (st : ExtState)
  : ExtState :=
  match rev_chars with
  | [] => st
  | code :: r =>
      if Ascii.eqb code slash then
        if negb (matchedSlash st) then
          {| startDot := startDot st; startPart := i + 1;
             endPos := endPos st; matchedSlash := matchedSlash st;
             preDotState := preDotState st |}
        else extname_loop r (i - 1) st
      else
        let st1 :=
          match endPos st with
          | None =>
              {| startDot := startDot st; startPart := startPart st;
                 endPos := Some (i + 1); matchedSlash := false;
                 preDotState := preDotState st |}
          | Some _ => st
          end in
        let st2 :=
          if Ascii.eqb code dot then
            match startDot st1 with
            | None =>
                {| startDot := Some i; startPart := startPart st1;
                   endPos := endPos st1; matchedSlash := matchedSlash st1;
                   preDotState := preDotState st1 |}
            | Some _ =>
                {| startDot := startDot st1; startPart := startPart st1;
                   endPos := endPos st1; matchedSlash := matchedSlash st1;
                   preDotState := 1%Z |}
            end
          else
            match startDot st1 with
            | Some _ =>
                {| startDot := startDot st1; startPart := startPart st1;
                   endPos := endPos st1; matchedSlash := matchedSlash st1;
                   preDotState := (-1)%Z |}
            | None => st1
            end in
        extname_loop r (i - 1) st2
  end.

(** [path.extname(p)] *)
Definition extname (p : string) : string :=
  let st :=
    extname_loop (List.rev (list_ascii_of_string p)) (String.length p - 1)
      {| startDot := None; startPart := 0; endPos := None;
         matchedSlash := true; preDotState := 0%Z |} in
  match startDot st, endPos st with
  | Some sd, Some e =>
      if Z.eqb (preDotState st) 0
         || (Z.eqb (preDotState st) 1 && Nat.eqb sd (e - 1)
             && Nat.eqb sd (startPart st + 1))
      then ""
      else String.substring sd (e - sd) p
  | _, _ => ""
  end.

End NodePath.

(* ================================================================== *)
(** ** [src/convert/imageUtils.ts]: the image codec *)

(** The part of the environment the codec and the rewriter observe. *)
Record Env := {
  (** [access(p, F_OK | R_OK)] resolves *)
  fs_access : string -> bool;
  (** [readFile(p)] *)
  fs_readFile : string -> Completion (list byte);
  (** [process.cwd()] *)
  cwd : string
}.

Definition MIME_TYPES : list (string * string) :=
  [ (".jpg", "image/jpeg");
    (".jpeg", "image/jpeg");
    (".png", "image/png");
    (".gif", "image/gif");
    (".svg", "image/svg+xml");
    (".webp", "image/webp");
    (".bmp", "image/bmp");
    (".ico", "image/x-icon");
    (".tiff", "image/tiff");
    (".tif", "image/tiff") ].

(** [table[key]], [None] standing for [undefined]. *)
Fixpoint lookup (key : string) (table : list (string * string)) : option string :=
  match table with
  | [] => None
  | (k, v) :: table' => if String.eqb k key then Some v else lookup key table'
  end.

(** [Object.keys(MIME_TYPES)] *)
Definition SUPPORTED_IMAGE_EXTENSIONS : list string := map fst MIME_TYPES.

Definition isImageFile (filePath : string) : bool :=
  let ext := JsString.toLowerCase (NodePath.extname filePath) in
  match lookup ext MIME_TYPES with Some _ => true | None => false end.

Definition getImageMimeType (filePath : string) : option string :=
  let ext := JsString.toLowerCase (NodePath.extname filePath) in
  match lookup ext MIME_TYPES with
  | Some mime => if JsString.truthy mime then Some mime else None
  | None => None
  end.

Definition generateDataUri (imageBuffer : list byte) (mimeType : string) : string :=
  let base64Data := Base64.encode imageBuffer in
  "data:" ++ mimeType ++ ";base64," ++ base64Data.

Definition generateDataUriFromPath (imageBuffer : list byte) (filePath : string)
  : option string :=
  match getImageMimeType filePath with
  | None => None
  | Some mimeType => Some (generateDataUri imageBuffer mimeType)
  end.

Record ImageConversionResult := {
  success : bool;
  dataUri : option string;
  error : option string
}.

Definition conversionFailure (errorMsg : string) : ImageConversionResult :=
  {| success := false; dataUri := None; error := Some errorMsg |}.

Definition fileExists (env : Env) (filePath : string) : bool :=
  fs_access env filePath.

(** [convertImageToBase64] catches whatever its body throws, so it always
    returns. *)
Definition convertImageToBase64 (env : Env) (imagePath : string)
  : ImageConversionResult :=
  if negb (fileExists env imagePath) then
    conversionFailure ("Image file not found or not readable: " ++ imagePath)
  else if negb (isImageFile imagePath) then
    conversionFailure ("Unsupported image format: " ++ imagePath)
  else
    match fs_readFile env imagePath with
    | Throws readError =>
        conversionFailure
          ("Failed to read image file " ++ imagePath ++ ": " ++ readError)
    | Returns imageBuffer =>
        match generateDataUriFromPath imageBuffer imagePath with
        | Some uri =>
            if JsString.truthy uri then
              {| success := true; dataUri := Some uri; error := None |}
            else
              conversionFailure ("Failed to generate data URI for: " ++ imagePath)
        | None =>
            conversionFailure ("Failed to generate data URI for: " ++ imagePath)
        end
    end.

(* ================================================================== *)
(** ** [src/convert/markdownProcessor.ts]: extractor and rewriter *)

(** One match of [IMAGE_REGEX]: the matched text and its two groups. *)
Record ImageMatch := {
  originalMarkdown : string;
  altText : string;
  imagePath : string
}.

(** The text before the first [stop] and the text after it. *)
Fixpoint spanUntil (stop : ascii) (s : string) : option (string * string) :=
  match s with
  | EmptyString => None
  | String c s' =>
      if Ascii.eqb c stop then Some (EmptyString, s')
      else
        match spanUntil stop s' with
        | Some (before, after) => Some (String c before, after)
        | None => None
        end
  end.

(** [IMAGE_REGEX] anchored at the start of [s].  The expression reads: an
    exclamation mark, an opening bracket, a group of zero or more characters
    other than a closing bracket, a closing bracket, an opening parenthesis,
    a group of one or more characters other than a closing parenthesis, a
    closing parenthesis.  Each character class is followed by the one
    character it excludes, so the greedy quantifiers stop at the first such
    character and backtracking never finds another match. *)
Definition matchImageAt (s : string) : option ImageMatch :=
  match s with
  | String "!" (String "[" t) =>
      match spanUntil "]" t with
      | Some (alt, String "(" u) =>
          match spanUntil ")" u with
          | Some (EmptyString, _) => None
          | Some (path, _) =>
              Some {| originalMarkdown := "![" ++ alt ++ "](" ++ path ++ ")";
                      altText := alt;
                      imagePath := path |}
          | None => None
          end
      | _ => None
      end
  | _ => None
  end.

(** The [while ((match = IMAGE_REGEX.exec(content)) !== null)] loop:
    [skip] is the number of characters still covered by the last match,
    that is, the distance to [lastIndex]. *)
Fixpoint execAllFrom (s : string) (skip : nat) : list ImageMatch :=
  match s with
  | EmptyString => []
  | String _ s' =>
      match skip with
      | S k => execAllFrom s' k
      | O =>
          match matchImageAt s with
          | Some m =>
              m :: execAllFrom s' (String.length (originalMarkdown m) - 1)
          | None => execAllFrom s' 0
          end
      end
  end.

Definition execAll (content : string) : list ImageMatch :=
  execAllFrom content 0.

Definition isRemoteImage (imagePath : string) : bool :=
  JsString.startsWith imagePath "http://"
  || JsString.startsWith imagePath "https://".

Definition remoteMatch (m : ImageMatch) : bool := isRemoteImage (imagePath m).

Definition cleanImagePath (imagePath : string) : string :=
  JsString.splitHead "#" (JsString.splitHead "?" imagePath).

Definition supportedExtensions : list string :=
  [".jpg"; ".jpeg"; ".png"; ".gif"; ".svg"; ".webp"; ".bmp"].

Definition isSupportedImageFormat (imagePath : string) : bool :=
  let cleanPath := JsString.toLowerCase (cleanImagePath imagePath) in
  existsb (fun ext => JsString.endsWith cleanPath ext) supportedExtensions.

(** [path.isAbsolute(imagePath) ? imagePath
     : path.resolve(markdownDir, imagePath)] *)
Definition resolveImagePath (env : Env) (markdownDir imagePath : string) : string :=
  if NodePath.isAbsolute imagePath then imagePath
  else NodePath.resolve (cwd env) [markdownDir; imagePath].

Record IImageReference := {
  ref_originalMarkdown : string;
  ref_imagePath : string;
  ref_absoluteImagePath : string;
  ref_altText : string
}.

Definition extractImageReferences (env : Env) (content markdownFilePath : string)
  : list IImageReference :=
  let markdownDir := NodePath.dirname markdownFilePath in
  map (fun m =>
         {| ref_originalMarkdown := originalMarkdown m;
            ref_imagePath := imagePath m;
            ref_absoluteImagePath := resolveImagePath env markdownDir (imagePath m);
            ref_altText := altText m |})
      (filter (fun m => negb (isRemoteImage (imagePath m))) (execAll content)).

Record MarkdownConversionResult := {
  content : string;
  convertedImages : nat;
  skippedImages : nat;
  warnings : list string;
  errors : list string
}.

(** The local variables of [convertMarkdownImages] that the loop over the
    matches updates. *)
Record RewriteState := {
  updatedContent : string;
  rw_converted : nat;
  rw_skipped : nat;
  rw_warnings : list string;
  rw_errors : list string
}.

Definition skipWithWarning (st : RewriteState) (warningMsg : string) : RewriteState :=
  {| updatedContent := updatedContent st;
     rw_converted := rw_converted st;
     rw_skipped := S (rw_skipped st);
     rw_warnings := (rw_warnings st ++ [warningMsg])%list;
     rw_errors := rw_errors st |}.

Definition skipWithError (st : RewriteState) (errorMsg : string) : RewriteState :=
  {| updatedContent := updatedContent st;
     rw_converted := rw_converted st;
     rw_skipped := S (rw_skipped st);
     rw_warnings := rw_warnings st;
     rw_errors := (rw_errors st ++ [errorMsg])%list |}.

Definition substitute (st : RewriteState) (original newMarkdown : string) : RewriteState :=
  {| updatedContent := JsString.replace (updatedContent st) original newMarkdown;
     rw_converted := S (rw_converted st);
     rw_skipped := rw_skipped st;
     rw_warnings := rw_warnings st;
     rw_errors := rw_errors st |}.

(** [`${conversionResult.error}`] *)
Definition showError (e : option string) : string :=
  match e with Some msg => msg | None => "undefined" end.

(** The text the code builds for a converted reference.  [altText || '']
    is [altText]: the only falsy string is the empty one. *)
Definition newMarkdownFor (alt uri : string) : string :=
  "![" ++ alt ++ "](" ++ uri ++ ")".

(** The body of [for (const {...} of imageMatches)], with its [try]/[catch];
    [codec] is the call [await convertImageToBase64(absoluteImagePath)]. *)
Definition processImageMatch
           (codec : string -> Completion ImageConversionResult)
           (env : Env) (markdownDir : string)
           (st : RewriteState) (m : ImageMatch) : RewriteState :=
  if isRemoteImage (imagePath m) then
    skipWithWarning st ("Skipped remote image: " ++ imagePath m)
  else if negb (isSupportedImageFormat (imagePath m)) then
    skipWithWarning st ("Skipped unsupported image format: " ++ imagePath m)
  else
    let absoluteImagePath := resolveImagePath env markdownDir (imagePath m) in
    match codec absoluteImagePath with
    | Returns conversionResult =>
        match success conversionResult, dataUri conversionResult with
        | true, Some uri =>
            if JsString.truthy uri then
              substitute st (originalMarkdown m) (newMarkdownFor (altText m) uri)
            else
              skipWithWarning st
                ("Failed to convert image: " ++ imagePath m ++ " - "
                 ++ showError (error conversionResult))
        | _, _ =>
            skipWithWarning st
              ("Failed to convert image: " ++ imagePath m ++ " - "
               ++ showError (error conversionResult))
        end
    | Throws errorMessage =>
        skipWithError st
          ("Error processing image " ++ imagePath m ++ ": " ++ errorMessage)
    end.

Definition initialRewriteState (text : string) : RewriteState :=
  {| updatedContent := text; rw_converted := 0; rw_skipped := 0;
     rw_warnings := []; rw_errors := [] |}.

Definition finishRewrite (st : RewriteState) : MarkdownConversionResult :=
  {| content := updatedContent st;
     convertedImages := rw_converted st;
     skippedImages := rw_skipped st;
     warnings := rw_warnings st;
     errors := rw_errors st |}.

(** [convertMarkdownImages] for an arbitrary codec call. *)
Definition convertMarkdownImagesWith
           (codec : string -> Completion ImageConversionResult)
           (env : Env) (text markdownFilePath : string)
  : MarkdownConversionResult :=
  let markdownDir := NodePath.dirname markdownFilePath in
  let imageMatches := execAll text in
  finishRewrite
    (fold_left (processImageMatch codec env markdownDir) imageMatches
       (initialRewriteState text)).

(** [convertMarkdownImages] as the module wires it, to
    [convertImageToBase64]. *)
Definition convertMarkdownImages (env : Env) (text markdownFilePath : string)
  : MarkdownConversionResult :=
  convertMarkdownImagesWith (fun p => Returns (convertImageToBase64 env p))
    env text markdownFilePath.

(* ================================================================== *)
(** ** [src/convert/converter.ts]: the orchestrator *)

Record IMarkdownFile := {
  relativePath : string;
  absolutePath : string;
  fileContent : string
}.

(** [IConvertResult], the aggregate the orchestrator owns. *)
Record IConvertResult := {
  totalFiles : nat;
  r_convertedImages : nat;
  r_skippedImages : nat;
  r_warnings : list string;
  r_errors : list string
}.

(** What [MarkdownImageConverter] calls: the scanner, the output directory
    set-up, the rewriter and the writer.  [writeMarkdownFile] is applied to
    the relative path and the text; the output directory is fixed for a
    converter. *)
Record Collaborators := {
  scanMarkdownFiles : Completion (list IMarkdownFile);
  createOutputDirectory : Completion unit;
  rewriteImages : string -> string -> Completion MarkdownConversionResult;
  writeMarkdownFile : string -> string -> Completion unit
}.

(** The aggregate together with the files this run has written below the
    output directory, each with its relative path and text. *)
Record World := {
  aggregate : IConvertResult;
  outputTree : list (string * string)
}.

Definition emptyResult : IConvertResult :=
  {| totalFiles := 0; r_convertedImages := 0; r_skippedImages := 0;
     r_warnings := []; r_errors := [] |}.

Definition setTotalFiles (r : IConvertResult) (n : nat) : IConvertResult :=
  {| totalFiles := n;
     r_convertedImages := r_convertedImages r;
     r_skippedImages := r_skippedImages r;
     r_warnings := r_warnings r;
     r_errors := r_errors r |}.

(** [result.errors.push(msg)] *)
Definition pushError (r : IConvertResult) (msg : string) : IConvertResult :=
  {| totalFiles := totalFiles r;
     r_convertedImages := r_convertedImages r;
     r_skippedImages := r_skippedImages r;
     r_warnings := r_warnings r;
     r_errors := (r_errors r ++ [msg])%list |}.

(** [result.warnings.push(msg)] *)
Definition pushWarning (r : IConvertResult) (msg : string) : IConvertResult :=
  {| totalFiles := totalFiles r;
     r_convertedImages := r_convertedImages r;
     r_skippedImages := r_skippedImages r;
     r_warnings := (r_warnings r ++ [msg])%list;
     r_errors := r_errors r |}.

(** The four statements under the comment that announces the accumulation
    of the statistics. *)
Definition accumulate (r : IConvertResult) (c : MarkdownConversionResult)
  : IConvertResult :=
  {| totalFiles := totalFiles r;
     r_convertedImages := r_convertedImages r + convertedImages c;
     r_skippedImages := r_skippedImages r + skippedImages c;
     r_warnings := (r_warnings r ++ warnings c)%list;
     r_errors := (r_errors r ++ errors c)%list |}.

Definition withAggregate (w : World) (r : IConvertResult) : World :=
  {| aggregate := r; outputTree := outputTree w |}.

Definition recordWrite (w : World) (rel text : string) : World :=
  {| aggregate := aggregate w;
     outputTree := (outputTree w ++ [(rel, text)])%list |}.

Definition writeFailedMsg (rel message : string) : string :=
  "Failed to write converted file " ++ rel ++ ": " ++ message.

Definition processingErrorMsg (rel message : string) : string :=
  "Error processing file " ++ rel ++ ": " ++ message.

Definition fileFailedMsg (rel message : string) : string :=
  "Failed to process file " ++ rel ++ ": " ++ message.

(** [processMarkdownFile(file, result)].  The aggregate is updated in
    place, so the updates made before a [throw] remain. *)
Definition processMarkdownFile (c : Collaborators) (file : IMarkdownFile)
           (w : World) : World * Completion MarkdownConversionResult :=
  let rel := relativePath file in
  match rewriteImages c (fileContent file) (absolutePath file) with
  | Throws message =>
      (withAggregate w (pushError (aggregate w) (processingErrorMsg rel message)),
       Throws message)
  | Returns conversionResult =>
      let w1 := withAggregate w (accumulate (aggregate w) conversionResult) in
      match writeMarkdownFile c rel (content conversionResult) with
      | Returns _ =>
          (recordWrite w1 rel (content conversionResult),
           Returns conversionResult)
      | Throws message =>
          let r2 := pushError (aggregate w1) (writeFailedMsg rel message) in
          let r3 := pushError r2 (processingErrorMsg rel message) in
          (withAggregate w1 r3, Throws message)
      end
  end.

(** The variables the [for] loop of [convert] updates. *)
Record LoopState := {
  world : World;
  processedFiles : nat;
  failedFiles : nat
}.

(** One iteration of the loop, with its [try]/[catch]. *)
Definition loopBody (c : Collaborators) (ls : LoopState) (file : IMarkdownFile)
  : LoopState :=
  match processMarkdownFile c file (world ls) with
  | (w', Returns _) =>
      {| world := w';
         processedFiles := S (processedFiles ls);
         failedFiles := failedFiles ls |}
  | (w', Throws message) =>
      {| world :=
           withAggregate w'
             (pushError (aggregate w') (fileFailedMsg (relativePath file) message));
         processedFiles := processedFiles ls;
         failedFiles := S (failedFiles ls) |}
  end.

Definition processFiles (c : Collaborators) (files : list IMarkdownFile)
           (ls : LoopState) : LoopState :=
  fold_left (loopBody c) files ls.

(** The [return] statement through which [convert] leaves.  Every call of
    [convert] that may throw sits in a [try] of its own, so the [catch]
    around the whole body is not reached and has no exit here. *)
Inductive ConvertExit :=
| ExitScanFailed
| ExitNoFiles
| ExitOutputDirFailed
| ExitCompleted.

Definition startState (r : IConvertResult) : LoopState :=
  {| world := {| aggregate := r; outputTree := [] |};
     processedFiles := 0; failedFiles := 0 |}.

(** [convert()].  The result pairs the exit taken with the final values of
    the aggregate, the files written and the two counters. *)
Definition convert (c : Collaborators) (sourceDir : string)
  : ConvertExit * LoopState :=
  match scanMarkdownFiles c with
  | Throws message =>
      (ExitScanFailed,
       startState
         (pushError emptyResult ("Failed to scan markdown files: " ++ message)))
  | Returns markdownFiles =>
      let result := setTotalFiles emptyResult (List.length markdownFiles) in
      match markdownFiles with
      | [] =>
          (ExitNoFiles,
           startState
             (pushWarning result
                ("No markdown files found in source directory: " ++ sourceDir)))
      | _ :: _ =>
          match createOutputDirectory c with
          | Throws message =>
              (ExitOutputDirFailed,
               startState
                 (pushError result
                    ("Failed to create output directory: " ++ message)))
          | Returns _ =>
              (ExitCompleted,
               processFiles c markdownFiles (startState result))
          end
      end
  end.

(** The collaborators as the module wires them: the rewriter is
    [convertMarkdownImages], which catches whatever its body throws. *)
Definition wired (env : Env)
           (scanned : Completion (list IMarkdownFile))
           (created : Completion unit)
           (write : string -> string -> Completion unit) : Collaborators :=
  {| scanMarkdownFiles := scanned;
     createOutputDirectory := created;
     rewriteImages := fun text p => Returns (convertMarkdownImages env text p);
     writeMarkdownFile := write |}.

(* ================================================================== *)
(** ** Environments for the examples *)

(** A file system without any readable file. *)
Definition noFiles : Env :=
  {| fs_access := fun _ => false;
     fs_readFile := fun _ => Throws "ENOENT: no such file or directory";
     cwd := "/work" |}.

(** A file system whose only readable file is [file], holding [bytes]. *)
Definition oneFile (file : string) (bytes : list byte) : Env :=
  {| fs_access := fun p => String.eqb p file;
     fs_readFile := fun p =>
       if String.eqb p file then Returns bytes
       else Throws "ENOENT: no such file or directory";
     cwd := "/work" |}.

(** The three bytes of the text [Man]; their base64 form is [TWFu]. *)
Definition sampleBytes : list byte := [x4d; x61; x6e]%byte.

(** The codec call of the module for the environment [env]. *)
Definition moduleCodec (env : Env) : string -> Completion ImageConversionResult :=
  fun p => Returns (convertImageToBase64 env p).

Definition emptyWorld : World := {| aggregate := emptyResult; outputTree := [] |}.

(* ================================================================== *)
(** ** More of Node's POSIX [path] module *)

Module NodePathMore.

(** [s.charCodeAt(s.length - 1) === CHAR_FORWARD_SLASH] *)
Fixpoint endsWithSlash (s : string) : bool :=
  match s with
  | EmptyString => false
  | String c EmptyString => Ascii.eqb c NodePath.slash
  | String _ s' => endsWithSlash s'
  end.

(** [path.normalize(p)] *)
Definition normalize (p : string) : string :=
  match p with
  | EmptyString => "."
  | String _ _ =>
      let isAbsolute := NodePath.isAbsolute p in
      let trailingSeparator := endsWithSlash p in
      let normalized := NodePath.normalizeString p (negb isAbsolute) in
      match normalized with
      | EmptyString =>
          if isAbsolute then "/" else if trailingSeparator then "./" else "."
      | String _ _ =>
          let withSeparator :=
            if trailingSeparator then normalized ++ "/" else normalized in
          if isAbsolute then "/" ++ withSeparator else withSeparator
      end
  end.

(** The loop of [path.join]: the non-empty arguments, separated by
    slashes; [None] stands for [undefined]. *)
Fixpoint join_gather (args : list string) (joined : option string)
  : option string :=
  match args with
  | [] => joined
  | arg :: rest =>
      if Nat.ltb 0 (String.length arg) then
        match joined with
        | None => join_gather rest (Some arg)
        | Some j => join_gather rest (Some (j ++ "/" ++ arg))
        end
      else join_gather rest joined
  end.

(** [path.join(...args)] *)
Definition join (args : list string) : string :=
  match join_gather args None with
  | None => "."
  | Some joined => normalize joined
  end.

End NodePathMore.

(* ================================================================== *)
(** ** [src/convert/fileScanner.ts]: the output directory and the writer *)

(** The outcome of [fs.stat]: the kind of the entry, or an error with its
    [code] and its [message]. *)
Inductive StatResult :=
| StatOk (isDirectory : bool)
| StatThrows (code message : string).

(** A [Dirent] of [readdir(..., { withFileTypes: true })]. *)
Record Dirent := {
  d_name : string;
  d_isDirectory : bool;
  d_isFile : bool
}.

(** The calls of [fs] that can change the disk. *)
Inductive FsOp :=
| OpMkdir (p : string)
| OpWriteFile (p text : string)
| OpUnlink (p : string)
| OpRmdir (p : string).

(** A call made, with whether it returned.  A call that threw may have
    changed the disk all the same: a recursive [mkdir] or [rmdir] can stop
    half-way, and a write can fail after the file was created or
    truncated. *)
Record FsCall := {
  call_op : FsOp;
  call_returned : bool
}.

(** The file system as the functions of [fileScanner.ts] meet it: what
    each call answers. *)
Record Disk := {
  disk_stat : string -> StatResult;
  disk_readdir : string -> Completion (list Dirent);
  (** [mkdir(p, { recursive: true })] *)
  disk_mkdir : string -> Completion unit;
  disk_writeFile : string -> string -> Completion unit;
  disk_unlink : string -> Completion unit;
  (** [rmdir(p, { recursive: true })] *)
  disk_rmdir : string -> Completion unit;
  disk_cwd : string
}.

(** Whether a call returned. *)
Definition callReturned {A : Type} (answer : Completion A) : bool :=
  match answer with Returns _ => true | Throws _ => false end.

Module FileScanner.

(** [ensureOutputDirectoryStructure(outputDir, relativePath)]; the first
    component lists, in order, the calls made that can change the disk. *)
Definition ensureOutputDirectoryStructure (disk : Disk)
           (outputDir relativePath : string) : list FsCall * Completion string :=
  let targetDir := NodePath.dirname (NodePathMore.join [outputDir; relativePath]) in
  let made := disk_mkdir disk targetDir in
  let calls := [ {| call_op := OpMkdir targetDir; call_returned := callReturned made |} ] in
  match made with
  | Returns _ => (calls, Returns targetDir)
  | Throws message =>
      (calls, Throws ("Failed to create directory structure " ++ targetDir
                      ++ ": " ++ message))
  end.

(** [writeMarkdownFile(outputDir, relativePath, content)] *)
Definition writeMarkdownFile (disk : Disk)
           (outputDir relativePath text : string) : list FsCall * Completion unit :=
  let outputPath := NodePathMore.join [outputDir; relativePath] in
  match ensureOutputDirectoryStructure disk outputDir relativePath with
  | (calls, Throws message) =>
      (calls, Throws ("Failed to write file " ++ outputPath ++ ": " ++ message))
  | (calls, Returns _) =>
      let written := disk_writeFile disk outputPath text in
      let calls' :=
        (calls ++ [ {| call_op := OpWriteFile outputPath text;
                       call_returned := callReturned written |} ])%list in
      match written with
      | Returns _ => (calls', Returns tt)
      | Throws message =>
          (calls', Throws ("Failed to write file " ++ outputPath ++ ": " ++ message))
      end
  end.

(** One entry of the loop of [clearDirectory], with its [try]/[catch]: a
    removal that throws is logged and the loop goes on. *)
Definition removeEntry (disk : Disk) (dirPath : string) (entry : Dirent)
  : FsCall :=
  let fullPath := NodePathMore.join [dirPath; d_name entry] in
  if d_isDirectory entry then
    {| call_op := OpRmdir fullPath;
       call_returned := callReturned (disk_rmdir disk fullPath) |}
  else
    {| call_op := OpUnlink fullPath;
       call_returned := callReturned (disk_unlink disk fullPath) |}.

(** [clearDirectory(dirPath)] *)
Definition clearDirectory (disk : Disk) (dirPath : string)
  : list FsCall * Completion unit :=
  match disk_readdir disk dirPath with
  | Throws message =>
      ([], Throws ("Failed to clear directory " ++ dirPath ++ ": " ++ message))
  | Returns entries => (map (removeEntry disk dirPath) entries, Returns tt)
  end.

(** [createOutputDirectory(outputDir, overwrite)].  An [Error] made by the
    function itself has no [code], so the [catch] throws it again; only a
    failure of [stat] with the code [ENOENT] leads to [mkdir]. *)
Definition createOutputDirectory (disk : Disk) (outputDir : string)
           (overwrite : bool) : list FsCall * Completion unit :=
  let absoluteOutputDir := NodePath.resolve (disk_cwd disk) [outputDir] in
  match disk_stat disk absoluteOutputDir with
  | StatOk true =>
      if negb overwrite then
        ([], Throws ("Output directory already exists: " ++ absoluteOutputDir
                     ++ ". Use --overwrite flag to overwrite."))
      else clearDirectory disk absoluteOutputDir
  | StatOk false =>
      ([], Throws ("Output path exists but is not a directory: "
                   ++ absoluteOutputDir))
  | StatThrows code message =>
      if String.eqb code "ENOENT" then
        let made := disk_mkdir disk absoluteOutputDir in
        let calls :=
          [ {| call_op := OpMkdir absoluteOutputDir;
               call_returned := callReturned made |} ] in
        match made with
        | Returns _ => (calls, Returns tt)
        | Throws createError =>
            (calls, Throws ("Failed to create output directory "
                            ++ absoluteOutputDir ++ ": " ++ createError))
        end
      else ([], Throws message)
  end.

(** [isMarkdownFile(filename)] *)
Definition isMarkdownFile (filename : string) : bool :=
  let ext := JsString.toLowerCase (NodePath.extname filename) in
  String.eqb ext ".md" || String.eqb ext ".markdown".

End FileScanner.

(** The collaborators of a converter whose output directory and writer
    are those of [fileScanner.ts] on [disk]: [outputDir] is the resolved
    output directory of the converter, [overwrite] its option. *)
Definition onDisk (env : Env) (disk : Disk) (outputDir : string)
           (overwrite : bool) (scanned : Completion (list IMarkdownFile))
  : Collaborators :=
  {| scanMarkdownFiles := scanned;
     createOutputDirectory :=
       snd (FileScanner.createOutputDirectory disk outputDir overwrite);
     rewriteImages := fun text p => Returns (convertMarkdownImages env text p);
     writeMarkdownFile := fun rel text =>
       snd (FileScanner.writeMarkdownFile disk outputDir rel text) |}.

(* ================================================================== *)
(** ** [src/convert/markdownProcessor.ts]: the batch conversion *)

(** An element of the argument of [convertMultipleMarkdownFiles]. *)
Record BatchFile := {
  batch_content : string;
  batch_filePath : string
}.

(** The body of the loop of [convertMultipleMarkdownFiles], with its
    [try]/[catch]; [rewrite] is the call of [convertMarkdownImages]. *)
Definition convertBatchFile
           (rewrite : string -> string -> Completion MarkdownConversionResult)
           (file : BatchFile) : MarkdownConversionResult :=
  match rewrite (batch_content file) (batch_filePath file) with
  | Returns result => result
  | Throws errorMessage =>
      {| content := batch_content file;
         convertedImages := 0;
         skippedImages := 0;
         warnings := [];
         errors := ["Failed to process file " ++ batch_filePath file ++ ": "
                    ++ errorMessage] |}
  end.

(** [convertMultipleMarkdownFiles] for an arbitrary rewriter call. *)
Definition convertMultipleMarkdownFilesWith
           (rewrite : string -> string -> Completion MarkdownConversionResult)
           (markdownFiles : list BatchFile) : list MarkdownConversionResult :=
  fold_left (fun results file => (results ++ [convertBatchFile rewrite file])%list)
            markdownFiles [].

Definition convertMultipleMarkdownFiles (env : Env) (markdownFiles : list BatchFile)
  : list MarkdownConversionResult :=
  convertMultipleMarkdownFilesWith
    (fun text p => Returns (convertMarkdownImages env text p)) markdownFiles.

(* ================================================================== *)
(** ** [src/convert/index.ts]: the grouping of the diagnostics *)

(** [s.includes(pat)] *)
Definition includes (s pat : string) : bool :=
  match JsString.cutFirst pat s with Some _ => true | None => false end.

Definition warningType (warning : string) : string :=
  if includes warning "Skipped remote image" then "跳过远程图片"
  else if includes warning "Skipped unsupported image format" then "跳过不支持的图片格式"
  else if includes warning "Failed to convert image" then "图片转换失败"
  else if includes warning "No markdown files found" then "未找到文件"
  else "其他警告".

Definition errorType (error : string) : string :=
  if includes error "Failed to process file" then "文件处理错误"
  else if includes error "Error processing image" then "图片处理错误"
  else if includes error "Failed to scan" then "文件扫描错误"
  else if includes error "Failed to create" then "目录创建错误"
  else if includes error "Failed to write" then "文件写入错误"
  else "其他错误".

(** [if (!groups[type]) groups[type] = []; groups[type].push(item)] on an
    object whose keys are kept in the order of their insertion. *)
Fixpoint pushToGroup (type item : string) (groups : list (string * list string))
  : list (string * list string) :=
  match groups with
  | [] => [(type, [item])]
  | (key, items) :: rest =>
      if String.eqb key type then (key, (items ++ [item])%list) :: rest
      else (key, items) :: pushToGroup type item rest
  end.

Definition groupByType (typeOf : string -> string) (messages : list string)
  : list (string * list string) :=
  fold_left (fun groups message => pushToGroup (typeOf message) message groups)
            messages [].

Definition groupWarningsByType (warnings : list string) : list (string * list string) :=
  groupByType warningType warnings.

Definition groupErrorsByType (errors : list string) : list (string * list string) :=
  groupByType errorType errors.

(** [groups[key]], [None] standing for [undefined]. *)
Fixpoint lookupGroup (key : string) (groups : list (string * list string))
  : option (list string) :=
  match groups with
  | [] => None
  | (k, items) :: rest =>
      if String.eqb k key then Some items else lookupGroup key rest
  end.

(* ================================================================== *)
(** ** [src/convert/logger.ts]: the statistics of the conversion logger *)

Record Statistics := {
  filesProcessed : nat;
  filesSkipped : nat;
  imagesSucess : nat;
  imagesSkipped : nat;
  st_warnings : nat;
  st_errors : nat
}.

Module ConvertLogger.

(** [resetStatistics()], called by [startConversion()] *)
Definition resetStatistics : Statistics :=
  {| filesProcessed := 0; filesSkipped := 0; imagesSucess := 0;
     imagesSkipped := 0; st_warnings := 0; st_errors := 0 |}.

Definition logFileProcessingSuccess (s : Statistics)
           (converted skipped : nat) : Statistics :=
  {| filesProcessed := S (filesProcessed s);
     filesSkipped := filesSkipped s;
     imagesSucess := imagesSucess s + converted;
     imagesSkipped := imagesSkipped s + skipped;
     st_warnings := st_warnings s;
     st_errors := st_errors s |}.

Definition logFileProcessingError (s : Statistics) : Statistics :=
  {| filesProcessed := filesProcessed s;
     filesSkipped := S (filesSkipped s);
     imagesSucess := imagesSucess s;
     imagesSkipped := imagesSkipped s;
     st_warnings := st_warnings s;
     st_errors := S (st_errors s) |}.

Definition logWarning (s : Statistics) : Statistics :=
  {| filesProcessed := filesProcessed s;
     filesSkipped := filesSkipped s;
     imagesSucess := imagesSucess s;
     imagesSkipped := imagesSkipped s;
     st_warnings := S (st_warnings s);
     st_errors := st_errors s |}.

Definition logError (s : Statistics) : Statistics :=
  {| filesProcessed := filesProcessed s;
     filesSkipped := filesSkipped s;
     imagesSucess := imagesSucess s;
     imagesSkipped := imagesSkipped s;
     st_warnings := st_warnings s;
     st_errors := S (st_errors s) |}.

(** It counts like [logError]. *)
Definition logDirectoryOperationError (s : Statistics) : Statistics :=
  logError s.

End ConvertLogger.

(** The statistics after the calls of the logger that
    [processMarkdownFile] makes: [logError] in the [catch] around the write
    and in the [catch] around the whole body. *)
Definition processMarkdownFileLogs (c : Collaborators) (file : IMarkdownFile)
           (s : Statistics) : Statistics :=
  match rewriteImages c (fileContent file) (absolutePath file) with
  | Throws _ => ConvertLogger.logError s
  | Returns conversionResult =>
      match writeMarkdownFile c (relativePath file) (content conversionResult) with
      | Returns _ => s
      | Throws _ => ConvertLogger.logError (ConvertLogger.logError s)
      end
  end.

(** The statistics after one iteration of the loop of [convert]. *)
Definition loopBodyLogs (c : Collaborators) (s : Statistics) (file : IMarkdownFile)
  : Statistics :=
  let s1 := processMarkdownFileLogs c file s in
  match snd (processMarkdownFile c file emptyWorld) with
  | Returns fileResult =>
      ConvertLogger.logFileProcessingSuccess s1
        (convertedImages fileResult) (skippedImages fileResult)
  | Throws _ => ConvertLogger.logFileProcessingError s1
  end.

(** The statistics of the logger when [convert] returns. *)
Definition convertLogs (c : Collaborators) : Statistics :=
  let s0 := ConvertLogger.resetStatistics in
  match scanMarkdownFiles c with
  | Throws _ => ConvertLogger.logError s0
  | Returns markdownFiles =>
      match markdownFiles with
      | [] => ConvertLogger.logWarning s0
      | _ :: _ =>
          match createOutputDirectory c with
          | Throws _ => ConvertLogger.logDirectoryOperationError s0
          | Returns _ => fold_left (loopBodyLogs c) markdownFiles s0
          end
      end
  end.

(* ================================================================== *)
(** ** [path.relative] and the scanner of [src/convert/fileScanner.ts] *)

Module NodePathRelative.

(** The first loop of [path.relative] on the characters after the leading
    slash of the two resolved paths: [i] counts the characters compared so
    far, [sep] is [lastCommonSep + 1].  The result is the final [i], the
    final [sep] and what is left of the two paths. *)
Fixpoint common (from to : list ascii) (i sep : nat)
  : nat * nat * list ascii * list ascii :=
  match from, to with
  | f :: from', t :: to' =>
      if Ascii.eqb f t then
        common from' to' (S i) (if Ascii.eqb f NodePath.slash then S i else sep)
      else (i, sep, from, to)
  | _, _ => (i, sep, from, to)
  end.

(** The second loop: one [..] for the end of [from] and one for every
    slash met on the way. *)
Fixpoint ups (from : list ascii) (out : string) : string :=
  let more := if Nat.eqb (String.length out) 0 then ".." else out ++ "/.." in
  match from with
  | [] => more
  | c :: from' =>
      if Ascii.eqb c NodePath.slash then ups from' more else ups from' out
  end.

(** [path.relative(from, to)] in a process whose working directory is
    [cwd]. *)
Definition relative (cwd from to : string) : string :=
  if String.eqb from to then ""
  else
    let from1 := NodePath.resolve cwd [from] in
    let to1 := NodePath.resolve cwd [to] in
    if String.eqb from1 to1 then ""
    else
      let fromTail := list_ascii_of_string (JsString.drop 1 from1) in
      let toTail := list_ascii_of_string (JsString.drop 1 to1) in
      let '(i, sep, fromRest, toRest) := common fromTail toTail 0 0 in
      let atEnd := Nat.eqb i (Nat.min (List.length fromTail) (List.length toTail)) in
      let direct :=
        if atEnd then
          match toRest with
          | t :: toRest' =>
              if Ascii.eqb t NodePath.slash
              then Some (string_of_list_ascii toRest')
              else if Nat.eqb i 0 then Some (string_of_list_ascii toRest)
              else None
          | [] => None
          end
        else None in
      match direct with
      | Some r => r
      | None =>
          let sep' :=
            if atEnd then
              match toRest, fromRest with
              | [], f :: _ =>
                  if Ascii.eqb f NodePath.slash then S i
                  else if Nat.eqb i 0 then 1 else sep
              | _, _ => sep
              end
            else sep in
          let out :=
            match skipn sep' fromTail, Nat.leb sep' (List.length fromTail) with
            | rest, true => ups rest ""
            | _, false => ""
            end in
          out ++ JsString.drop sep' to1
      end.

End NodePathRelative.

(** What lies in a directory: a sub-directory with the answer of its
    listing, or another entry with its answer to [isFile()] and the answer
    of its reading. *)
#[warnings="-register-all"]
Inductive FsTree :=
| TreeDir (name : string) (listing : Completion (list FsTree))
| TreeEntry (name : string) (isFile : bool) (reading : Completion string).

Module Scanner.

(** The body of [scanDirectory] once [readdir] has returned [entries], for
    the entries of the directory [currentDir]; the files found are returned
    in the order in which the code pushes them.  A listing that throws
    makes the recursive call throw, which the [catch] of the entry
    swallows. *)
Fixpoint scanEntry (cwd absoluteSourceDir currentDir : string) (entry : FsTree)
  : list IMarkdownFile :=
  match entry with
  | TreeDir name listing =>
      let fullPath := NodePathMore.join [currentDir; name] in
      match listing with
      | Returns entries =>
          flat_map (scanEntry cwd absoluteSourceDir fullPath) entries
      | Throws _ => []
      end
  | TreeEntry name isFile reading =>
      let fullPath := NodePathMore.join [currentDir; name] in
      if isFile && FileScanner.isMarkdownFile name then
        let relativePath :=
          NodePathRelative.relative cwd absoluteSourceDir fullPath in
        match reading with
        | Returns text =>
            [ {| relativePath := relativePath;
                 absolutePath := fullPath;
                 fileContent := text |} ]
        | Throws _ => []
        end
      else []
  end.

(** [scanMarkdownFiles(sourceDir)]: [root] is what [stat] answers for the
    resolved source directory, [listing] what [readdir] answers for it. *)
Definition scanMarkdownFiles (cwd sourceDir : string) (root : StatResult)
           (listing : Completion (list FsTree))
  : Completion (list IMarkdownFile) :=
  let absoluteSourceDir := NodePath.resolve cwd [sourceDir] in
  match root with
  | StatThrows code message =>
      if String.eqb code "ENOENT"
      then Throws ("Source directory does not exist: " ++ absoluteSourceDir)
      else Throws message
  | StatOk false =>
      Throws ("Source path is not a directory: " ++ absoluteSourceDir)
  | StatOk true =>
      match listing with
      | Throws message =>
          Throws ("Failed to scan directory " ++ absoluteSourceDir ++ ": " ++ message)
      | Returns entries =>
          Returns (flat_map (scanEntry cwd absoluteSourceDir absoluteSourceDir)
                            entries)
      end
  end.

End Scanner.

(* ================================================================== *)
(** ** The names a directory listing returns *)

(** A name as [readdir] returns them: not empty, without slash, and
    neither [.] nor [..]. *)
Definition plainName (name : string) : bool :=
  negb (String.eqb name "") && negb (String.eqb name ".")
  && negb (String.eqb name "..")
  && negb (JsString.includesChar NodePath.slash name).

(** Every entry of the tree, at any depth, has such a name. *)
Fixpoint wellNamed (entry : FsTree) : bool :=
  match entry with
  | TreeDir name listing =>
      plainName name
      && match listing with
         | Returns entries => forallb wellNamed entries
         | Throws _ => true
         end
  | TreeEntry name _ _ => plainName name
  end.

(* ================================================================== *)
(** * Properties *)

(** ** Strings *)

Lemma append_nil_r (s : string) : s ++ "" = s.
Proof. induction s as [|c s IH]; simpl; congruence. Qed.

Lemma append_cancel_l (a x y : string) : a ++ x = a ++ y -> x = y.
Proof.
  induction a as [|c a IH]; cbn [append]; intros H; [exact H|].
  injection H as H. now apply IH.
Qed.

Lemma append_assoc (a b c : string) : (a ++ b) ++ c = a ++ (b ++ c).
Proof. induction a as [|x a IH]; simpl; congruence. Qed.

Lemma prefix_append (p rest : string) : String.prefix p (p ++ rest) = true.
Proof.
  induction p as [|c p IH]; simpl.
  - now destruct rest.
  - destruct (ascii_dec c c) as [_|ne]; [exact IH | now elim ne].
Qed.

Lemma prefix_split (p s : string) :
  String.prefix p s = true -> exists rest, s = p ++ rest.
Proof.
  revert s; induction p as [|c p IH]; intros s H.
  - now exists s.
  - destruct s as [|d s]; simpl in H; [discriminate|].
    destruct (ascii_dec c d) as [->|]; [|discriminate].
    destruct (IH s H) as [rest ->]. now exists rest.
Qed.

Lemma startsWith_iff (s p : string) :
  JsString.startsWith s p = true <-> exists rest, s = p ++ rest.
Proof.
  unfold JsString.startsWith; split.
  - apply prefix_split.
  - intros [rest ->]. apply prefix_append.
Qed.

Lemma rev_append (a b : string) :
  JsString.rev (a ++ b) = JsString.rev b ++ JsString.rev a.
Proof.
  induction a as [|c a IH]; simpl.
  - now rewrite append_nil_r.
  - now rewrite IH, append_assoc.
Qed.

Lemma rev_involutive (s : string) : JsString.rev (JsString.rev s) = s.
Proof.
  induction s as [|c s IH]; simpl; [reflexivity|].
  now rewrite rev_append, IH.
Qed.

Lemma endsWith_iff (s p : string) :
  JsString.endsWith s p = true <-> exists stem, s = stem ++ p.
Proof.
  unfold JsString.endsWith; split.
  - intros H. destruct (prefix_split _ _ H) as [r Hr].
    exists (JsString.rev r).
    rewrite <- (rev_involutive s), Hr, rev_append, rev_involutive.
    reflexivity.
  - intros [stem ->]. rewrite rev_append. apply prefix_append.
Qed.

(** ** Base64 *)

Module Base64Facts.
Import Base64.

Lemma sextets_ok : forallb sextet_ok (seq 0 64) = true.
Proof. vm_compute. reflexivity. Qed.

Lemma sextet_ok_lt (n : N) : (n < 64)%N -> sextet_ok (N.to_nat n) = true.
Proof.
  intros Hn. apply (proj1 (forallb_forall _ _) sextets_ok).
  apply in_seq. lia.
Qed.

Lemma char_sextet_char (n : N) :
  (n < 64)%N -> char_sextet (sextet_char n) = Some n.
Proof.
  intros Hn. pose proof (sextet_ok_lt n Hn) as H.
  unfold sextet_ok in H. rewrite N2Nat.id in H.
  apply andb_prop in H. destruct H as [H _].
  destruct (char_sextet (sextet_char n)) as [m|]; [|discriminate].
  apply N.eqb_eq in H. now subst.
Qed.

Lemma sextet_char_not_pad (n : N) :
  (n < 64)%N -> Ascii.eqb (sextet_char n) pad = false.
Proof.
  intros Hn. pose proof (sextet_ok_lt n Hn) as H.
  unfold sextet_ok in H. rewrite N2Nat.id in H.
  apply andb_prop in H. destruct H as [_ H].
  now apply negb_true_iff in H.
Qed.

Lemma group3_bounds (b0 b1 b2 : N) :
  (b0 < 256 -> b1 < 256 -> b2 < 256 ->
   let '(s0, s1, s2, s3) := group3 b0 b1 b2 in
   s0 < 64 /\ s1 < 64 /\ s2 < 64 /\ s3 < 64 /\
   ungroup0 s0 s1 = b0 /\ ungroup1 s1 s2 = b1 /\ ungroup2 s2 s3 = b2)%N.
Proof.
  intros H0 H1 H2. unfold group3, ungroup0, ungroup1, ungroup2.
  repeat split; zify; Z.to_euclidean_division_equations; lia.
Qed.

Lemma byte_lt (b : byte) : (Byte.to_N b < 256)%N.
Proof. pose proof (Byte.to_N_bounded b). lia. Qed.

Lemma zero_lt : (0 < 256)%N.
Proof. reflexivity. Qed.

(** A full group decodes to its three bytes, whatever follows. *)
Lemma decode_full_group (b0 b1 b2 : byte) (rest : list ascii) :
  let '(s0, s1, s2, s3) :=
    group3 (Byte.to_N b0) (Byte.to_N b1) (Byte.to_N b2) in
  decode_chars
    (sextet_char s0 :: sextet_char s1 :: sextet_char s2 :: sextet_char s3
       :: rest)
  = bind (decode_chars rest) (fun tl => Some (b0 :: b1 :: b2 :: tl)).
Proof.
  pose proof (group3_bounds (Byte.to_N b0) (Byte.to_N b1) (Byte.to_N b2)
                (byte_lt b0) (byte_lt b1) (byte_lt b2)) as G.
  destruct (group3 _ _ _) as [[[s0 s1] s2] s3].
  destruct G as (L0 & L1 & L2 & L3 & E0 & E1 & E2).
  cbn [decode_chars].
  rewrite !char_sextet_char by assumption. cbn [bind].
  rewrite E0, E1, E2, !Byte.of_to_N. cbn [bind].
  now rewrite (sextet_char_not_pad s3 L3).
Qed.

Lemma decode_one (b0 : byte) :
  decode_chars (encode_chars [b0]) = Some [b0].
Proof.
  cbn [encode_chars].
  pose proof (group3_bounds (Byte.to_N b0) 0 0
                (byte_lt b0) zero_lt zero_lt) as G.
  destruct (group3 _ _ _) as [[[s0 s1] s2] s3].
  destruct G as (L0 & L1 & _ & _ & E0 & _).
  cbn [decode_chars].
  rewrite !char_sextet_char by assumption. cbn [bind].
  rewrite E0, Byte.of_to_N. cbn [bind].
  now rewrite Ascii.eqb_refl.
Qed.

Lemma decode_two (b0 b1 : byte) :
  decode_chars (encode_chars [b0; b1]) = Some [b0; b1].
Proof.
  cbn [encode_chars].
  pose proof (group3_bounds (Byte.to_N b0) (Byte.to_N b1) 0
                (byte_lt b0) (byte_lt b1) zero_lt) as G.
  destruct (group3 _ _ _) as [[[s0 s1] s2] s3].
  destruct G as (L0 & L1 & L2 & _ & E0 & E1 & _).
  cbn [decode_chars].
  rewrite !char_sextet_char by assumption. cbn [bind].
  rewrite E0, Byte.of_to_N. cbn [bind].
  rewrite Ascii.eqb_refl, (sextet_char_not_pad s2 L2).
  rewrite ?char_sextet_char by assumption. cbn [bind].
  now rewrite E1, Byte.of_to_N.
Qed.

Lemma decode_encode_bounded (n : nat) :
  forall buf, List.length buf <= n ->
              decode_chars (encode_chars buf) = Some buf.
Proof.
  induction n as [|n IH]; intros buf Hlen.
  - destruct buf; [reflexivity | simpl in Hlen; lia].
  - destruct buf as [|b0 [|b1 [|b2 rest]]].
    + reflexivity.
    + apply decode_one.
    + apply decode_two.
    + cbn [encode_chars].
      pose proof (decode_full_group b0 b1 b2 (encode_chars rest)) as G.
      destruct (group3 _ _ _) as [[[s0 s1] s2] s3].
      rewrite G, IH; [reflexivity | simpl in Hlen; lia].
Qed.

Theorem decode_encode (buf : list byte) : decode (encode buf) = Some buf.
Proof.
  unfold decode, encode. rewrite list_ascii_of_string_of_list_ascii.
  now apply (decode_encode_bounded (List.length buf)).
Qed.

End Base64Facts.

(** ** The image codec *)

(** C7.  For every supported extension and every non-empty buffer, the
    encoder yields [data:<mime>;base64,<payload>] with the MIME type
    expected for the extension ([image/jpeg] for [.jpg] and [.jpeg],
    [image/png] for [.png], and so on for the ten extensions), and decoding
    the payload from base64 gives the buffer back.  The same string is
    produced from any path whose lower-cased extension is the one
    considered. *)
Theorem dataUri_roundtrip (ext : string) (imageBuffer : list byte) :
  In ext SUPPORTED_IMAGE_EXTENSIONS ->
  imageBuffer <> [] ->
  exists mime payload,
    In (ext, mime)
       [ (".jpg", "image/jpeg"); (".jpeg", "image/jpeg"); (".png", "image/png");
         (".gif", "image/gif"); (".svg", "image/svg+xml");
         (".webp", "image/webp"); (".bmp", "image/bmp");
         (".ico", "image/x-icon"); (".tiff", "image/tiff");
         (".tif", "image/tiff") ] /\
    lookup ext MIME_TYPES = Some mime /\
    generateDataUri imageBuffer mime = "data:" ++ mime ++ ";base64," ++ payload /\
    Base64.decode payload = Some imageBuffer /\
    forall filePath,
      JsString.toLowerCase (NodePath.extname filePath) = ext ->
      getImageMimeType filePath = Some mime /\
      generateDataUriFromPath imageBuffer filePath
      = Some ("data:" ++ mime ++ ";base64," ++ payload).
Proof.
  intros Hext _.
  assert (exists mime,
             In (ext, mime)
                [ (".jpg", "image/jpeg"); (".jpeg", "image/jpeg");
                  (".png", "image/png"); (".gif", "image/gif");
                  (".svg", "image/svg+xml"); (".webp", "image/webp");
                  (".bmp", "image/bmp"); (".ico", "image/x-icon");
                  (".tiff", "image/tiff"); (".tif", "image/tiff") ]
             /\ lookup ext MIME_TYPES = Some mime
             /\ JsString.truthy mime = true) as (mime & Hx & Hm & Ht).
  { unfold SUPPORTED_IMAGE_EXTENSIONS in Hext. simpl in Hext.
    repeat (destruct Hext as [<- | Hext];
            [eexists; split; [|split; reflexivity]; cbn [In]; tauto|]).
    contradiction. }
  exists mime, (Base64.encode imageBuffer).
  split; [exact Hx|]. split; [exact Hm|]. split; [reflexivity|].
  split; [apply Base64Facts.decode_encode|].
  intros filePath Hp.
  unfold generateDataUriFromPath, getImageMimeType.
  now rewrite Hp, Hm, Ht.
Qed.

Lemma dataUri_roundtrip_witness :
  In ".png" SUPPORTED_IMAGE_EXTENSIONS /\
  [x89; x50; x4e; x47]%byte <> [] /\
  generateDataUri [x89; x50; x4e; x47]%byte "image/png"
  = "data:image/png;base64,iVBORw==" /\
  Base64.decode "iVBORw==" = Some [x89; x50; x4e; x47]%byte /\
  forall filePath,
    JsString.toLowerCase (NodePath.extname filePath) = ".png" ->
    generateDataUriFromPath [x89; x50; x4e; x47]%byte filePath
    = Some "data:image/png;base64,iVBORw==".
Proof.
  assert (Hin : In ".png" SUPPORTED_IMAGE_EXTENSIONS).
  { vm_compute. tauto. }
  assert (Hne : [x89; x50; x4e; x47]%byte <> []) by discriminate.
  split; [exact Hin|]. split; [exact Hne|].
  destruct (dataUri_roundtrip ".png" [x89; x50; x4e; x47]%byte Hin Hne)
    as (mime & payload & Hx & Hm & Hu & Hd & Hp).
  injection Hm as <-.
  assert (payload = "iVBORw==") as ->.
  { apply (append_cancel_l "data:image/png;base64,"). symmetry. exact Hu. }
  split; [reflexivity|]. split; [exact Hd|].
  intros filePath E. exact (proj2 (Hp filePath E)).
Defined.

(** ** The rewriter *)

(** Case analysis on every test of an iteration of the rewriter. *)
Ltac step_cases :=
  repeat match goal with
         | |- context [if ?b then _ else _] => destruct b
         | |- context [match ?x with _ => _ end] => destruct x
         end.

Section Rewriter.

Variable codec : string -> Completion ImageConversionResult.
Variable env : Env.
Variable markdownDir : string.

Let step := processImageMatch codec env markdownDir.

Lemma step_remote (st : RewriteState) (m : ImageMatch) :
  isRemoteImage (imagePath m) = true ->
  step st m = skipWithWarning st ("Skipped remote image: " ++ imagePath m).
Proof. intros H. unfold step, processImageMatch. now rewrite H. Qed.

(** Every iteration counts its reference once, as converted or as
    skipped, and every skip leaves one diagnostic. *)
Lemma step_counts (st : RewriteState) (m : ImageMatch) :
  rw_converted (step st m) + rw_skipped (step st m)
  = S (rw_converted st + rw_skipped st)
  /\ (rw_skipped st = List.length (rw_warnings st) + List.length (rw_errors st) ->
      rw_skipped (step st m)
      = List.length (rw_warnings (step st m)) + List.length (rw_errors (step st m))).
Proof.
  unfold step, processImageMatch.
  step_cases;
    cbn [skipWithWarning skipWithError substitute rw_converted rw_skipped
         rw_warnings rw_errors];
    rewrite ?length_app; cbn [List.length]; split; lia.
Qed.

Lemma step_keeps_warnings (st : RewriteState) (m : ImageMatch) (w : string) :
  In w (rw_warnings st) -> In w (rw_warnings (step st m)).
Proof.
  intros H. unfold step, processImageMatch.
  step_cases;
    cbn [skipWithWarning skipWithError substitute rw_warnings];
    rewrite ?in_app_iff; auto.
Qed.

Lemma step_skipped_mono (st : RewriteState) (m : ImageMatch) :
  rw_skipped st <= rw_skipped (step st m).
Proof.
  unfold step, processImageMatch.
  step_cases;
    cbn [skipWithWarning skipWithError substitute rw_skipped]; lia.
Qed.

Lemma loop_counts (ms : list ImageMatch) :
  forall st,
    let st' := fold_left step ms st in
    rw_converted st' + rw_skipped st'
    = rw_converted st + rw_skipped st + List.length ms
    /\ rw_skipped st + List.length (filter remoteMatch ms) <= rw_skipped st'
    /\ (rw_skipped st = List.length (rw_warnings st) + List.length (rw_errors st) ->
        rw_skipped st' = List.length (rw_warnings st') + List.length (rw_errors st'))
    /\ (forall w, In w (rw_warnings st) -> In w (rw_warnings st')).
Proof.
  induction ms as [|m ms IH]; intros st; cbn [fold_left List.length filter].
  - repeat split; auto; lia.
  - specialize (IH (step st m)). cbv zeta in IH.
    destruct IH as (IH1 & IH2 & IH3 & IH4).
    destruct (step_counts st m) as [C1 C2].
    repeat split.
    + rewrite IH1. lia.
    + destruct (remoteMatch m) eqn:R; cbn [List.length].
      * assert (rw_skipped (step st m) = S (rw_skipped st)) as E.
        { rewrite step_remote by exact R. reflexivity. }
        lia.
      * pose proof (step_skipped_mono st m). lia.
    + intros H. apply IH3, C2, H.
    + intros w H. apply IH4, step_keeps_warnings, H.
Qed.

Lemma loop_remote_warned (ms : list ImageMatch) :
  forall st m,
    In m ms -> remoteMatch m = true ->
    In ("Skipped remote image: " ++ imagePath m)
       (rw_warnings (fold_left step ms st)).
Proof.
  induction ms as [|x ms IH]; intros st m Hin R; [contradiction|].
  cbn [fold_left]. destruct Hin as [-> | Hin].
  - apply loop_counts. rewrite step_remote by exact R.
    cbn [skipWithWarning rw_warnings]. apply in_app_iff. right. now left.
  - now apply IH.
Qed.

(** A loop over remote references only. *)
Lemma loop_all_remote (ms : list ImageMatch) :
  forall st,
    (forall m, In m ms -> remoteMatch m = true) ->
    fold_left step ms st
    = {| updatedContent := updatedContent st;
         rw_converted := rw_converted st;
         rw_skipped := rw_skipped st + List.length ms;
         rw_warnings :=
           (rw_warnings st
            ++ map (fun m => ("Skipped remote image: " ++ imagePath m)%string) ms)%list;
         rw_errors := rw_errors st |}.
Proof.
  induction ms as [|m ms IH]; intros st H; cbn [fold_left map List.length].
  - rewrite Nat.add_0_r, app_nil_r. now destruct st.
  - rewrite IH by (intros x Hx; apply H; now right).
    rewrite step_remote by (apply H; now left).
    cbn [skipWithWarning updatedContent rw_converted rw_skipped rw_warnings
         rw_errors].
    f_equal; [lia | now rewrite <- app_assoc].
Qed.

End Rewriter.

(** C2, as the code has it.  The two counters of a document add up to the
    number of all image references found in it, remote ones included: each
    remote reference is counted as skipped and leaves the warning
    [Skipped remote image: <path>]; every skip leaves exactly one warning
    or error. *)
Theorem counts_cover_all_references
        (codec : string -> Completion ImageConversionResult) (env : Env)
        (text markdownFilePath : string) :
  let r := convertMarkdownImagesWith codec env text markdownFilePath in
  convertedImages r + skippedImages r = List.length (execAll text)
  /\ List.length (filter remoteMatch (execAll text)) <= skippedImages r
  /\ (forall m, In m (execAll text) -> isRemoteImage (imagePath m) = true ->
                In ("Skipped remote image: " ++ imagePath m) (warnings r))
  /\ skippedImages r = List.length (warnings r) + List.length (errors r).
Proof.
  cbv zeta. unfold convertMarkdownImagesWith, finishRewrite.
  cbn [convertedImages skippedImages warnings errors].
  set (dir := NodePath.dirname markdownFilePath).
  pose proof (loop_counts codec env dir (execAll text) (initialRewriteState text))
    as L.
  cbv zeta in L. cbn [initialRewriteState rw_converted rw_skipped rw_warnings
                      rw_errors List.length] in L.
  destruct L as (L1 & L2 & L3 & _).
  repeat split.
  - rewrite L1. reflexivity.
  - exact L2.
  - intros m Hin R. now apply loop_remote_warned.
  - now apply L3.
Qed.

Lemma counts_cover_all_references_witness :
  let env := oneFile "/docs/a.png" sampleBytes in
  let text := "![a](./a.png) ![r](https://x/y.png)" in
  let r := convertMarkdownImages env text "/docs/t.md" in
  convertedImages r + skippedImages r = 2
  /\ In "Skipped remote image: https://x/y.png" (warnings r).
Proof.
  cbv zeta.
  destruct (counts_cover_all_references
              (moduleCodec (oneFile "/docs/a.png" sampleBytes))
              (oneFile "/docs/a.png" sampleBytes)
              "![a](./a.png) ![r](https://x/y.png)" "/docs/t.md")
    as (H1 & _ & H3 & _).
  split; [exact H1|].
  exact (H3 {| originalMarkdown := "![r](https://x/y.png)"; altText := "r";
               imagePath := "https://x/y.png" |}
            (or_intror (or_introl eq_refl)) eq_refl).
Defined.

(** C2, counterexample.  A document whose only reference is remote has no
    local reference, yet its counters add up to one. *)
Lemma remote_reference_is_counted :
  let text := "![r](https://x/y.png)" in
  let r := convertMarkdownImages noFiles text "/docs/b.md" in
  extractImageReferences noFiles text "/docs/b.md" = []
  /\ convertedImages r + skippedImages r
     <> List.length (extractImageReferences noFiles text "/docs/b.md").
Proof. vm_compute. split; [reflexivity | discriminate]. Qed.




(** C5, as the code has it.  When every image reference of a document
    begins with [http://] or [https://], nothing is converted, every
    reference is counted as skipped, and the text is returned unchanged. *)
Theorem http_only_document_unchanged
        (codec : string -> Completion ImageConversionResult) (env : Env)
        (text markdownFilePath : string) :
  (forall m, In m (execAll text) -> isRemoteImage (imagePath m) = true) ->
  let r := convertMarkdownImagesWith codec env text markdownFilePath in
  convertedImages r = 0
  /\ skippedImages r = List.length (execAll text)
  /\ content r = text
  /\ warnings r
     = map (fun m => "Skipped remote image: " ++ imagePath m) (execAll text)
  /\ errors r = [].
Proof.
  intros H. cbv zeta. unfold convertMarkdownImagesWith.
  rewrite loop_all_remote by exact H.
  cbn. repeat split; reflexivity.
Qed.

Lemma http_only_document_unchanged_witness :
  let text := "![a](http://h/a.png) and ![b](https://h/b.jpg)" in
  let r := convertMarkdownImages noFiles text "/docs/b.md" in
  convertedImages r = 0 /\ skippedImages r = 2 /\ content r = text.
Proof.
  cbv zeta.
  assert (H : forall m,
             In m (execAll "![a](http://h/a.png) and ![b](https://h/b.jpg)") ->
             isRemoteImage (imagePath m) = true).
  { intros m Hin. vm_compute in Hin.
    destruct Hin as [<- | [<- | []]]; reflexivity. }
  destruct (http_only_document_unchanged (moduleCodec noFiles) noFiles
              "![a](http://h/a.png) and ![b](https://h/b.jpg)" "/docs/b.md" H)
    as (Hc & Hs & Ht & _).
  split; [exact Hc|]. split; [exact Hs | exact Ht].
Defined.

(** C5, counterexample.  The only reference of the document uses the
    scheme [ftp://]; a file lies at the path the reference resolves to, and
    the reference is converted. *)
Lemma ftp_reference_is_converted :
  let text := "![f](ftp://x/y.png)" in
  let r := convertMarkdownImages (oneFile "/docs/ftp:/x/y.png" sampleBytes)
             text "/docs/t.md" in
  (forall m, In m (execAll text) ->
             JsString.startsWith (imagePath m) "ftp://" = true)
  /\ convertedImages r = 1
  /\ skippedImages r = 0
  /\ content r = "![f](data:image/png;base64,TWFu)"
  /\ content r <> text.
Proof.
  cbv zeta. split.
  - intros m Hin. vm_compute in Hin. destruct Hin as [<- | []]. reflexivity.
  - vm_compute. repeat split; discriminate.
Qed.

(** A replacement text without [$] is inserted as it is. *)
Lemma getSubstitution_plain (matched before after template : string) :
  JsString.includesChar "$" template = false ->
  JsString.getSubstitution matched before after template = template.
Proof.
  induction template as [|c t IH]; intros H; [reflexivity|].
  cbn [JsString.includesChar] in H. apply orb_false_elim in H.
  destruct H as [Hc Ht]. specialize (IH Ht).
  cbn [JsString.getSubstitution].
  destruct c as [[] [] [] [] [] [] [] []]; try (rewrite IH; reflexivity).
  discriminate Hc.
Qed.

Lemma includesChar_append (c : ascii) (a b : string) :
  JsString.includesChar c (a ++ b)
  = JsString.includesChar c a || JsString.includesChar c b.
Proof.
  induction a as [|x a IH]; [reflexivity|].
  cbn [append JsString.includesChar]. now rewrite IH, orb_assoc.
Qed.

Lemma drop_append (p rest : string) :
  JsString.drop (String.length p) (p ++ rest) = rest.
Proof. induction p as [|c p IH]; [now destruct rest | exact IH]. Qed.

Lemma prefix_drop (pat s : string) :
  String.prefix pat s = true -> s = pat ++ JsString.drop (String.length pat) s.
Proof.
  intros P. destruct (prefix_split _ _ P) as [rest ->].
  now rewrite drop_append.
Qed.

(** [cutFirst] splits the text around an occurrence of the pattern. *)
Lemma cutFirst_split (pat : string) :
  forall s before after,
    JsString.cutFirst pat s = Some (before, after) ->
    s = before ++ pat ++ after.
Proof.
  induction s as [|c s IH]; intros before after H; cbn [JsString.cutFirst] in H.
  - destruct (String.prefix pat "") eqn:P; [|discriminate].
    injection H as <- <-. now apply prefix_drop.
  - destruct (String.prefix pat (String c s)) eqn:P.
    + injection H as <- <-. now apply prefix_drop.
    + destruct (JsString.cutFirst pat s) as [[b a]|] eqn:C; [|discriminate].
      injection H as <- <-. cbn [append]. f_equal. now apply IH.
Qed.

(** With a replacement text free of [$], [replace] puts that very text in
    the place of the first occurrence and leaves the rest of the text as it
    was. *)
Lemma replace_plain (s pat template before after : string) :
  JsString.cutFirst pat s = Some (before, after) ->
  JsString.includesChar "$" template = false ->
  s = before ++ pat ++ after
  /\ JsString.replace s pat template = before ++ template ++ after.
Proof.
  intros C H. split; [now apply cutFirst_split|].
  unfold JsString.replace. rewrite C.
  now rewrite getSubstitution_plain.
Qed.

Lemma lookup_In (key value : string) (table : list (string * string)) :
  lookup key table = Some value -> In (key, value) table.
Proof.
  induction table as [|[k v] table IH]; cbn [lookup]; [discriminate|].
  destruct (String.eqb_spec k key) as [->|_].
  - intros H. injection H as ->. now left.
  - intros H. right. now apply IH.
Qed.

Lemma alphabet_no_dollar (n : N) :
  Ascii.eqb (Base64.sextet_char n) "$" = false.
Proof.
  unfold Base64.sextet_char.
  destruct (nth_in_or_default (N.to_nat n) Base64.alphabet Base64.pad) as [H | E];
    [|rewrite E; reflexivity].
  revert H. generalize (nth (N.to_nat n) Base64.alphabet Base64.pad).
  intros c H. vm_compute in H.
  repeat (destruct H as [<-|H]; [reflexivity|]). contradiction.
Qed.

Lemma encode_chars_no_dollar (n : nat) :
  forall buf, List.length buf <= n ->
              existsb (fun c => Ascii.eqb c "$") (Base64.encode_chars buf) = false.
Proof.
  induction n as [|n IH]; intros buf Hlen.
  - destruct buf; [reflexivity | simpl in Hlen; lia].
  - destruct buf as [|b0 [|b1 [|b2 rest]]]; cbn [Base64.encode_chars].
    + reflexivity.
    + destruct (Base64.group3 _ _ _) as [[[s0 s1] s2] s3].
      cbn [existsb]. now rewrite !alphabet_no_dollar.
    + destruct (Base64.group3 _ _ _) as [[[s0 s1] s2] s3].
      cbn [existsb]. now rewrite !alphabet_no_dollar.
    + destruct (Base64.group3 _ _ _) as [[[s0 s1] s2] s3].
      cbn [existsb]. rewrite !alphabet_no_dollar. cbn [orb].
      apply IH. simpl in Hlen. lia.
Qed.

Lemma includesChar_of_list (c : ascii) (l : list ascii) :
  JsString.includesChar c (string_of_list_ascii l)
  = existsb (fun x => Ascii.eqb x c) l.
Proof. induction l as [|x l IH]; cbn; congruence. Qed.

(** No data URI of the codec holds a [$]. *)
Lemma dataUri_no_dollar (ext mime : string) (imageBuffer : list byte) :
  lookup ext MIME_TYPES = Some mime ->
  JsString.includesChar "$" (generateDataUri imageBuffer mime) = false.
Proof.
  intros H. apply lookup_In in H. unfold generateDataUri.
  assert (JsString.includesChar "$" (Base64.encode imageBuffer) = false) as E.
  { unfold Base64.encode. rewrite includesChar_of_list.
    now apply (encode_chars_no_dollar (List.length imageBuffer)). }
  rewrite !includesChar_append, E.
  vm_compute in H.
  repeat (destruct H as [H|H]; [injection H as <- <-; reflexivity|]).
  contradiction.
Qed.

(** A successful result of the codec holds a data URI built from the bytes
    read and a MIME type of the table. *)
Lemma convertImageToBase64_success (env : Env) (p : string) :
  success (convertImageToBase64 env p) = true ->
  exists ext mime imageBuffer,
    lookup ext MIME_TYPES = Some mime
    /\ fs_readFile env p = Returns imageBuffer
    /\ convertImageToBase64 env p
       = {| success := true;
            dataUri := Some (generateDataUri imageBuffer mime);
            error := None |}.
Proof.
  unfold convertImageToBase64, generateDataUriFromPath, getImageMimeType.
  destruct (fileExists env p); cbn [negb]; [|discriminate].
  destruct (isImageFile p); cbn [negb]; [|discriminate].
  destruct (fs_readFile env p) as [buf|msg]; [|discriminate].
  destruct (lookup _ MIME_TYPES) as [mime|] eqn:L; [|discriminate].
  destruct (JsString.truthy mime); [|discriminate].
  destruct (JsString.truthy (generateDataUri buf mime)); [|discriminate].
  intros _. now exists (JsString.toLowerCase (NodePath.extname p)), mime, buf.
Qed.

(** The substitution as the code intends it: for a reference whose
    alternative text is free of [$], the first occurrence of the matched
    text is replaced by [![<alt>](data:<mime>;base64,<payload>)] and the
    text around it is kept. *)
Theorem plain_alt_substitution_exact
        (env : Env) (markdownDir : string) (st : RewriteState) (m : ImageMatch)
        (before after : string) :
  isRemoteImage (imagePath m) = false ->
  isSupportedImageFormat (imagePath m) = true ->
  success (convertImageToBase64 env (resolveImagePath env markdownDir (imagePath m)))
  = true ->
  JsString.includesChar "$" (altText m) = false ->
  JsString.cutFirst (originalMarkdown m) (updatedContent st) = Some (before, after) ->
  exists mime payload,
    updatedContent st = before ++ originalMarkdown m ++ after
    /\ updatedContent (processImageMatch (moduleCodec env) env markdownDir st m)
       = before ++ ("![" ++ altText m ++ "](data:" ++ mime ++ ";base64," ++ payload ++ ")")
         ++ after
    /\ rw_converted (processImageMatch (moduleCodec env) env markdownDir st m)
       = S (rw_converted st).
Proof.
  intros R S Hs Hd Hc.
  destruct (convertImageToBase64_success env _ Hs) as (ext & mime & buf & L & _ & E).
  exists mime, (Base64.encode buf).
  assert (JsString.includesChar "$"
            (newMarkdownFor (altText m) (generateDataUri buf mime)) = false) as D.
  { unfold newMarkdownFor. rewrite !includesChar_append, Hd.
    now rewrite (dataUri_no_dollar ext mime buf L). }
  destruct (replace_plain _ _ _ _ _ Hc D) as [E1 E2].
  split; [exact E1|].
  unfold processImageMatch, moduleCodec. rewrite R, S, E. cbn [negb success dataUri].
  assert (JsString.truthy (generateDataUri buf mime) = true) as T by reflexivity.
  rewrite T. cbn [substitute updatedContent rw_converted].
  split; [|reflexivity].
  rewrite E2. unfold newMarkdownFor, generateDataUri.
  now rewrite !append_assoc.
Qed.

(** C4, the code at the failing input.  The alternative text of the
    reference is [$$]; the file exists and is encoded; the text substituted
    is [![$](data:...)], whereas the text the code has built for the
    reference, [![$$](data:...)], keeps the alternative text. *)
Lemma dollar_alt_text_is_rewritten :
  let r := convertMarkdownImages (oneFile "/docs/a.png" sampleBytes)
             "![$$](./a.png)" "/docs/t.md" in
  convertedImages r = 1
  /\ content r = "![$](data:image/png;base64,TWFu)"
  /\ newMarkdownFor "$$" "data:image/png;base64,TWFu"
     = "![$$](data:image/png;base64,TWFu)"
  /\ content r <> newMarkdownFor "$$" "data:image/png;base64,TWFu".
Proof. vm_compute. repeat split; discriminate. Qed.

(** C8, as the code has it.  The codec is consulted at the path resolved
    from the reference as written, suffix included.  Unless a readable file
    with an extension of the codec lies at that very path, the reference is
    skipped: the warning [Failed to convert image: <path> - <reason>] is
    appended to the warnings, the count of skipped images grows by one, and
    the text, the count of converted images and the errors stay as they
    are, whatever lies at the cleaned path.  The reason is that of the
    existence check when no readable file lies there, and that of the
    extension check otherwise. *)
Theorem suffixed_path_not_cleaned
        (env : Env) (markdownDir : string) (st : RewriteState) (m : ImageMatch) :
  isRemoteImage (imagePath m) = false ->
  isSupportedImageFormat (imagePath m) = true ->
  fileExists env (resolveImagePath env markdownDir (imagePath m)) = false
  \/ isImageFile (resolveImagePath env markdownDir (imagePath m)) = false ->
  let absoluteImagePath := resolveImagePath env markdownDir (imagePath m) in
  let st' := processImageMatch (moduleCodec env) env markdownDir st m in
  let reason :=
    if fileExists env absoluteImagePath
    then "Unsupported image format: " ++ absoluteImagePath
    else "Image file not found or not readable: " ++ absoluteImagePath in
  (forall codec1 codec2,
      codec1 absoluteImagePath = codec2 absoluteImagePath ->
      processImageMatch codec1 env markdownDir st m
      = processImageMatch codec2 env markdownDir st m)
  /\ rw_warnings st'
     = (rw_warnings st
        ++ [("Failed to convert image: " ++ imagePath m ++ " - " ++ reason)%string])%list
  /\ rw_errors st' = rw_errors st
  /\ rw_converted st' = rw_converted st
  /\ rw_skipped st' = S (rw_skipped st)
  /\ updatedContent st' = updatedContent st.
Proof.
  intros R S E. cbv zeta.
  assert (processImageMatch (moduleCodec env) env markdownDir st m
          = {| updatedContent := updatedContent st;
               rw_converted := rw_converted st;
               rw_skipped := Datatypes.S (rw_skipped st);
               rw_warnings :=
                 (rw_warnings st
                  ++ [("Failed to convert image: " ++ imagePath m ++ " - "
                       ++ (if fileExists env
                                (resolveImagePath env markdownDir (imagePath m))
                           then "Unsupported image format: "
                                ++ resolveImagePath env markdownDir (imagePath m)
                           else "Image file not found or not readable: "
                                ++ resolveImagePath env markdownDir (imagePath m)))%string])%list;
               rw_errors := rw_errors st |}) as H.
  { unfold processImageMatch, moduleCodec, convertImageToBase64.
    rewrite R, S. cbn [negb].
    destruct (fileExists env _) eqn:X; cbn [negb].
    - destruct E as [E|E]; [discriminate|]. rewrite E. reflexivity.
    - reflexivity. }
  split; [|rewrite H; repeat split].
  intros codec1 codec2 Hc. unfold processImageMatch.
  rewrite R, S. cbn [negb]. now rewrite Hc.
Qed.

Lemma suffixed_path_not_cleaned_witness :
  let env := oneFile "/docs/img.png" sampleBytes in
  let m := {| originalMarkdown := "![i](./img.png?v=1)"; altText := "i";
              imagePath := "./img.png?v=1" |} in
  let st := initialRewriteState "![i](./img.png?v=1)" in
  execAll "![i](./img.png?v=1)" = [m]
  /\ fileExists env (resolveImagePath env "/docs" (cleanImagePath (imagePath m)))
     = true
  /\ fileExists env (resolveImagePath env "/docs" (imagePath m)) = false
  /\ rw_warnings (processImageMatch (moduleCodec env) env "/docs" st m)
     = ["Failed to convert image: ./img.png?v=1 - Image file not found or not readable: /docs/img.png?v=1"]
  /\ rw_converted (processImageMatch (moduleCodec env) env "/docs" st m) = 0
  /\ rw_skipped (processImageMatch (moduleCodec env) env "/docs" st m) = 1.
Proof.
  cbv zeta. split; [reflexivity|]. split; [reflexivity|]. split; [reflexivity|].
  destruct (suffixed_path_not_cleaned (oneFile "/docs/img.png" sampleBytes) "/docs"
              (initialRewriteState "![i](./img.png?v=1)")
              {| originalMarkdown := "![i](./img.png?v=1)"; altText := "i";
                 imagePath := "./img.png?v=1" |}
              eq_refl eq_refl (or_introl eq_refl))
    as (_ & W & _ & C & K & _).
  split; [exact W|]. split; [exact C|exact K].
Defined.

(** C8, counterexample.  The path of the reference carries a query string;
    a readable file lies at the path with its suffix, and the reference is
    converted. *)
Lemma suffixed_reference_is_converted :
  let env := oneFile "/docs/a.png?b.png" sampleBytes in
  let r := convertMarkdownImages env "![q](./a.png?b.png)" "/docs/t.md" in
  cleanImagePath "./a.png?b.png" = "./a.png"
  /\ isRemoteImage "./a.png?b.png" = false
  /\ convertedImages r = 1
  /\ skippedImages r = 0
  /\ warnings r = [].
Proof. vm_compute. repeat split. Qed.

(** ** Lower case *)

Lemma string_length_ind (P : string -> Prop) :
  (forall s, (forall t, String.length t < String.length s -> P t) -> P s) ->
  forall s, P s.
Proof.
  intros H s. apply H.
  induction s as [|c s IH]; intros t L; [cbn in L; lia|].
  apply H. intros u Lu. apply IH. cbn [String.length] in L. lia.
Qed.

(** Whether a string begins with the Kelvin sign. *)
Lemma kelvin_cases (c : ascii) (s : string) :
  (exists rest, c = "226"%char /\ s = String "132" (String "170" rest))
  \/ (forall rest, ~ (c = "226"%char /\ s = String "132" (String "170" rest))).
Proof.
  destruct s as [|c1 [|c2 rest]];
    try (right; intros rest' [_ E]; discriminate E).
  destruct (JsString.isKelvinSign c c1 c2) eqn:K.
  - left. exists rest. unfold JsString.isKelvinSign in K.
    apply andb_prop in K as [K K2]. apply andb_prop in K as [K0 K1].
    apply Ascii.eqb_eq in K0, K1, K2. now subst.
  - right. intros rest' [-> E]. injection E as -> -> _. discriminate K.
Qed.

Lemma toLowerCase_kelvin (rest : string) :
  JsString.toLowerCase (String "226" (String "132" (String "170" rest)))
  = String "k" (JsString.toLowerCase rest).
Proof. reflexivity. Qed.

Lemma toLowerCase_plain (c : ascii) (s : string) :
  (forall rest, ~ (c = "226"%char /\ s = String "132" (String "170" rest))) ->
  JsString.toLowerCase (String c s)
  = String (JsString.lower_char c) (JsString.toLowerCase s).
Proof.
  intros N. destruct s as [|c1 [|c2 rest]]; try reflexivity.
  cbn [JsString.toLowerCase].
  destruct (JsString.isKelvinSign c c1 c2) eqn:K; [|reflexivity].
  exfalso. apply (N rest). unfold JsString.isKelvinSign in K.
  apply andb_prop in K as [K K2]. apply andb_prop in K as [K0 K1].
  apply Ascii.eqb_eq in K0, K1, K2. now subst.
Qed.

(** Induction along the recursion of [toLowerCase]. *)
Lemma toLowerCase_ind (P : string -> Prop) :
  P "" ->
  (forall rest, P rest -> P (String "226" (String "132" (String "170" rest)))) ->
  (forall c s,
      (forall rest, ~ (c = "226"%char /\ s = String "132" (String "170" rest))) ->
      P s -> P (String c s)) ->
  forall s, P s.
Proof.
  intros H0 Hk Hp. apply string_length_ind. intros [|c s] IH; [exact H0|].
  destruct (kelvin_cases c s) as [(rest & -> & ->)|N].
  - apply Hk, IH. cbn [String.length]. lia.
  - apply Hp; [exact N|]. apply IH. cbn [String.length]. lia.
Qed.

(** [lower_char] neither makes nor unmakes a byte of the Kelvin sign. *)
Lemma lower_char_keeps_byte (c d : ascii) :
  d = "226"%char \/ d = "132"%char \/ d = "170"%char ->
  JsString.lower_char c = d -> c = d.
Proof.
  intros [-> |[-> | ->]]; destruct c as [[] [] [] [] [] [] [] []];
    vm_compute; intros H; try reflexivity; discriminate H.
Qed.

(** The first character of a lower-cased string. *)
Lemma toLowerCase_head (c : ascii) (s t : string) (d : ascii) :
  JsString.toLowerCase (String c s) = String d t ->
  d = "k"%char \/ d = JsString.lower_char c.
Proof.
  destruct (kelvin_cases c s) as [(rest & -> & ->)|N].
  - rewrite toLowerCase_kelvin. intros H. injection H as <- _. now left.
  - rewrite (toLowerCase_plain c s N). intros H. injection H as <- _. now right.
Qed.

Lemma toLowerCase_head2 (s r : string) :
  JsString.toLowerCase s = String "132" (String "170" r) ->
  exists r', s = String "132" (String "170" r').
Proof.
  destruct s as [|c s]; [discriminate|].
  destruct (kelvin_cases c s) as [(rest & -> & ->)|N].
  - rewrite toLowerCase_kelvin. discriminate.
  - rewrite (toLowerCase_plain c s N). intros H. injection H as Hc H.
    apply lower_char_keeps_byte in Hc; [subst c|tauto].
    destruct s as [|c s]; [discriminate|].
    destruct (kelvin_cases c s) as [(rest & -> & ->)|N'].
    + rewrite toLowerCase_kelvin in H. discriminate.
    + rewrite (toLowerCase_plain c s N') in H. injection H as Hc _.
      apply lower_char_keeps_byte in Hc; [subst c|tauto]. now exists s.
Qed.

(** [toLowerCase] goes through an append whose second part does not begin
    in the middle of a Kelvin sign. *)
Lemma toLowerCase_append (a b : string) :
  (forall c b', b = String c b' -> c <> "132"%char /\ c <> "170"%char) ->
  JsString.toLowerCase (a ++ b) = JsString.toLowerCase a ++ JsString.toLowerCase b.
Proof.
  intros B. induction a as [|rest IH|c a N IH] using toLowerCase_ind.
  - reflexivity.
  - cbn [append]. rewrite !toLowerCase_kelvin. cbn [append]. now rewrite IH.
  - cbn [append]. rewrite (toLowerCase_plain c a N). cbn [append].
    rewrite <- IH. apply toLowerCase_plain.
    intros rest [-> E]. destruct a as [|c1 [|c2 a]].
    + cbn [append] in E. destruct (B _ _ E) as [H _]. now contradiction H.
    + cbn [append] in E. injection E as -> E.
      destruct (B _ _ E) as [_ H]. now contradiction H.
    + cbn [append] in E. injection E as -> -> _. now apply (N a).
Qed.

(** A string whose lower case begins with a dot begins with a dot. *)
Lemma toLowerCase_dot (s t : string) :
  JsString.toLowerCase s = String "." t ->
  forall c s', s = String c s' -> c <> "132"%char /\ c <> "170"%char.
Proof.
  intros H c s' ->. apply toLowerCase_head in H as [H|H]; [discriminate H|].
  split; intros ->; discriminate H.
Qed.

Lemma isSupportedImageFormat_iff (p : string) :
  isSupportedImageFormat p = true <->
  exists ext stem,
    In ext [".jpg"; ".jpeg"; ".png"; ".gif"; ".svg"; ".webp"; ".bmp"]
    /\ JsString.toLowerCase (cleanImagePath p) = stem ++ ext.
Proof.
  unfold isSupportedImageFormat. rewrite existsb_exists.
  split.
  - intros (ext & Hin & He). apply endsWith_iff in He.
    destruct He as [stem He]. now exists ext, stem.
  - intros (ext & stem & Hin & He). exists ext. split; [exact Hin|].
    apply endsWith_iff. now exists stem.
Qed.

Lemma codec_only_extension_rejected (ext stem p : string) :
  In ext [".ico"; ".tiff"; ".tif"] ->
  JsString.toLowerCase (cleanImagePath p) = stem ++ ext ->
  isSupportedImageFormat p = false.
Proof.
  intros Hin He. unfold isSupportedImageFormat, JsString.endsWith.
  rewrite He, rev_append.
  destruct Hin as [<- | [<- | [<- | []]]]; reflexivity.
Qed.

(** C9.  A local reference whose cleaned path ends in [.ico], [.tiff] or
    [.tif], in any letter case, is skipped by the rewriter as an unsupported
    format, although the extension is one of the codec's and the codec
    encodes a readable file with that extension: the warning [Skipped
    unsupported image format: <path>] is appended to the warnings, the
    count of skipped images grows by one and nothing else changes.  The
    rewriter accepts exactly the paths that end in one of its own seven
    extensions. *)
Theorem codec_only_extensions_skipped
        (codec : string -> Completion ImageConversionResult) (env : Env)
        (markdownDir : string) (st : RewriteState) (m : ImageMatch)
        (ext stem suffix : string) :
  In ext [".ico"; ".tiff"; ".tif"] ->
  isRemoteImage (imagePath m) = false ->
  cleanImagePath (imagePath m) = stem ++ suffix ->
  JsString.toLowerCase suffix = ext ->
  processImageMatch codec env markdownDir st m
  = {| updatedContent := updatedContent st;
       rw_converted := rw_converted st;
       rw_skipped := S (rw_skipped st);
       rw_warnings :=
         (rw_warnings st
          ++ [("Skipped unsupported image format: " ++ imagePath m)%string])%list;
       rw_errors := rw_errors st |}
  /\ rw_skipped (processImageMatch codec env markdownDir st m) = S (rw_skipped st)
  /\ In ext SUPPORTED_IMAGE_EXTENSIONS
  /\ (forall (fs : Env) (file : string) (bytes : list byte),
         JsString.toLowerCase (NodePath.extname file) = ext ->
         fileExists fs file = true ->
         fs_readFile fs file = Returns bytes ->
         exists mime,
           lookup ext MIME_TYPES = Some mime
           /\ convertImageToBase64 fs file
              = {| success := true;
                   dataUri := Some (generateDataUri bytes mime);
                   error := None |})
  /\ (forall p,
         isSupportedImageFormat p = true <->
         exists e s,
           In e [".jpg"; ".jpeg"; ".png"; ".gif"; ".svg"; ".webp"; ".bmp"]
           /\ JsString.toLowerCase (cleanImagePath p) = s ++ e).
Proof.
  intros Hin R Hc Hl.
  assert (JsString.toLowerCase (cleanImagePath (imagePath m))
          = JsString.toLowerCase stem ++ ext) as He.
  { rewrite Hc, toLowerCase_append, Hl; [reflexivity|].
    destruct Hin as [<- | [<- | [<- | []]]];
      exact (toLowerCase_dot suffix _ Hl). }
  pose proof (codec_only_extension_rejected ext _ (imagePath m) Hin He) as U.
  assert (processImageMatch codec env markdownDir st m
          = {| updatedContent := updatedContent st;
               rw_converted := rw_converted st;
               rw_skipped := S (rw_skipped st);
               rw_warnings :=
                 (rw_warnings st
                  ++ [("Skipped unsupported image format: " ++ imagePath m)%string])%list;
               rw_errors := rw_errors st |}) as H.
  { unfold processImageMatch. now rewrite R, U. }
  split; [exact H|]. split; [now rewrite H|].
  split; [|split].
  - destruct Hin as [<- | [<- | [<- | []]]]; vm_compute; tauto.
  - intros fs file bytes Hx Ha Hr.
    assert (exists mime, lookup ext MIME_TYPES = Some mime
                         /\ JsString.truthy mime = true) as (mime & Hm & Ht).
    { destruct Hin as [<- | [<- | [<- | []]]]; eexists; split; reflexivity. }
    exists mime. split; [exact Hm|].
    unfold convertImageToBase64, isImageFile, generateDataUriFromPath,
      getImageMimeType.
    rewrite Ha, Hx, Hm, Hr, Ht. reflexivity.
  - apply isSupportedImageFormat_iff.
Qed.

Lemma codec_only_extensions_skipped_witness :
  let env := oneFile "/docs/logo.ico" sampleBytes in
  let m := {| originalMarkdown := "![l](./logo.ico)"; altText := "l";
              imagePath := "./logo.ico" |} in
  let st := initialRewriteState "![l](./logo.ico)" in
  execAll "![l](./logo.ico)" = [m]
  /\ processImageMatch (moduleCodec env) env "/docs" st m
     = {| updatedContent := "![l](./logo.ico)";
          rw_converted := 0;
          rw_skipped := 1;
          rw_warnings := ["Skipped unsupported image format: ./logo.ico"];
          rw_errors := [] |}
  /\ convertImageToBase64 env (resolveImagePath env "/docs" "./logo.ico")
     = {| success := true;
          dataUri := Some "data:image/x-icon;base64,TWFu";
          error := None |}.
Proof.
  cbv zeta. split; [reflexivity|].
  destruct (codec_only_extensions_skipped
              (moduleCodec (oneFile "/docs/logo.ico" sampleBytes))
              (oneFile "/docs/logo.ico" sampleBytes) "/docs"
              (initialRewriteState "![l](./logo.ico)")
              {| originalMarkdown := "![l](./logo.ico)"; altText := "l";
                 imagePath := "./logo.ico" |}
              ".ico" "./logo" ".ico"
              (or_introl eq_refl) eq_refl eq_refl eq_refl)
    as (H1 & _ & _ & H4 & _).
  split; [exact H1|].
  destruct (H4 (oneFile "/docs/logo.ico" sampleBytes) "/docs/logo.ico"
              sampleBytes eq_refl eq_refl eq_refl) as (mime & Hm & Hc).
  injection Hm as <-. exact Hc.
Defined.

(** ** The orchestrator *)

Section Orchestrator.

Variable c : Collaborators.

(** Whether a file fails does not depend on the aggregate. *)
Lemma completion_independent (file : IMarkdownFile) (w w' : World) :
  snd (processMarkdownFile c file w) = snd (processMarkdownFile c file w').
Proof.
  unfold processMarkdownFile.
  destruct (rewriteImages c _ _) as [cr|msg]; [|reflexivity].
  destruct (writeMarkdownFile c _ _); reflexivity.
Qed.

Lemma processFiles_app (pre post : list IMarkdownFile) (ls : LoopState) :
  processFiles c (pre ++ post)%list ls
  = processFiles c post (processFiles c pre ls).
Proof. apply fold_left_app. Qed.

Lemma loopBody_counters (ls : LoopState) (file : IMarkdownFile) :
  processedFiles (loopBody c ls file) + failedFiles (loopBody c ls file)
  = S (processedFiles ls + failedFiles ls).
Proof.
  unfold loopBody.
  destruct (processMarkdownFile c file (world ls)) as [w' [cr|msg]];
    cbn [processedFiles failedFiles]; lia.
Qed.

Lemma processFiles_counters (files : list IMarkdownFile) :
  forall ls,
    processedFiles (processFiles c files ls) + failedFiles (processFiles c files ls)
    = processedFiles ls + failedFiles ls + List.length files.
Proof.
  induction files as [|f files IH]; intros ls; cbn [processFiles fold_left List.length].
  - lia.
  - fold (processFiles c files (loopBody c ls f)).
    rewrite IH, loopBody_counters. lia.
Qed.

Lemma loopBody_keeps_errors (ls : LoopState) (file : IMarkdownFile) (e : string) :
  In e (r_errors (aggregate (world ls))) ->
  In e (r_errors (aggregate (world (loopBody c ls file)))).
Proof.
  intros H. unfold loopBody, processMarkdownFile.
  destruct (rewriteImages c _ _) as [cr|msg].
  - destruct (writeMarkdownFile c _ _);
      cbn [world aggregate withAggregate recordWrite pushError accumulate r_errors];
      rewrite ?in_app_iff; auto.
  - cbn [world aggregate withAggregate pushError r_errors].
    rewrite ?in_app_iff; auto.
Qed.

Lemma processFiles_keeps_errors (files : list IMarkdownFile) (e : string) :
  forall ls,
    In e (r_errors (aggregate (world ls))) ->
    In e (r_errors (aggregate (world (processFiles c files ls)))).
Proof.
  induction files as [|f files IH]; intros ls H; [exact H|].
  cbn [processFiles fold_left]. fold (processFiles c files (loopBody c ls f)).
  now apply IH, loopBody_keeps_errors.
Qed.

(** What one iteration does with a file whose processing throws. *)
Lemma loopBody_failure (ls : LoopState) (file : IMarkdownFile) (message : string) :
  snd (processMarkdownFile c file (world ls)) = Throws message ->
  In (fileFailedMsg (relativePath file) message)
     (r_errors (aggregate (world (loopBody c ls file))))
  /\ outputTree (world (loopBody c ls file)) = outputTree (world ls)
  /\ failedFiles (loopBody c ls file) = S (failedFiles ls)
  /\ processedFiles (loopBody c ls file) = processedFiles ls.
Proof.
  unfold loopBody, processMarkdownFile.
  destruct (rewriteImages c _ _) as [cr|msg].
  - destruct (writeMarkdownFile c _ _) as [u|msg]; cbn [snd]; intros H;
      [discriminate|]. injection H as ->.
    cbn [world aggregate withAggregate pushError accumulate r_errors
         outputTree failedFiles processedFiles].
    repeat split. rewrite !in_app_iff. right. now left.
  - cbn [snd]. intros H. injection H as ->.
    cbn [world aggregate withAggregate pushError r_errors outputTree
         failedFiles processedFiles].
    repeat split. rewrite !in_app_iff. right. now left.
Qed.

End Orchestrator.

(** C10.  When the write of a file throws, the iteration appends to the
    aggregate's errors the reference-level errors of the document followed
    by three entries for the failure, pairwise distinct: one from the catch
    around the write, one from the catch of the per-file processing, one from
    the catch of the loop; one file is counted as failed, so the errors
    outnumber the failed files. *)
Theorem write_failure_three_entries
        (c : Collaborators) (file : IMarkdownFile) (ls : LoopState)
        (conversionResult : MarkdownConversionResult) (message : string) :
  rewriteImages c (fileContent file) (absolutePath file) = Returns conversionResult ->
  writeMarkdownFile c (relativePath file) (content conversionResult) = Throws message ->
  let rel := relativePath file in
  let three :=
    [ "Failed to write converted file " ++ rel ++ ": " ++ message;
      "Error processing file " ++ rel ++ ": " ++ message;
      "Failed to process file " ++ rel ++ ": " ++ message ] in
  let ls' := loopBody c ls file in
  r_errors (aggregate (world ls'))
  = (r_errors (aggregate (world ls)) ++ errors conversionResult ++ three)%list
  /\ NoDup three
  /\ failedFiles ls' = S (failedFiles ls)
  /\ List.length (r_errors (aggregate (world ls')))
     = List.length (r_errors (aggregate (world ls)))
       + List.length (errors conversionResult) + 3.
Proof.
  intros Hr Hw. cbv zeta.
  assert (r_errors (aggregate (world (loopBody c ls file)))
          = (r_errors (aggregate (world ls)) ++ errors conversionResult
             ++ [ writeFailedMsg (relativePath file) message;
                  processingErrorMsg (relativePath file) message;
                  fileFailedMsg (relativePath file) message ])%list
          /\ failedFiles (loopBody c ls file) = S (failedFiles ls)) as [E F].
  { unfold loopBody, processMarkdownFile. rewrite Hr, Hw.
    cbn [world aggregate withAggregate pushError accumulate r_errors failedFiles].
    split; [|reflexivity].
    rewrite <- !app_assoc. reflexivity. }
  split; [exact E|]. split; [|split; [exact F|]].
  - repeat constructor; cbn [In]; intros H;
      repeat (destruct H as [H|H]; [discriminate H|]); exact H.
  - rewrite E, !length_app. cbn [List.length]. lia.
Qed.

Lemma write_failure_three_entries_witness :
  let file := {| relativePath := "b.md"; absolutePath := "/docs/b.md";
                 fileContent := "![r](https://x/y.png)" |} in
  let c := wired noFiles (Returns [file]) (Returns tt)
                 (fun _ _ => Throws "EACCES: permission denied") in
  let ls := snd (convert c "/docs") in
  r_errors (aggregate (world ls))
  = [ "Failed to write converted file b.md: EACCES: permission denied";
      "Error processing file b.md: EACCES: permission denied";
      "Failed to process file b.md: EACCES: permission denied" ]
  /\ failedFiles ls = 1.
Proof.
  cbv zeta.
  destruct (write_failure_three_entries
              (wired noFiles
                 (Returns [ {| relativePath := "b.md"; absolutePath := "/docs/b.md";
                               fileContent := "![r](https://x/y.png)" |} ])
                 (Returns tt) (fun _ _ => Throws "EACCES: permission denied"))
              {| relativePath := "b.md"; absolutePath := "/docs/b.md";
                 fileContent := "![r](https://x/y.png)" |}
              (startState (setTotalFiles emptyResult 1))
              (convertMarkdownImages noFiles "![r](https://x/y.png)" "/docs/b.md")
              "EACCES: permission denied" eq_refl eq_refl)
    as (E & _ & F & _).
  split; [exact E | exact F].
Defined.

(** C1, as the code has it.  When the processing of a discovered file
    throws, the loop records [Failed to process file <relative path>:
    <message>] in the aggregate's errors and goes on with the next file.  A
    file whose rewrite throws adds nothing to the two image counters; a file
    whose write throws has added its counters before the write was
    attempted. *)
Theorem failed_file_recorded_run_continues
        (c : Collaborators) (file : IMarkdownFile)
        (rest : list IMarkdownFile) (ls : LoopState) (message : string) :
  snd (processMarkdownFile c file (world ls)) = Throws message ->
  let ls' := loopBody c ls file in
  let before := aggregate (world ls) in
  let after := aggregate (world ls') in
  In ("Failed to process file " ++ relativePath file ++ ": " ++ message)
     (r_errors after)
  /\ processFiles c (file :: rest) ls = processFiles c rest ls'
  /\ match rewriteImages c (fileContent file) (absolutePath file) with
     | Throws _ =>
         r_convertedImages after = r_convertedImages before
         /\ r_skippedImages after = r_skippedImages before
     | Returns conversionResult =>
         r_convertedImages after
         = r_convertedImages before + convertedImages conversionResult
         /\ r_skippedImages after
            = r_skippedImages before + skippedImages conversionResult
     end.
Proof.
  intros H. cbv zeta.
  split; [apply (loopBody_failure c ls file message H)|].
  split; [reflexivity|].
  revert H. unfold loopBody, processMarkdownFile.
  destruct (rewriteImages c _ _) as [cr|msg].
  - destruct (writeMarkdownFile c _ _) as [u|msg]; cbn [snd]; intros H;
      [discriminate|].
    cbn [world aggregate withAggregate pushError accumulate
         r_convertedImages r_skippedImages]. split; reflexivity.
  - intros _.
    cbn [world aggregate withAggregate pushError
         r_convertedImages r_skippedImages]. split; reflexivity.
Qed.

Lemma failed_file_recorded_run_continues_witness :
  let first := {| relativePath := "a.md"; absolutePath := "/docs/a.md";
                  fileContent := "![r](https://x/y.png)" |} in
  let second := {| relativePath := "b.md"; absolutePath := "/docs/b.md";
                   fileContent := "no image" |} in
  let c := wired noFiles (Returns [first; second]) (Returns tt)
                 (fun rel _ => if String.eqb rel "a.md"
                               then Throws "EACCES: permission denied"
                               else Returns tt) in
  let start := startState (setTotalFiles emptyResult 2) in
  snd (processMarkdownFile c first (world start))
  = Throws "EACCES: permission denied"
  /\ In "Failed to process file a.md: EACCES: permission denied"
        (r_errors (aggregate (world (loopBody c start first))))
  /\ processFiles c [first; second] start
     = processFiles c [second] (loopBody c start first)
  /\ outputTree (world (snd (convert c "/docs"))) = [("b.md", "no image")].
Proof.
  cbv zeta.
  set (first := {| relativePath := "a.md"; absolutePath := "/docs/a.md";
                   fileContent := "![r](https://x/y.png)" |}).
  set (second := {| relativePath := "b.md"; absolutePath := "/docs/b.md";
                    fileContent := "no image" |}).
  set (c := wired noFiles (Returns [first; second]) (Returns tt)
                  (fun rel _ => if String.eqb rel "a.md"
                                then Throws "EACCES: permission denied"
                                else Returns tt)).
  assert (H : snd (processMarkdownFile c first
                     (world (startState (setTotalFiles emptyResult 2))))
              = Throws "EACCES: permission denied") by reflexivity.
  destruct (failed_file_recorded_run_continues c first [second]
              (startState (setTotalFiles emptyResult 2))
              "EACCES: permission denied" H) as (H1 & H2 & _).
  split; [exact H|]. split; [exact H1|]. split; [exact H2 | reflexivity].
Defined.

(** C1, counterexample.  The only file of the run holds one reference that
    is converted and one that is skipped; its write throws; the file is
    counted as failed and both image counters of the aggregate are one. *)
Lemma failed_write_still_counted :
  let file := {| relativePath := "a.md"; absolutePath := "/docs/a.md";
                 fileContent := "![a](./a.png) ![r](https://x/y.png)" |} in
  let c := wired (oneFile "/docs/a.png" sampleBytes) (Returns [file]) (Returns tt)
                 (fun _ _ => Throws "EACCES: permission denied") in
  let ls := snd (convert c "/docs") in
  snd (processMarkdownFile c file emptyWorld) = Throws "EACCES: permission denied"
  /\ failedFiles ls = 1
  /\ processedFiles ls = 0
  /\ outputTree (world ls) = []
  /\ r_convertedImages (aggregate (world ls)) = 1
  /\ r_skippedImages (aggregate (world ls)) = 1.
Proof. vm_compute. repeat split. Qed.

(** C6.  Once the scan has returned files and the output directory is
    set up, [convert] leaves through its final [return]: the loop visits
    every file, and a file whose processing throws is recorded in the
    aggregate's errors, leaves the output tree as it was, is counted as
    failed, and is followed by the processing of the remaining files. *)
Theorem per_file_failure_never_aborts
        (c : Collaborators) (sourceDir : string) (files : list IMarkdownFile) :
  scanMarkdownFiles c = Returns files ->
  files <> [] ->
  createOutputDirectory c = Returns tt ->
  let start := startState (setTotalFiles emptyResult (List.length files)) in
  let final := snd (convert c sourceDir) in
  fst (convert c sourceDir) = ExitCompleted
  /\ final = processFiles c files start
  /\ processedFiles final + failedFiles final = List.length files
  /\ forall pre file post message,
       files = (pre ++ file :: post)%list ->
       let before := processFiles c pre start in
       let after := loopBody c before file in
       snd (processMarkdownFile c file (world before)) = Throws message ->
       In (fileFailedMsg (relativePath file) message)
          (r_errors (aggregate (world after)))
       /\ outputTree (world after) = outputTree (world before)
       /\ failedFiles after = S (failedFiles before)
       /\ final = processFiles c post after
       /\ In (fileFailedMsg (relativePath file) message)
             (r_errors (aggregate (world final))).
Proof.
  intros Hs Hne Hd. cbv zeta.
  assert (convert c sourceDir
          = (ExitCompleted,
             processFiles c files
               (startState (setTotalFiles emptyResult (List.length files))))) as E.
  { unfold convert. rewrite Hs, Hd. destruct files; [now elim Hne | reflexivity]. }
  rewrite E. cbn [fst snd].
  split; [reflexivity|]. split; [reflexivity|]. split.
  - rewrite processFiles_counters. reflexivity.
  - intros pre file post message -> H.
    destruct (loopBody_failure c _ file message H) as (H1 & H2 & H3 & _).
    assert (processFiles c (pre ++ file :: post)
              (startState
                 (setTotalFiles emptyResult (List.length (pre ++ file :: post))))
            = processFiles c post
                (loopBody c
                   (processFiles c pre
                      (startState
                         (setTotalFiles emptyResult
                            (List.length (pre ++ file :: post)))))
                   file)) as F.
    { now rewrite processFiles_app. }
    repeat split; try assumption.
    rewrite F. now apply processFiles_keeps_errors.
Qed.

Lemma per_file_failure_never_aborts_witness :
  let first := {| relativePath := "a.md"; absolutePath := "/docs/a.md";
                  fileContent := "![r](https://x/y.png)" |} in
  let second := {| relativePath := "b.md"; absolutePath := "/docs/b.md";
                   fileContent := "no image" |} in
  let c := wired noFiles (Returns [first; second]) (Returns tt)
                 (fun rel _ => if String.eqb rel "a.md"
                               then Throws "EACCES: permission denied"
                               else Returns tt) in
  fst (convert c "/docs") = ExitCompleted
  /\ processedFiles (snd (convert c "/docs"))
     + failedFiles (snd (convert c "/docs")) = 2
  /\ In "Failed to process file a.md: EACCES: permission denied"
        (r_errors (aggregate (world (snd (convert c "/docs"))))).
Proof.
  cbv zeta.
  set (first := {| relativePath := "a.md"; absolutePath := "/docs/a.md";
                   fileContent := "![r](https://x/y.png)" |}).
  set (second := {| relativePath := "b.md"; absolutePath := "/docs/b.md";
                    fileContent := "no image" |}).
  set (c := wired noFiles (Returns [first; second]) (Returns tt)
                  (fun rel _ => if String.eqb rel "a.md"
                                then Throws "EACCES: permission denied"
                                else Returns tt)).
  assert (Hne : [first; second] <> []) by discriminate.
  destruct (per_file_failure_never_aborts c "/docs" [first; second]
              eq_refl Hne eq_refl) as (H1 & _ & H3 & H4).
  split; [exact H1|]. split; [exact H3|].
  exact (proj2 (proj2 (proj2 (proj2
    (H4 [] first [second] "EACCES: permission denied" eq_refl eq_refl))))).
Defined.

(* ================================================================== *)
(** * Further properties of the rewriter *)

Section RewriterMore.

Variable codec : string -> Completion ImageConversionResult.
Variable env : Env.
Variable markdownDir : string.

Let step := processImageMatch codec env markdownDir.

(** An iteration changes the text only when it counts a conversion. *)
Lemma step_converted (st : RewriteState) (m : ImageMatch) :
  rw_converted st <= rw_converted (step st m)
  /\ (rw_converted (step st m) = rw_converted st ->
      updatedContent (step st m) = updatedContent st).
Proof.
  unfold step, processImageMatch. step_cases;
    cbn [skipWithWarning skipWithError substitute rw_converted updatedContent];
    split; try lia; try reflexivity; intros H; lia.
Qed.

Lemma loop_converted (ms : list ImageMatch) :
  forall st,
    rw_converted st <= rw_converted (fold_left step ms st)
    /\ (rw_converted (fold_left step ms st) = rw_converted st ->
        updatedContent (fold_left step ms st) = updatedContent st).
Proof.
  induction ms as [|m ms IH]; intros st; cbn [fold_left].
  - split; [lia | reflexivity].
  - destruct (IH (step st m)) as [L E]. destruct (step_converted st m) as [L' E'].
    split; [lia|]. intros H. rewrite E by lia. apply E'. lia.
Qed.

(** What an iteration leaves for a reference that is not converted. *)
Lemma step_unsupported (st : RewriteState) (m : ImageMatch) :
  isRemoteImage (imagePath m) = false ->
  isSupportedImageFormat (imagePath m) = false ->
  step st m
  = skipWithWarning st ("Skipped unsupported image format: " ++ imagePath m).
Proof. intros R U. unfold step, processImageMatch. now rewrite R, U. Qed.

Lemma step_missing_file (st : RewriteState) (m : ImageMatch) :
  isRemoteImage (imagePath m) = false ->
  isSupportedImageFormat (imagePath m) = true ->
  fileExists env (resolveImagePath env markdownDir (imagePath m)) = false ->
  processImageMatch (moduleCodec env) env markdownDir st m
  = skipWithWarning st
      ("Failed to convert image: " ++ imagePath m
       ++ " - Image file not found or not readable: "
       ++ resolveImagePath env markdownDir (imagePath m)).
Proof.
  intros R S E. unfold processImageMatch, moduleCodec, convertImageToBase64.
  now rewrite R, S, E.
Qed.

Lemma loop_warned (ms : list ImageMatch) (w : string) :
  forall st m,
    In m ms ->
    (forall st0, In w (rw_warnings (step st0 m))) ->
    In w (rw_warnings (fold_left step ms st)).
Proof.
  induction ms as [|x ms IH]; intros st m Hin Hw; [contradiction|].
  cbn [fold_left]. destruct Hin as [-> | Hin].
  - apply loop_counts. apply Hw.
  - now apply (IH _ m).
Qed.

End RewriterMore.

(** X1.  A rewrite that converts no image returns the text it was given:
    the text differs only when at least one image was converted. *)
Theorem unconverted_text_is_returned
        (codec : string -> Completion ImageConversionResult) (env : Env)
        (text markdownFilePath : string) :
  convertedImages (convertMarkdownImagesWith codec env text markdownFilePath) = 0 ->
  content (convertMarkdownImagesWith codec env text markdownFilePath) = text.
Proof.
  unfold convertMarkdownImagesWith, finishRewrite. cbn [convertedImages content].
  intros H.
  destruct (loop_converted codec env (NodePath.dirname markdownFilePath)
              (execAll text) (initialRewriteState text)) as [_ E].
  apply E. exact H.
Qed.

Lemma unconverted_text_is_returned_witness :
  content (convertMarkdownImages noFiles "see ![a](./a.png) and ![d](./d.pdf)"
             "/docs/t.md")
  = "see ![a](./a.png) and ![d](./d.pdf)".
Proof.
  exact (unconverted_text_is_returned (moduleCodec noFiles) noFiles
           "see ![a](./a.png) and ![d](./d.pdf)" "/docs/t.md" eq_refl).
Defined.

(** X2.  Every reference the rewriter does not convert for want of a
    supported format or of a readable file leaves its own warning in the
    result of the document, whatever the other references are. *)
Theorem skipped_reference_is_warned
        (env : Env) (text markdownFilePath : string) (m : ImageMatch) :
  In m (execAll text) ->
  isRemoteImage (imagePath m) = false ->
  let r := convertMarkdownImages env text markdownFilePath in
  let absoluteImagePath :=
    resolveImagePath env (NodePath.dirname markdownFilePath) (imagePath m) in
  (isSupportedImageFormat (imagePath m) = false ->
   In ("Skipped unsupported image format: " ++ imagePath m) (warnings r))
  /\ (isSupportedImageFormat (imagePath m) = true ->
      fileExists env absoluteImagePath = false ->
      In ("Failed to convert image: " ++ imagePath m
          ++ " - Image file not found or not readable: " ++ absoluteImagePath)
         (warnings r)).
Proof.
  intros Hin R. cbv zeta.
  unfold convertMarkdownImages, convertMarkdownImagesWith, finishRewrite.
  cbn [warnings]. split.
  - intros U. apply (loop_warned _ _ _ _ _ _ m Hin). intros st0.
    rewrite step_unsupported by assumption.
    cbn [skipWithWarning rw_warnings]. apply in_app_iff. right. now left.
  - intros S E. apply (loop_warned _ _ _ _ _ _ m Hin). intros st0.
    pose proof (step_missing_file env (NodePath.dirname markdownFilePath)
                  st0 m R S E) as H.
    unfold moduleCodec in H. rewrite H.
    cbn [skipWithWarning rw_warnings]. apply in_app_iff. right. now left.
Qed.

Lemma skipped_reference_is_warned_witness :
  let text := "![a](./a.png) ![d](./d.pdf) ![m](./m.gif)" in
  let r := convertMarkdownImages (oneFile "/docs/a.png" sampleBytes) text
             "/docs/t.md" in
  convertedImages r = 1
  /\ In "Skipped unsupported image format: ./d.pdf" (warnings r)
  /\ In "Failed to convert image: ./m.gif - Image file not found or not readable: /docs/m.gif"
        (warnings r).
Proof.
  cbv zeta. split; [reflexivity|]. split.
  - exact (proj1 (skipped_reference_is_warned
             (oneFile "/docs/a.png" sampleBytes)
             "![a](./a.png) ![d](./d.pdf) ![m](./m.gif)" "/docs/t.md"
             {| originalMarkdown := "![d](./d.pdf)"; altText := "d";
                imagePath := "./d.pdf" |}
             (or_intror (or_introl eq_refl)) eq_refl) eq_refl).
  - exact (proj2 (skipped_reference_is_warned
             (oneFile "/docs/a.png" sampleBytes)
             "![a](./a.png) ![d](./d.pdf) ![m](./m.gif)" "/docs/t.md"
             {| originalMarkdown := "![m](./m.gif)"; altText := "m";
                imagePath := "./m.gif" |}
             (or_intror (or_intror (or_introl eq_refl))) eq_refl)
             eq_refl eq_refl).
Defined.

(* ================================================================== *)
(** * The matcher of image references *)

Lemma spanUntil_split (stop : ascii) :
  forall s before after,
    spanUntil stop s = Some (before, after) ->
    s = before ++ String stop after
    /\ JsString.includesChar stop before = false.
Proof.
  induction s as [|c s IH]; intros before after H; cbn [spanUntil] in H;
    [discriminate|].
  destruct (Ascii.eqb_spec c stop) as [->|ne].
  - injection H as <- <-. split; reflexivity.
  - destruct (spanUntil stop s) as [[b a]|]; [|discriminate].
    injection H as <- <-. destruct (IH b a eq_refl) as [-> E].
    split; [reflexivity|]. cbn [JsString.includesChar].
    rewrite E. now apply Ascii.eqb_neq in ne as ->.
Qed.

Lemma spanUntil_found (stop : ascii) (before after : string) :
  JsString.includesChar stop before = false ->
  spanUntil stop (before ++ String stop after) = Some (before, after).
Proof.
  induction before as [|c b IH]; intros H; cbn [append spanUntil].
  - now rewrite Ascii.eqb_refl.
  - cbn [JsString.includesChar] in H. apply orb_false_elim in H.
    destruct H as [Hc Hb]. now rewrite Hc, (IH Hb).
Qed.

(** The text an image reference is written as. *)
Lemma matchImageAt_shape (s : string) (m : ImageMatch) :
  matchImageAt s = Some m ->
  originalMarkdown m = "![" ++ altText m ++ "](" ++ imagePath m ++ ")"
  /\ JsString.includesChar "]" (altText m) = false
  /\ JsString.includesChar ")" (imagePath m) = false
  /\ imagePath m <> ""
  /\ exists rest, s = originalMarkdown m ++ rest.
Proof.
  unfold matchImageAt.
  destruct s as [|c0 [|c1 t]]; try discriminate;
    try (destruct c0 as [[] [] [] [] [] [] [] []]; discriminate).
  destruct (Ascii.eqb_spec c0 "!") as [->|n0];
    [|destruct c0 as [[] [] [] [] [] [] [] []]; try discriminate; now elim n0].
  destruct (Ascii.eqb_spec c1 "[") as [->|n1];
    [|destruct c1 as [[] [] [] [] [] [] [] []]; try discriminate; now elim n1].
  destruct (spanUntil "]" t) as [[alt u]|] eqn:A; [|discriminate].
  destruct (spanUntil_split _ _ _ _ A) as [-> Ha].
  destruct u as [|c2 u]; [discriminate|].
  destruct (Ascii.eqb_spec c2 "(") as [->|n2];
    [|destruct c2 as [[] [] [] [] [] [] [] []]; try discriminate; now elim n2].
  destruct (spanUntil ")" u) as [[path rest]|] eqn:P; [|discriminate].
  destruct (spanUntil_split _ _ _ _ P) as [-> Hp].
  destruct path as [|p0 path]; [discriminate|].
  intros H. injection H as <-. cbn [originalMarkdown altText imagePath].
  repeat split; try assumption; try discriminate.
  exists rest. cbn [append]. do 2 f_equal.
  rewrite !append_assoc. cbn [append]. do 2 f_equal.
  f_equal. now rewrite !append_assoc.
Qed.

Lemma matchImageAt_found (alt path rest : string) :
  JsString.includesChar "]" alt = false ->
  JsString.includesChar ")" path = false ->
  path <> "" ->
  matchImageAt (("![" ++ alt ++ "](" ++ path ++ ")") ++ rest)
  = Some {| originalMarkdown := "![" ++ alt ++ "](" ++ path ++ ")";
            altText := alt; imagePath := path |}.
Proof.
  intros Ha Hp Hne. cbn [append matchImageAt].
  rewrite append_assoc. cbn [append].
  rewrite (spanUntil_found "]" alt _ Ha).
  rewrite append_assoc. cbn [append].
  rewrite (spanUntil_found ")" path _ Hp).
  destruct path; [now elim Hne | reflexivity].
Qed.

Lemma matchImageAt_other (c : ascii) (s : string) :
  Ascii.eqb c "!" = false -> matchImageAt (String c s) = None.
Proof.
  intros H. unfold matchImageAt.
  destruct c as [[] [] [] [] [] [] [] []]; try reflexivity. discriminate H.
Qed.

(** The matcher passes over the characters a match covers. *)
Lemma execAllFrom_skip (a : string) :
  forall b k,
    execAllFrom (a ++ b) (String.length a + k) = execAllFrom b k.
Proof.
  induction a as [|c a IH]; intros b k; [reflexivity|].
  cbn [append String.length Nat.add execAllFrom]. apply IH.
Qed.

Lemma execAllFrom_plain (a : string) :
  forall b,
    JsString.includesChar "!" a = false ->
    execAllFrom (a ++ b) 0 = execAllFrom b 0.
Proof.
  induction a as [|c a IH]; intros b H; [reflexivity|].
  cbn [JsString.includesChar] in H. apply orb_false_elim in H.
  destruct H as [Hc Ha].
  cbn [append execAllFrom]. rewrite (matchImageAt_other c _ Hc). now apply IH.
Qed.

Lemma execAllFrom_sound :
  forall s k m,
    In m (execAllFrom s k) ->
    exists before after,
      s = before ++ originalMarkdown m ++ after
      /\ matchImageAt (originalMarkdown m ++ after) = Some m.
Proof.
  induction s as [|c s IH]; intros k m H; [contradiction|].
  cbn [execAllFrom] in H. destruct k as [|k].
  - destruct (matchImageAt (String c s)) as [x|] eqn:M.
    + destruct H as [<- | H].
      * destruct (matchImageAt_shape _ _ M) as (_ & _ & _ & _ & rest & E).
        exists "", rest. split; [exact E|]. now rewrite <- E.
      * destruct (IH _ _ H) as (b & a & -> & Hm). now exists (String c b), a.
    + destruct (IH _ _ H) as (b & a & -> & Hm). now exists (String c b), a.
  - destruct (IH _ _ H) as (b & a & -> & Hm). now exists (String c b), a.
Qed.

(** X3.  Every reference the matcher returns is written in the text as
    [![<alt>](<path>)], with an alternative text free of closing brackets
    and a non-empty path free of closing parentheses. *)
Theorem matches_are_image_syntax (text : string) (m : ImageMatch) :
  In m (execAll text) ->
  originalMarkdown m = "![" ++ altText m ++ "](" ++ imagePath m ++ ")"
  /\ JsString.includesChar "]" (altText m) = false
  /\ JsString.includesChar ")" (imagePath m) = false
  /\ imagePath m <> ""
  /\ exists before after, text = before ++ originalMarkdown m ++ after.
Proof.
  intros H. destruct (execAllFrom_sound _ _ _ H) as (b & a & E & M).
  destruct (matchImageAt_shape _ _ M) as (S1 & S2 & S3 & S4 & _).
  repeat split; try assumption. now exists b, a.
Qed.

Lemma matches_are_image_syntax_witness :
  let m := {| originalMarkdown := "![d](e ![f](g)"; altText := "d";
              imagePath := "e ![f](g" |} in
  In m (execAll "x ![c]() ![d](e ![f](g) y")
  /\ exists before after,
       "x ![c]() ![d](e ![f](g) y" = before ++ originalMarkdown m ++ after.
Proof.
  cbv zeta.
  assert (H : In {| originalMarkdown := "![d](e ![f](g)"; altText := "d";
                    imagePath := "e ![f](g" |}
                 (execAll "x ![c]() ![d](e ![f](g) y")) by (now left).
  split; [exact H|].
  exact (proj2 (proj2 (proj2 (proj2
    (matches_are_image_syntax "x ![c]() ![d](e ![f](g) y" _ H))))).
Defined.

(** X4.  An image reference written after a text free of exclamation marks
    is the first reference the matcher returns, and the matching goes on
    behind it: the references of the whole text are that reference followed
    by the references of the rest. *)
Theorem written_reference_is_found (before alt path after : string) :
  JsString.includesChar "!" before = false ->
  JsString.includesChar "]" alt = false ->
  JsString.includesChar ")" path = false ->
  path <> "" ->
  execAll (before ++ ("![" ++ alt ++ "](" ++ path ++ ")") ++ after)
  = {| originalMarkdown := "![" ++ alt ++ "](" ++ path ++ ")";
       altText := alt; imagePath := path |}
    :: execAll after.
Proof.
  intros Hb Ha Hp Hne. unfold execAll.
  rewrite (execAllFrom_plain before _ Hb).
  pose proof (matchImageAt_found alt path after Ha Hp Hne) as M.
  set (snippet := "![" ++ alt ++ "](" ++ path ++ ")") in *.
  assert (exists tl, snippet = String "!" tl) as [tl E] by (now eexists).
  rewrite E in M |- *. cbn [append execAllFrom]. cbn [append] in M. rewrite M.
  cbn [originalMarkdown]. f_equal.
  replace (String.length (String "!" tl) - 1) with (String.length tl + 0)
    by (cbn [String.length]; lia).
  apply execAllFrom_skip.
Qed.

Lemma written_reference_is_found_witness :
  execAll ("see " ++ ("![" ++ "logo" ++ "](" ++ "./logo.png" ++ ")") ++ " here")
  = [ {| originalMarkdown := "![logo](./logo.png)"; altText := "logo";
         imagePath := "./logo.png" |} ].
Proof.
  exact (written_reference_is_found "see " "logo" "./logo.png" " here"
           eq_refl eq_refl eq_refl ltac:(discriminate)).
Defined.

(** X5.  A text without exclamation mark holds no image reference, and the
    rewriter returns it as it is, with both counters at zero and without
    any diagnostic. *)
Theorem text_without_reference_unchanged
        (codec : string -> Completion ImageConversionResult) (env : Env)
        (text markdownFilePath : string) :
  JsString.includesChar "!" text = false ->
  execAll text = []
  /\ convertMarkdownImagesWith codec env text markdownFilePath
     = {| content := text; convertedImages := 0; skippedImages := 0;
          warnings := []; errors := [] |}.
Proof.
  intros H.
  assert (execAll text = []) as E.
  { unfold execAll. rewrite <- (append_nil_r text).
    now rewrite (execAllFrom_plain text "" H). }
  split; [exact E|]. unfold convertMarkdownImagesWith. now rewrite E.
Qed.

Lemma text_without_reference_unchanged_witness :
  convertMarkdownImages noFiles "# Title\n\n[link](./a.png) and text" "/docs/t.md"
  = {| content := "# Title\n\n[link](./a.png) and text"; convertedImages := 0;
       skippedImages := 0; warnings := []; errors := [] |}.
Proof.
  exact (proj2 (text_without_reference_unchanged (moduleCodec noFiles) noFiles
                  "# Title\n\n[link](./a.png) and text" "/docs/t.md" eq_refl)).
Defined.

(* ================================================================== *)
(** * Further properties of the codec *)

Lemma table_values_truthy (key mime : string) :
  lookup key MIME_TYPES = Some mime -> JsString.truthy mime = true.
Proof.
  intros H. apply lookup_In in H. vm_compute in H.
  repeat (destruct H as [H|H]; [injection H as <- <-; reflexivity|]).
  contradiction.
Qed.

(** X6.  The codec succeeds exactly when the file is readable, its
    extension is in the table and the read returns; a success carries the
    data URI of the bytes read and no error, a failure carries an error
    message and no data URI. *)
Theorem codec_result_wellformed (env : Env) (p : string) :
  let r := convertImageToBase64 env p in
  (success r = true <->
   fileExists env p = true /\ isImageFile p = true
   /\ exists imageBuffer, fs_readFile env p = Returns imageBuffer)
  /\ (success r = true ->
      error r = None
      /\ exists mime imageBuffer,
           getImageMimeType p = Some mime
           /\ fs_readFile env p = Returns imageBuffer
           /\ dataUri r = Some (generateDataUri imageBuffer mime))
  /\ (success r = false ->
      dataUri r = None /\ exists msg, error r = Some msg).
Proof.
  cbv zeta.
  unfold convertImageToBase64, generateDataUriFromPath, getImageMimeType,
    isImageFile.
  destruct (fileExists env p); cbn [negb].
  2:{ cbn. repeat split; try discriminate; try (now eexists).
      intros (H & _). discriminate. }
  destruct (lookup _ MIME_TYPES) as [mime|] eqn:L; cbn [negb].
  2:{ cbn. repeat split; try discriminate; try (now eexists).
      intros (_ & H & _). discriminate. }
  rewrite (table_values_truthy _ _ L).
  destruct (fs_readFile env p) as [buf|msg].
  2:{ cbn. repeat split; try discriminate; try (now eexists).
      intros (_ & _ & b & H). discriminate. }
  assert (JsString.truthy (generateDataUri buf mime) = true) as T by reflexivity.
  rewrite T. cbn [success dataUri error].
  repeat split; try discriminate; try (now eexists).
  now exists mime, buf.
Qed.

Lemma encode_chars_length (n : nat) :
  forall buf, List.length buf <= n ->
              List.length (Base64.encode_chars buf)
              = 4 * ((List.length buf + 2) / 3).
Proof.
  induction n as [|n IH]; intros buf Hlen.
  - destruct buf; [reflexivity | simpl in Hlen; lia].
  - destruct buf as [|b0 [|b1 [|b2 rest]]]; cbn [Base64.encode_chars].
    + reflexivity.
    + destruct (Base64.group3 _ _ _) as [[[s0 s1] s2] s3]. reflexivity.
    + destruct (Base64.group3 _ _ _) as [[[s0 s1] s2] s3]. reflexivity.
    + destruct (Base64.group3 _ _ _) as [[[s0 s1] s2] s3].
      cbn [List.length]. rewrite IH by (simpl in Hlen; lia).
      replace (S (S (S (List.length rest))) + 2)
        with (1 * 3 + (List.length rest + 2)) by lia.
      rewrite Nat.div_add_l by discriminate. lia.
Qed.

Lemma length_of_list (l : list ascii) :
  String.length (string_of_list_ascii l) = List.length l.
Proof. induction l as [|c l IH]; cbn; congruence. Qed.

Lemma length_append (a b : string) :
  String.length (a ++ b) = String.length a + String.length b.
Proof. induction a as [|c a IH]; cbn; congruence. Qed.

(** X7.  The data URI of a buffer of [n] bytes is made of the 13
    characters of [data:] and [;base64,], the MIME type, and four
    characters for every group of three bytes, the last group padded; an
    empty buffer gives the URI with an empty payload. *)
Theorem dataUri_length (imageBuffer : list byte) (mimeType : string) :
  String.length (generateDataUri imageBuffer mimeType)
  = 13 + String.length mimeType + 4 * ((List.length imageBuffer + 2) / 3)
  /\ generateDataUri [] mimeType = "data:" ++ mimeType ++ ";base64,".
Proof.
  split.
  - unfold generateDataUri, Base64.encode.
    rewrite !length_append, length_of_list.
    rewrite (encode_chars_length (List.length imageBuffer)) by lia.
    cbn [String.length]. lia.
  - reflexivity.
Qed.

(** X8.  Different buffers have different data URIs. *)
Theorem dataUri_injective (buffer1 buffer2 : list byte) (mimeType : string) :
  buffer1 <> buffer2 ->
  generateDataUri buffer1 mimeType <> generateDataUri buffer2 mimeType.
Proof.
  unfold generateDataUri. intros Hne H. apply Hne.
  do 3 apply append_cancel_l in H.
  pose proof (Base64Facts.decode_encode buffer1) as D1.
  rewrite H, Base64Facts.decode_encode in D1. now injection D1.
Qed.

Lemma dataUri_injective_witness :
  generateDataUri [x4d; x61]%byte "image/png"
  <> generateDataUri [x4d; x61; x00]%byte "image/png".
Proof.
  exact (dataUri_injective [x4d; x61]%byte [x4d; x61; x00]%byte "image/png"
           ltac:(discriminate)).
Defined.

(** X9.  The three tests of the codec on a path agree: the path is an
    image file exactly when it has a MIME type, and exactly then a data URI
    is built from the path, for any buffer. *)
Theorem codec_tests_agree (filePath : string) (imageBuffer : list byte) :
  (isImageFile filePath = true <-> exists mime, getImageMimeType filePath = Some mime)
  /\ (isImageFile filePath = true <->
      exists uri, generateDataUriFromPath imageBuffer filePath = Some uri)
  /\ (isImageFile filePath = true <->
      In (JsString.toLowerCase (NodePath.extname filePath))
         SUPPORTED_IMAGE_EXTENSIONS).
Proof.
  unfold generateDataUriFromPath, getImageMimeType, isImageFile.
  destruct (lookup _ MIME_TYPES) as [mime|] eqn:L.
  - rewrite (table_values_truthy _ _ L).
    repeat split; try (now eexists).
    intros _. apply lookup_In in L.
    unfold SUPPORTED_IMAGE_EXTENSIONS.
    now apply (in_map fst) in L.
  - repeat split; try discriminate; try (intros [x H]; discriminate).
    intros H. exfalso. unfold SUPPORTED_IMAGE_EXTENSIONS, MIME_TYPES in H.
    cbn [map fst In] in H.
    repeat (destruct H as [H|H];
            [rewrite <- H in L; vm_compute in L; discriminate L|]).
    exact H.
Qed.

(* ================================================================== *)
(** * Path cleaning and format classification *)

Lemma splitHead_no_sep (sep : ascii) (s : string) :
  JsString.includesChar sep (JsString.splitHead sep s) = false.
Proof.
  induction s as [|c s IH]; [reflexivity|]. cbn [JsString.splitHead].
  destruct (Ascii.eqb c sep) eqn:E; [reflexivity|].
  cbn [JsString.includesChar]. now rewrite E, IH.
Qed.

Lemma splitHead_keeps_absent (sep c : ascii) (s : string) :
  JsString.includesChar c s = false ->
  JsString.includesChar c (JsString.splitHead sep s) = false.
Proof.
  induction s as [|x s IH]; [reflexivity|]. cbn [JsString.includesChar].
  intros H. apply orb_false_elim in H. destruct H as [Hx Hs].
  cbn [JsString.splitHead]. destruct (Ascii.eqb x sep); [reflexivity|].
  cbn [JsString.includesChar]. now rewrite Hx, IH.
Qed.

Lemma splitHead_absent (sep : ascii) (s : string) :
  JsString.includesChar sep s = false -> JsString.splitHead sep s = s.
Proof.
  induction s as [|x s IH]; [reflexivity|]. cbn [JsString.includesChar].
  intros H. apply orb_false_elim in H. destruct H as [Hx Hs].
  cbn [JsString.splitHead]. now rewrite Hx, IH.
Qed.

Lemma splitHead_prefix (sep : ascii) (s : string) :
  exists rest, s = JsString.splitHead sep s ++ rest.
Proof.
  induction s as [|x s [rest IH]]; [now exists ""|].
  cbn [JsString.splitHead]. destruct (Ascii.eqb x sep).
  - now exists (String x s).
  - exists rest. cbn [append]. now rewrite <- IH.
Qed.

Lemma cleanImagePath_idempotent (imagePath : string) :
  cleanImagePath (cleanImagePath imagePath) = cleanImagePath imagePath.
Proof.
  unfold cleanImagePath.
  assert (Q : JsString.includesChar "?"
                (JsString.splitHead "#" (JsString.splitHead "?" imagePath))
              = false).
  { apply splitHead_keeps_absent, splitHead_no_sep. }
  rewrite (splitHead_absent "?" _ Q). apply splitHead_absent, splitHead_no_sep.
Qed.

(** X10.  The cleaned path is the beginning of the path up to its first
    [?] or [#], holds neither character, and is the path itself when the
    path holds neither; cleaning a cleaned path changes nothing. *)
Theorem cleanImagePath_spec (imagePath : string) :
  (exists suffix, imagePath = cleanImagePath imagePath ++ suffix)
  /\ JsString.includesChar "?" (cleanImagePath imagePath) = false
  /\ JsString.includesChar "#" (cleanImagePath imagePath) = false
  /\ (JsString.includesChar "?" imagePath = false ->
      JsString.includesChar "#" imagePath = false ->
      cleanImagePath imagePath = imagePath)
  /\ cleanImagePath (cleanImagePath imagePath) = cleanImagePath imagePath.
Proof.
  unfold cleanImagePath.
  assert (Q : JsString.includesChar "?"
                (JsString.splitHead "#" (JsString.splitHead "?" imagePath))
              = false).
  { apply splitHead_keeps_absent, splitHead_no_sep. }
  assert (H : JsString.includesChar "#"
                (JsString.splitHead "#" (JsString.splitHead "?" imagePath))
              = false) by apply splitHead_no_sep.
  split; [|split; [exact Q | split; [exact H | split]]].
  - destruct (splitHead_prefix "?" imagePath) as [r1 E1].
    destruct (splitHead_prefix "#" (JsString.splitHead "?" imagePath)) as [r2 E2].
    exists (r2 ++ r1). rewrite <- append_assoc, <- E2. exact E1.
  - intros Hq Hh. rewrite (splitHead_absent "?" _ Hq). now apply splitHead_absent.
  - apply cleanImagePath_idempotent.
Qed.

Lemma lower_char_keeps (sep c : ascii) :
  sep = "?"%char \/ sep = "#"%char ->
  Ascii.eqb (JsString.lower_char c) sep = Ascii.eqb c sep.
Proof.
  intros [-> | ->]; destruct c as [[] [] [] [] [] [] [] []]; reflexivity.
Qed.

Lemma lower_char_idempotent (c : ascii) :
  JsString.lower_char (JsString.lower_char c) = JsString.lower_char c.
Proof. destruct c as [[] [] [] [] [] [] [] []]; reflexivity. Qed.

Lemma toLowerCase_idempotent (s : string) :
  JsString.toLowerCase (JsString.toLowerCase s) = JsString.toLowerCase s.
Proof.
  induction s as [|rest IH|c s N IH] using toLowerCase_ind.
  - reflexivity.
  - rewrite toLowerCase_kelvin, toLowerCase_plain
      by (intros r [E _]; discriminate E).
    now rewrite IH.
  - rewrite (toLowerCase_plain c s N), toLowerCase_plain.
    + now rewrite lower_char_idempotent, IH.
    + intros r [Hc E]. apply lower_char_keeps_byte in Hc; [|tauto].
      destruct (toLowerCase_head2 _ _ E) as [r' E']. now apply (N r').
Qed.

Lemma splitHead_head2 (sep a b : ascii) (s r : string) :
  JsString.splitHead sep s = String a (String b r) ->
  exists r', s = String a (String b r').
Proof.
  destruct s as [|c s]; [discriminate|]. cbn [JsString.splitHead].
  destruct (Ascii.eqb c sep); [discriminate|]. intros H. injection H as -> H.
  destruct s as [|c s]; [discriminate|]. cbn [JsString.splitHead] in H.
  destruct (Ascii.eqb c sep); [discriminate|]. injection H as -> _.
  now exists s.
Qed.

Lemma splitHead_toLowerCase (sep : ascii) (s : string) :
  sep = "?"%char \/ sep = "#"%char ->
  JsString.splitHead sep (JsString.toLowerCase s)
  = JsString.toLowerCase (JsString.splitHead sep s).
Proof.
  intros Hs. induction s as [|rest IH|c s N IH] using toLowerCase_ind.
  - reflexivity.
  - rewrite toLowerCase_kelvin.
    destruct Hs as [-> | ->]; cbn [JsString.splitHead Ascii.eqb Bool.eqb];
      rewrite toLowerCase_kelvin, IH by (now left || now right); reflexivity.
  - rewrite (toLowerCase_plain c s N). cbn [JsString.splitHead].
    rewrite (lower_char_keeps sep c Hs).
    destruct (Ascii.eqb c sep); [reflexivity|].
    rewrite IH. symmetry. apply toLowerCase_plain.
    intros r [-> E]. destruct (splitHead_head2 _ _ _ _ _ E) as [r' E'].
    now apply (N r').
Qed.

(** X11.  The format test of the rewriter looks at the cleaned path only
    and ignores the letter case: a path, its cleaned form and its lower-case
    form are classified alike. *)
Theorem format_test_ignores_suffix_and_case (imagePath : string) :
  isSupportedImageFormat (cleanImagePath imagePath) = isSupportedImageFormat imagePath
  /\ isSupportedImageFormat (JsString.toLowerCase imagePath)
     = isSupportedImageFormat imagePath.
Proof.
  unfold isSupportedImageFormat. split.
  - now rewrite cleanImagePath_idempotent.
  - unfold cleanImagePath.
    rewrite (splitHead_toLowerCase "?") by (now left).
    rewrite (splitHead_toLowerCase "#") by (now right).
    now rewrite toLowerCase_idempotent.
Qed.

(* ================================================================== *)
(** * The extractor and the rewriter wired to the codec *)

Lemma filter_split_length {A : Type} (f : A -> bool) (l : list A) :
  List.length (filter f l) + List.length (filter (fun x => negb (f x)) l)
  = List.length l.
Proof.
  induction l as [|x l IH]; [reflexivity|]. cbn [filter].
  destruct (f x); cbn [negb List.length]; lia.
Qed.


Section WiredRewriter.

Variable env : Env.
Variable markdownDir : string.

Let step := processImageMatch (moduleCodec env) env markdownDir.

(** Whether the reference passes the three tests before a substitution. *)
Let passes (m : ImageMatch) : bool :=
  negb (isRemoteImage (imagePath m))
  && isSupportedImageFormat (imagePath m)
  && success (convertImageToBase64 env
                (resolveImagePath env markdownDir (imagePath m))).

Lemma wired_step (st : RewriteState) (m : ImageMatch) :
  rw_errors (step st m) = rw_errors st
  /\ rw_converted (step st m)
     = rw_converted st + (if passes m then 1 else 0).
Proof.
  unfold step, passes, processImageMatch, moduleCodec.
  destruct (isRemoteImage (imagePath m)); cbn [negb andb];
    [split; [reflexivity | cbn; lia]|].
  destruct (isSupportedImageFormat (imagePath m)); cbn [negb andb];
    [|split; [reflexivity | cbn; lia]].
  destruct (success (convertImageToBase64 env _)) eqn:S.
  - destruct (convertImageToBase64_success env _ S) as (e & mime & buf & _ & _ & E).
    rewrite E. cbn [success dataUri].
    assert (JsString.truthy (generateDataUri buf mime) = true) as T
        by reflexivity.
    rewrite T. cbn. split; [reflexivity | lia].
  - cbn [skipWithWarning rw_errors rw_converted]. split; [reflexivity | lia].
Qed.

Lemma wired_loop (ms : list ImageMatch) :
  forall st,
    rw_errors (fold_left step ms st) = rw_errors st
    /\ rw_converted (fold_left step ms st)
       = rw_converted st + List.length (filter passes ms).
Proof.
  induction ms as [|m ms IH]; intros st; cbn [fold_left filter].
  - cbn. split; [reflexivity | lia].
  - destruct (IH (step st m)) as [E C]. destruct (wired_step st m) as [E' C'].
    split; [congruence|]. rewrite C, C'.
    destruct (passes m); cbn [List.length]; lia.
Qed.

(** The warning an iteration leaves, if any. *)
Let warningOf (m : ImageMatch) : list string :=
  if isRemoteImage (imagePath m) then
    [("Skipped remote image: " ++ imagePath m)%string]
  else if negb (isSupportedImageFormat (imagePath m)) then
    [("Skipped unsupported image format: " ++ imagePath m)%string]
  else
    let conversionResult :=
      convertImageToBase64 env (resolveImagePath env markdownDir (imagePath m)) in
    if success conversionResult then []
    else [("Failed to convert image: " ++ imagePath m ++ " - "
           ++ showError (error conversionResult))%string].

Lemma wired_step_warnings (st : RewriteState) (m : ImageMatch) :
  rw_warnings (step st m) = (rw_warnings st ++ warningOf m)%list.
Proof.
  unfold step, warningOf, processImageMatch, moduleCodec.
  destruct (isRemoteImage (imagePath m)); [reflexivity|].
  destruct (isSupportedImageFormat (imagePath m)); cbn [negb]; [|reflexivity].
  destruct (success (convertImageToBase64 env _)) eqn:S; [|reflexivity].
  destruct (convertImageToBase64_success env _ S) as (e & mime & buf & _ & _ & E).
  rewrite E. cbn [success dataUri].
  assert (JsString.truthy (generateDataUri buf mime) = true) as T by reflexivity.
  rewrite T. cbn [substitute rw_warnings]. now rewrite app_nil_r.
Qed.

Lemma wired_loop_warnings (ms : list ImageMatch) :
  forall st,
    rw_warnings (fold_left step ms st)
    = (rw_warnings st ++ flat_map warningOf ms)%list.
Proof.
  induction ms as [|m ms IH]; intros st; cbn [fold_left flat_map].
  - now rewrite app_nil_r.
  - now rewrite IH, wired_step_warnings, <- app_assoc.
Qed.

End WiredRewriter.

(** X13.  Wired to the codec of the module, the rewriter counts as
    converted the references that are not remote, have a supported format
    and whose file the codec encodes, and as skipped all the others.  It
    reports no error, and its warnings are, in the order of the
    references, one for each reference skipped: that of a remote image,
    that of an unsupported format, or that of a failed conversion with the
    reason the codec gives.  The counters count references; where in the
    text a substitution lands is another matter. *)
Theorem counters_count_encoded_references
        (env : Env) (text markdownFilePath : string) :
  let r := convertMarkdownImages env text markdownFilePath in
  let encoding (m : ImageMatch) :=
    convertImageToBase64 env
      (resolveImagePath env (NodePath.dirname markdownFilePath) (imagePath m)) in
  let encoded (m : ImageMatch) :=
    negb (isRemoteImage (imagePath m))
    && isSupportedImageFormat (imagePath m)
    && success (encoding m) in
  convertedImages r = List.length (filter encoded (execAll text))
  /\ skippedImages r
     = List.length (filter (fun m => negb (encoded m)) (execAll text))
  /\ errors r = []
  /\ List.length (warnings r) = skippedImages r
  /\ warnings r
     = flat_map
         (fun m =>
            if isRemoteImage (imagePath m) then
              [("Skipped remote image: " ++ imagePath m)%string]
            else if negb (isSupportedImageFormat (imagePath m)) then
              [("Skipped unsupported image format: " ++ imagePath m)%string]
            else if success (encoding m) then []
            else [("Failed to convert image: " ++ imagePath m ++ " - "
                   ++ showError (error (encoding m)))%string])
         (execAll text).
Proof.
  cbv zeta. unfold convertMarkdownImages, convertMarkdownImagesWith, finishRewrite.
  cbn [convertedImages skippedImages warnings errors].
  change (fun p : string => Returns (convertImageToBase64 env p))
    with (moduleCodec env).
  set (dir := NodePath.dirname markdownFilePath).
  destruct (wired_loop env dir (execAll text) (initialRewriteState text))
    as [E C].
  pose proof (wired_loop_warnings env dir (execAll text)
                (initialRewriteState text)) as W.
  destruct (loop_counts (moduleCodec env) env dir (execAll text)
              (initialRewriteState text)) as (L1 & _ & L3 & _).
  cbn [initialRewriteState rw_converted rw_skipped rw_warnings rw_errors
       List.length app] in *.
  specialize (L3 eq_refl).
  pose proof (filter_split_length
                (fun m => negb (isRemoteImage (imagePath m))
                          && isSupportedImageFormat (imagePath m)
                          && success (convertImageToBase64 env
                                        (resolveImagePath env dir (imagePath m))))
                (execAll text)) as F.
  cbn [Nat.add] in C, L1. cbv beta in F |- *.
  split; [exact C|]. split; [rewrite C in L1; lia|]. split; [exact E|].
  split; [rewrite E in L3; cbn [List.length] in L3; lia|].
  exact W.
Qed.

(* ================================================================== *)
(** * The aggregate of a run *)

Lemma convert_completed (c : Collaborators) (sourceDir : string) :
  fst (convert c sourceDir) = ExitCompleted ->
  exists files,
    scanMarkdownFiles c = Returns files
    /\ files <> []
    /\ (exists u, createOutputDirectory c = Returns u)
    /\ snd (convert c sourceDir)
       = processFiles c files
           (startState (setTotalFiles emptyResult (List.length files))).
Proof.
  unfold convert.
  destruct (scanMarkdownFiles c) as [files|msg]; [|discriminate].
  destruct files as [|f files]; [discriminate|].
  destruct (createOutputDirectory c) as [u|msg]; [|discriminate].
  intros _. exists (f :: files). repeat split; try discriminate. now exists u.
Qed.

Section WiredRun.

Variable env : Env.
Variable scanned : Completion (list IMarkdownFile).
Variable created : Completion unit.
Variable write : string -> string -> Completion unit.

Let c := wired env scanned created write.

(** The result of the rewriter for a file. *)
Let rewritten (file : IMarkdownFile) : MarkdownConversionResult :=
  convertMarkdownImages env (fileContent file) (absolutePath file).

(** What the writer answers for a file. *)
Let written (file : IMarkdownFile) : list (string * string) :=
  match write (relativePath file) (content (rewritten file)) with
  | Returns _ => [(relativePath file, content (rewritten file))]
  | Throws _ => []
  end.

Lemma rewritten_no_errors (file : IMarkdownFile) :
  errors (rewritten file) = []
  /\ List.length (warnings (rewritten file)) = skippedImages (rewritten file).
Proof.
  unfold rewritten, convertMarkdownImages, convertMarkdownImagesWith, finishRewrite.
  cbn [errors warnings skippedImages].
  change (fun p : string => Returns (convertImageToBase64 env p))
    with (moduleCodec env).
  set (dir := NodePath.dirname (absolutePath file)).
  destruct (wired_loop env dir (execAll (fileContent file))
              (initialRewriteState (fileContent file))) as [E _].
  destruct (loop_counts (moduleCodec env) env dir (execAll (fileContent file))
              (initialRewriteState (fileContent file))) as (_ & _ & L3 & _).
  cbn [initialRewriteState rw_skipped rw_warnings rw_errors List.length] in *.
  specialize (L3 eq_refl). rewrite E in L3 |- *. cbn [List.length] in L3.
  split; [reflexivity | lia].
Qed.

Lemma wired_loopBody (ls : LoopState) (file : IMarkdownFile) :
  let ls' := loopBody c ls file in
  let a := aggregate (world ls) in
  let a' := aggregate (world ls') in
  totalFiles a' = totalFiles a
  /\ r_convertedImages a' = r_convertedImages a + convertedImages (rewritten file)
  /\ r_skippedImages a' = r_skippedImages a + skippedImages (rewritten file)
  /\ r_warnings a' = (r_warnings a ++ warnings (rewritten file))%list
  /\ outputTree (world ls') = (outputTree (world ls) ++ written file)%list
  /\ processedFiles ls' = processedFiles ls + List.length (written file)
  /\ failedFiles ls' + List.length (written file) = S (failedFiles ls)
  /\ List.length (r_errors a') + 3 * List.length (written file)
     = List.length (r_errors a) + 3.
Proof.
  cbv zeta. unfold loopBody, processMarkdownFile, c, wired, written.
  cbn [rewriteImages writeMarkdownFile].
  fold (rewritten file).
  destruct (rewritten_no_errors file) as [E _].
  destruct (write (relativePath file) (content (rewritten file))) as [u|msg];
    cbn [world aggregate withAggregate recordWrite pushError accumulate
         totalFiles r_convertedImages r_skippedImages r_warnings r_errors
         outputTree processedFiles failedFiles List.length];
    rewrite ?E, ?app_nil_r, ?length_app; cbn [List.length];
    repeat split; lia.
Qed.

Lemma wired_processFiles (files : list IMarkdownFile) :
  forall ls,
    let ls' := processFiles c files ls in
    let a := aggregate (world ls) in
    let a' := aggregate (world ls') in
    totalFiles a' = totalFiles a
    /\ r_convertedImages a'
       = r_convertedImages a + list_sum (map (fun f => convertedImages (rewritten f)) files)
    /\ r_skippedImages a'
       = r_skippedImages a + list_sum (map (fun f => skippedImages (rewritten f)) files)
    /\ r_warnings a'
       = (r_warnings a ++ concat (map (fun f => warnings (rewritten f)) files))%list
    /\ outputTree (world ls') = (outputTree (world ls) ++ flat_map written files)%list
    /\ processedFiles ls' = processedFiles ls + List.length (flat_map written files)
    /\ failedFiles ls' + List.length (flat_map written files)
       = failedFiles ls + List.length files
    /\ List.length (r_errors a') + 3 * List.length (flat_map written files)
       = List.length (r_errors a) + 3 * List.length files.
Proof.
  induction files as [|f files IH]; intros ls; cbv zeta.
  - cbn. rewrite !app_nil_r. repeat split; lia.
  - cbn [processFiles fold_left]. fold (processFiles c files (loopBody c ls f)).
    specialize (IH (loopBody c ls f)). cbv zeta in IH.
    destruct IH as (I1 & I2 & I3 & I4 & I5 & I6 & I7 & I8).
    destruct (wired_loopBody ls f) as (B1 & B2 & B3 & B4 & B5 & B6 & B7 & B8).
    cbn [map list_sum concat flat_map List.length].
    rewrite !length_app.
    rewrite I1, I2, I3, I4, I5, I6, B1, B2, B3, B4, B5, B6.
    rewrite <- !app_assoc. unfold list_sum. cbn [fold_right].
    repeat split; try reflexivity; lia.
Qed.

End WiredRun.

(** X14.  When a run completes, the aggregate holds the number of files
    discovered, the sums of the two counters of the documents and the
    concatenation of their warnings, whether or not the files could be
    written; the number of warnings is the number of images skipped. *)
Theorem aggregate_sums_documents
        (env : Env) (files : list IMarkdownFile) (created : Completion unit)
        (write : string -> string -> Completion unit) (sourceDir : string) :
  fst (convert (wired env (Returns files) created write) sourceDir) = ExitCompleted ->
  let a := aggregate (world (snd (convert (wired env (Returns files) created write)
                                    sourceDir))) in
  let rewritten f := convertMarkdownImages env (fileContent f) (absolutePath f) in
  totalFiles a = List.length files
  /\ r_convertedImages a = list_sum (map (fun f => convertedImages (rewritten f)) files)
  /\ r_skippedImages a = list_sum (map (fun f => skippedImages (rewritten f)) files)
  /\ r_warnings a = concat (map (fun f => warnings (rewritten f)) files)
  /\ List.length (r_warnings a) = r_skippedImages a.
Proof.
  intros H. cbv zeta.
  destruct (convert_completed _ _ H) as (fs & Hs & _ & _ & E).
  cbn [wired scanMarkdownFiles] in Hs. injection Hs as <-. rewrite E. clear E H.
  rename files into fs.
  destruct (wired_processFiles env (Returns fs) created write fs
              (startState (setTotalFiles emptyResult (List.length fs))))
    as (I1 & I2 & I3 & I4 & _).
  cbn [startState world aggregate setTotalFiles emptyResult totalFiles
       r_convertedImages r_skippedImages r_warnings Nat.add app] in I1, I2, I3, I4.
  split; [exact I1|]. split; [exact I2|]. split; [exact I3|].
  split; [exact I4|].
  assert (L : List.length
                (concat (map (fun f0 => warnings
                                (convertMarkdownImages env (fileContent f0)
                                   (absolutePath f0))) fs))
              = list_sum (map (fun f0 => skippedImages
                                 (convertMarkdownImages env (fileContent f0)
                                    (absolutePath f0))) fs)).
  { clear. induction fs as [|x fs IH]; [reflexivity|].
    cbn [map concat]. rewrite length_app, IH.
    unfold list_sum. cbn [fold_right]. f_equal.
    exact (proj2 (rewritten_no_errors env x)). }
  eapply eq_trans; [exact (f_equal (@List.length string) I4)|].
  eapply eq_trans; [exact L|]. symmetry. exact I3.
Qed.

Lemma aggregate_sums_documents_witness :
  let first := {| relativePath := "a.md"; absolutePath := "/docs/a.md";
                  fileContent := "![a](./a.png) ![r](https://x/y.png)" |} in
  let second := {| relativePath := "b.md"; absolutePath := "/docs/b.md";
                   fileContent := "![a](./a.png) ![m](./m.png)" |} in
  let c := wired (oneFile "/docs/a.png" sampleBytes) (Returns [first; second])
                 (Returns tt) (fun _ _ => Returns tt) in
  let a := aggregate (world (snd (convert c "/docs"))) in
  totalFiles a = 2 /\ r_convertedImages a = 2 /\ r_skippedImages a = 2
  /\ List.length (r_warnings a) = 2.
Proof.
  cbv zeta.
  destruct (aggregate_sums_documents (oneFile "/docs/a.png" sampleBytes)
              [ {| relativePath := "a.md"; absolutePath := "/docs/a.md";
                   fileContent := "![a](./a.png) ![r](https://x/y.png)" |};
                {| relativePath := "b.md"; absolutePath := "/docs/b.md";
                   fileContent := "![a](./a.png) ![m](./m.png)" |} ]
              (Returns tt) (fun _ _ => Returns tt) "/docs" eq_refl)
    as (H1 & H2 & H3 & _ & H5).
  split; [exact H1|]. split; [exact H2|]. split; [exact H3|].
  rewrite H5. exact H3.
Defined.

(** X15.  When a run completes, the files written are those whose write
    returned, in the order of discovery, each at the relative path of its
    source and with the text the rewriter returned for it; their number is
    the count of processed files, the others are counted as failed, and when
    no file failed the output holds one file per discovered file. *)
Theorem output_mirrors_processed_files
        (env : Env) (files : list IMarkdownFile) (created : Completion unit)
        (write : string -> string -> Completion unit) (sourceDir : string) :
  fst (convert (wired env (Returns files) created write) sourceDir) = ExitCompleted ->
  let final := snd (convert (wired env (Returns files) created write) sourceDir) in
  let rewritten f := convertMarkdownImages env (fileContent f) (absolutePath f) in
  let returned f :=
    match write (relativePath f) (content (rewritten f)) with
    | Returns _ => true
    | Throws _ => false
    end in
  outputTree (world final)
  = map (fun f => (relativePath f, content (rewritten f))) (filter returned files)
  /\ processedFiles final = List.length (filter returned files)
  /\ failedFiles final = List.length (filter (fun f => negb (returned f)) files)
  /\ (failedFiles final = 0 ->
      map fst (outputTree (world final)) = map relativePath files).
Proof.
  intros H. cbv zeta.
  destruct (convert_completed _ _ H) as (fs & Hs & _ & _ & E).
  cbn [wired scanMarkdownFiles] in Hs. injection Hs as <-. rewrite E. clear E H.
  rename files into fs.
  destruct (wired_processFiles env (Returns fs) created write fs
              (startState (setTotalFiles emptyResult (List.length fs))))
    as (_ & _ & _ & _ & I5 & I6 & I7 & _).
  cbn [startState world outputTree processedFiles failedFiles Nat.add app]
    in I5, I6, I7.
  set (returned := fun f0 : IMarkdownFile =>
         match write (relativePath f0)
                 (content (convertMarkdownImages env (fileContent f0)
                             (absolutePath f0))) with
         | Returns _ => true
         | Throws _ => false
         end).
  assert (F : forall l,
             flat_map
               (fun file =>
                  match write (relativePath file)
                          (content (convertMarkdownImages env (fileContent file)
                                      (absolutePath file))) with
                  | Returns _ =>
                      [(relativePath file,
                        content (convertMarkdownImages env (fileContent file)
                                   (absolutePath file)))]
                  | Throws _ => []
                  end) l
             = map (fun f0 => (relativePath f0,
                               content (convertMarkdownImages env (fileContent f0)
                                          (absolutePath f0))))
                   (filter returned l)).
  { induction l as [|x l IH]; [reflexivity|].
    cbn [flat_map filter]. unfold returned at 1.
    destruct (write _ _); cbn [map app]; now rewrite IH. }
  rewrite F in I5, I6, I7. rewrite length_map in I6, I7.
  pose proof (filter_split_length returned fs) as P.
  split; [exact I5|]. split; [exact I6|]. split.
  { match goal with
    | |- ?a = _ =>
        change (a = List.length (filter (fun x => negb (returned x)) fs))
    end. lia. }
  intros Z. rewrite I5, map_map. cbn [fst].
  assert (List.length (filter returned fs) = List.length fs) as A by lia.
  clear - A. f_equal.
  induction fs as [|x fs IH]; [reflexivity|].
  cbn [filter] in *. destruct (returned x).
  - cbn [List.length] in A. f_equal. apply IH. lia.
  - pose proof (filter_length_le returned fs). cbn [List.length] in A. lia.
Qed.

Lemma output_mirrors_processed_files_witness :
  let first := {| relativePath := "l1/a.md"; absolutePath := "/docs/l1/a.md";
                  fileContent := "![a](../a.png)" |} in
  let second := {| relativePath := "b.md"; absolutePath := "/docs/b.md";
                   fileContent := "text" |} in
  let c := wired (oneFile "/docs/a.png" sampleBytes) (Returns [first; second])
                 (Returns tt) (fun _ _ => Returns tt) in
  outputTree (world (snd (convert c "/docs")))
  = [("l1/a.md", "![a](data:image/png;base64,TWFu)"); ("b.md", "text")].
Proof.
  cbv zeta.
  exact (proj1 (output_mirrors_processed_files (oneFile "/docs/a.png" sampleBytes)
              [ {| relativePath := "l1/a.md"; absolutePath := "/docs/l1/a.md";
                   fileContent := "![a](../a.png)" |};
                {| relativePath := "b.md"; absolutePath := "/docs/b.md";
                   fileContent := "text" |} ]
              (Returns tt) (fun _ _ => Returns tt) "/docs" eq_refl)).
Defined.

(** X16.  When a run completes, the errors of the aggregate are three for
    every failed file and nothing else: the rewriter wired to the codec
    reports no error of its own. *)
Theorem three_errors_per_failed_file
        (env : Env) (files : list IMarkdownFile) (created : Completion unit)
        (write : string -> string -> Completion unit) (sourceDir : string) :
  fst (convert (wired env (Returns files) created write) sourceDir) = ExitCompleted ->
  let final := snd (convert (wired env (Returns files) created write) sourceDir) in
  List.length (r_errors (aggregate (world final))) = 3 * failedFiles final
  /\ processedFiles final + failedFiles final = totalFiles (aggregate (world final)).
Proof.
  intros H. cbv zeta.
  destruct (convert_completed _ _ H) as (fs & Hs & _ & _ & E).
  cbn [wired scanMarkdownFiles] in Hs. injection Hs as <-. rewrite E. clear E H.
  rename files into fs.
  destruct (wired_processFiles env (Returns fs) created write fs
              (startState (setTotalFiles emptyResult (List.length fs))))
    as (I1 & _ & _ & _ & _ & I6 & I7 & I8).
  cbn [startState world aggregate setTotalFiles emptyResult totalFiles r_errors
       processedFiles failedFiles List.length Nat.add] in I1, I6, I7, I8.
  split; lia.
Qed.

Lemma three_errors_per_failed_file_witness :
  let first := {| relativePath := "a.md"; absolutePath := "/docs/a.md";
                  fileContent := "![m](./m.png)" |} in
  let second := {| relativePath := "b.md"; absolutePath := "/docs/b.md";
                   fileContent := "text" |} in
  let c := wired noFiles (Returns [first; second]) (Returns tt)
                 (fun _ _ => Throws "ENOSPC: no space left on device") in
  let final := snd (convert c "/docs") in
  List.length (r_errors (aggregate (world final))) = 6 /\ failedFiles final = 2.
Proof.
  cbv zeta.
  destruct (three_errors_per_failed_file noFiles
              [ {| relativePath := "a.md"; absolutePath := "/docs/a.md";
                   fileContent := "![m](./m.png)" |};
                {| relativePath := "b.md"; absolutePath := "/docs/b.md";
                   fileContent := "text" |} ]
              (Returns tt) (fun _ _ => Throws "ENOSPC: no space left on device")
              "/docs" eq_refl) as [H1 _].
  split; [exact H1 | reflexivity].
Defined.

(* ================================================================== *)
(** * The output directory and the writer *)

(** X17.  [createOutputDirectory] returns exactly when the directory is
    absent and its creation succeeds, or when it is a directory, overwriting
    is asked for and its entries can be listed.  Whenever it throws, the
    only call it has made that can change the disk is the [mkdir] that
    failed, made only after [stat] answered [ENOENT]; in every other
    failure it has made no such call. *)
Theorem createOutputDirectory_outcome
        (disk : Disk) (outputDir : string) (overwrite : bool) :
  let absoluteOutputDir := NodePath.resolve (disk_cwd disk) [outputDir] in
  let outcome := FileScanner.createOutputDirectory disk outputDir overwrite in
  (snd outcome = Returns tt <->
   (exists message,
       disk_stat disk absoluteOutputDir = StatThrows "ENOENT" message
       /\ exists u, disk_mkdir disk absoluteOutputDir = Returns u)
   \/ (disk_stat disk absoluteOutputDir = StatOk true
       /\ overwrite = true
       /\ exists entries, disk_readdir disk absoluteOutputDir = Returns entries))
  /\ (forall message,
         snd outcome = Throws message ->
         fst outcome
         = match disk_stat disk absoluteOutputDir with
           | StatThrows code _ =>
               if String.eqb code "ENOENT"
               then [ {| call_op := OpMkdir absoluteOutputDir;
                         call_returned := false |} ]
               else []
           | StatOk _ => []
           end).
Proof.
  cbv zeta. unfold FileScanner.createOutputDirectory, FileScanner.clearDirectory.
  destruct (disk_stat disk _) as [[|]|code message] eqn:S.
  - destruct overwrite; cbn [negb].
    + destruct (disk_readdir disk _) as [entries|msg] eqn:R; cbn [fst snd].
      * split; [|discriminate]. split; [|reflexivity].
        intros _. right. repeat split. now exists entries.
      * split; [|reflexivity]. split; [discriminate|].
        intros [(m & H & _) | (_ & _ & e & H)]; discriminate.
    + cbn [fst snd]. split; [|reflexivity]. split; [discriminate|].
      intros [(m & H & _) | (_ & H & _)]; discriminate.
  - cbn [fst snd]. split; [|reflexivity]. split; [discriminate|].
    intros [(m & H & _) | (H & _)]; discriminate.
  - destruct (String.eqb code "ENOENT") eqn:C.
    + apply String.eqb_eq in C as ->.
      destruct (disk_mkdir disk _) as [u|msg] eqn:M; cbn [fst snd callReturned].
      * split; [|discriminate]. split; [|reflexivity].
        intros _. left. exists message. split; [reflexivity | now exists u].
      * split; [|reflexivity]. split; [discriminate|].
        intros [(m & _ & u & H) | (H & _)]; discriminate.
    + cbn [fst snd]. split.
      * split; [discriminate|].
        intros [(m & H & _) | (H & _)]; [|discriminate].
        injection H as H _. subst code. discriminate C.
      * reflexivity.
Qed.



(** X19.  Clearing for an overwrite is a best effort: once the entries of
    the directory are listed, the function attempts one removal for every
    entry, in the order of the listing, a recursive [rmdir] at a
    sub-directory and an [unlink] at any other entry, goes on whatever a
    removal answers, makes no other call that can change the disk, and
    returns. *)
Theorem overwrite_clears_best_effort
        (disk : Disk) (outputDir : string) (entries : list Dirent) :
  disk_stat disk (NodePath.resolve (disk_cwd disk) [outputDir]) = StatOk true ->
  disk_readdir disk (NodePath.resolve (disk_cwd disk) [outputDir]) = Returns entries ->
  let absoluteOutputDir := NodePath.resolve (disk_cwd disk) [outputDir] in
  FileScanner.createOutputDirectory disk outputDir true
  = (map (fun entry =>
            let fullPath := NodePathMore.join [absoluteOutputDir; d_name entry] in
            if d_isDirectory entry
            then {| call_op := OpRmdir fullPath;
                    call_returned :=
                      match disk_rmdir disk fullPath with
                      | Returns _ => true | Throws _ => false end |}
            else {| call_op := OpUnlink fullPath;
                    call_returned :=
                      match disk_unlink disk fullPath with
                      | Returns _ => true | Throws _ => false end |})
         entries,
     Returns tt).
Proof.
  intros S R. cbv zeta.
  unfold FileScanner.createOutputDirectory, FileScanner.clearDirectory.
  rewrite S, R. reflexivity.
Qed.

Lemma overwrite_clears_best_effort_witness :
  let disk := {| disk_stat := fun _ => StatOk true;
                 disk_readdir := fun _ =>
                   Returns [ {| d_name := "old.md"; d_isDirectory := false;
                                d_isFile := true |};
                             {| d_name := "locked"; d_isDirectory := true;
                                d_isFile := false |};
                             {| d_name := "l1"; d_isDirectory := true;
                                d_isFile := false |} ];
                 disk_mkdir := fun _ => Returns tt;
                 disk_writeFile := fun _ _ => Returns tt;
                 disk_unlink := fun _ => Returns tt;
                 disk_rmdir := fun p =>
                   if String.eqb p "/work/out/locked"
                   then Throws "EACCES: permission denied" else Returns tt;
                 disk_cwd := "/work" |} in
  FileScanner.createOutputDirectory disk "out" true
  = ([ {| call_op := OpUnlink "/work/out/old.md"; call_returned := true |};
       {| call_op := OpRmdir "/work/out/locked"; call_returned := false |};
       {| call_op := OpRmdir "/work/out/l1"; call_returned := true |} ],
     Returns tt).
Proof.
  cbv zeta.
  exact (overwrite_clears_best_effort
           {| disk_stat := fun _ => StatOk true;
              disk_readdir := fun _ =>
                Returns [ {| d_name := "old.md"; d_isDirectory := false;
                             d_isFile := true |};
                          {| d_name := "locked"; d_isDirectory := true;
                             d_isFile := false |};
                          {| d_name := "l1"; d_isDirectory := true;
                             d_isFile := false |} ];
              disk_mkdir := fun _ => Returns tt;
              disk_writeFile := fun _ _ => Returns tt;
              disk_unlink := fun _ => Returns tt;
              disk_rmdir := fun p =>
                if String.eqb p "/work/out/locked"
                then Throws "EACCES: permission denied" else Returns tt;
              disk_cwd := "/work" |}
           "out" _ eq_refl eq_refl).
Defined.

(** X20.  [writeMarkdownFile] returns exactly when the directory of the
    output path can be made and the file can be written.  It first calls
    [mkdir] at the directory of the output path and, only when that
    returned, [writeFile] with the text at the output path; it makes no
    other call that can change the disk.  When it throws, the message is
    [Failed to write file <output path>: ] followed by the reason, which
    for a directory that cannot be made is [Failed to create directory
    structure <directory>: ] and the underlying message. *)
Theorem writeMarkdownFile_outcome
        (disk : Disk) (outputDir relativePath text : string) :
  let outputPath := NodePathMore.join [outputDir; relativePath] in
  let targetDir := NodePath.dirname outputPath in
  let outcome := FileScanner.writeMarkdownFile disk outputDir relativePath text in
  (snd outcome = Returns tt <->
   (exists u, disk_mkdir disk targetDir = Returns u)
   /\ (exists u, disk_writeFile disk outputPath text = Returns u))
  /\ (snd outcome = Returns tt ->
      fst outcome
      = [ {| call_op := OpMkdir targetDir; call_returned := true |};
          {| call_op := OpWriteFile outputPath text; call_returned := true |} ])
  /\ (forall message,
         snd outcome = Throws message ->
         (exists reason,
             disk_mkdir disk targetDir = Throws reason
             /\ fst outcome
                = [ {| call_op := OpMkdir targetDir; call_returned := false |} ]
             /\ message = "Failed to write file " ++ outputPath
                          ++ ": Failed to create directory structure "
                          ++ targetDir ++ ": " ++ reason)
         \/ (exists u reason,
                disk_mkdir disk targetDir = Returns u
                /\ disk_writeFile disk outputPath text = Throws reason
                /\ fst outcome
                   = [ {| call_op := OpMkdir targetDir; call_returned := true |};
                       {| call_op := OpWriteFile outputPath text;
                          call_returned := false |} ]
                /\ message = "Failed to write file " ++ outputPath
                             ++ ": " ++ reason)).
Proof.
  cbv zeta.
  unfold FileScanner.writeMarkdownFile, FileScanner.ensureOutputDirectoryStructure.
  destruct (disk_mkdir disk _) as [u|reason] eqn:M.
  - destruct (disk_writeFile disk _ _) as [v|reason] eqn:W;
      cbn [fst snd app callReturned].
    + split; [|split; [reflexivity | discriminate]].
      split; [|reflexivity]. intros _. split; eexists; reflexivity.
    + split; [|split; [discriminate|]].
      * split; [discriminate|]. intros (_ & v & H). discriminate.
      * intros message H. injection H as <-. right. now exists u, reason.
  - cbn [fst snd callReturned]. split; [|split; [discriminate|]].
    + split; [discriminate|]. intros ((v & H) & _). discriminate.
    + intros message H. injection H as <-. left. now exists reason.
Qed.

(** X21.  A file whose output directory cannot be made is recorded by the
    converter with the whole chain of reasons: the entry of the loop in the
    aggregate's errors names the relative path, the output path, the
    directory and the underlying message. *)
Theorem directory_failure_message_chain
        (env : Env) (disk : Disk) (outputDir : string) (overwrite : bool)
        (scanned : Completion (list IMarkdownFile))
        (file : IMarkdownFile) (ls : LoopState) (reason : string) :
  disk_mkdir disk
    (NodePath.dirname (NodePathMore.join [outputDir; relativePath file]))
  = Throws reason ->
  let c := onDisk env disk outputDir overwrite scanned in
  let outputPath := NodePathMore.join [outputDir; relativePath file] in
  In ("Failed to process file " ++ relativePath file
      ++ ": Failed to write file " ++ outputPath
      ++ ": Failed to create directory structure " ++ NodePath.dirname outputPath
      ++ ": " ++ reason)
     (r_errors (aggregate (world (loopBody c ls file))))
  /\ outputTree (world (loopBody c ls file)) = outputTree (world ls)
  /\ failedFiles (loopBody c ls file) = S (failedFiles ls).
Proof.
  intros M. cbv zeta.
  set (c := onDisk env disk outputDir overwrite scanned).
  assert (snd (processMarkdownFile c file (world ls))
          = Throws ("Failed to write file "
                    ++ NodePathMore.join [outputDir; relativePath file]
                    ++ ": Failed to create directory structure "
                    ++ NodePath.dirname
                         (NodePathMore.join [outputDir; relativePath file])
                    ++ ": " ++ reason)) as H.
  { unfold processMarkdownFile, c, onDisk. cbn [rewriteImages writeMarkdownFile].
    unfold FileScanner.writeMarkdownFile,
      FileScanner.ensureOutputDirectoryStructure.
    rewrite M. reflexivity. }
  destruct (loopBody_failure c ls file _ H) as (H1 & H2 & H3 & _).
  split; [exact H1|]. split; assumption.
Qed.

Lemma directory_failure_message_chain_witness :
  let disk := {| disk_stat := fun _ => StatThrows "ENOENT" "ENOENT: no such file";
                 disk_readdir := fun _ => Returns [];
                 disk_mkdir := fun p =>
                   if String.eqb p "/work/out/l1"
                   then Throws "EACCES: permission denied" else Returns tt;
                 disk_writeFile := fun _ _ => Returns tt;
                 disk_unlink := fun _ => Returns tt;
                 disk_rmdir := fun _ => Returns tt;
                 disk_cwd := "/work" |} in
  let file := {| relativePath := "l1/a.md"; absolutePath := "/work/src/l1/a.md";
                 fileContent := "text" |} in
  r_errors (aggregate (world (snd
    (convert (onDisk noFiles disk "/work/out" false (Returns [file])) "/work/src"))))
  = [ "Failed to write converted file l1/a.md: Failed to write file /work/out/l1/a.md: Failed to create directory structure /work/out/l1: EACCES: permission denied";
      "Error processing file l1/a.md: Failed to write file /work/out/l1/a.md: Failed to create directory structure /work/out/l1: EACCES: permission denied";
      "Failed to process file l1/a.md: Failed to write file /work/out/l1/a.md: Failed to create directory structure /work/out/l1: EACCES: permission denied" ]
  /\ In "Failed to process file l1/a.md: Failed to write file /work/out/l1/a.md: Failed to create directory structure /work/out/l1: EACCES: permission denied"
        (r_errors (aggregate (world (snd
          (convert (onDisk noFiles disk "/work/out" false (Returns [file]))
             "/work/src"))))).
Proof.
  cbv zeta. split; [reflexivity|].
  exact (proj1 (directory_failure_message_chain noFiles
           {| disk_stat := fun _ => StatThrows "ENOENT" "ENOENT: no such file";
              disk_readdir := fun _ => Returns [];
              disk_mkdir := fun p =>
                if String.eqb p "/work/out/l1"
                then Throws "EACCES: permission denied" else Returns tt;
              disk_writeFile := fun _ _ => Returns tt;
              disk_unlink := fun _ => Returns tt;
              disk_rmdir := fun _ => Returns tt;
              disk_cwd := "/work" |}
           "/work/out" false
           (Returns [ {| relativePath := "l1/a.md";
                         absolutePath := "/work/src/l1/a.md";
                         fileContent := "text" |} ])
           {| relativePath := "l1/a.md"; absolutePath := "/work/src/l1/a.md";
              fileContent := "text" |}
           (startState (setTotalFiles emptyResult 1))
           "EACCES: permission denied" eq_refl)).
Defined.

(* ================================================================== *)
(** * The batch conversion *)

Lemma batch_is_map
      (rewrite : string -> string -> Completion MarkdownConversionResult)
      (files : list BatchFile) :
  convertMultipleMarkdownFilesWith rewrite files
  = map (convertBatchFile rewrite) files.
Proof.
  unfold convertMultipleMarkdownFilesWith.
  assert (forall acc,
             fold_left (fun results file =>
                          (results ++ [convertBatchFile rewrite file])%list)
                       files acc
             = (acc ++ map (convertBatchFile rewrite) files)%list) as H.
  { induction files as [|f files IH]; intros acc; cbn [fold_left map].
    - now rewrite app_nil_r.
    - rewrite IH, <- app_assoc. reflexivity. }
  apply (H []).
Qed.

(** X22.  With the rewriter of the module the batch conversion never
    takes its [catch]: whatever the files, it returns one result per file
    and none of them carries an error, so none is the result of a failed
    file; every result has one warning for each image it counts as
    skipped.  The batch of a concatenation is the concatenation of the
    batches. *)
Theorem batch_reports_no_failure (env : Env) (before after : list BatchFile) :
  let results := convertMultipleMarkdownFiles env (before ++ after) in
  results
  = (convertMultipleMarkdownFiles env before
     ++ convertMultipleMarkdownFiles env after)%list
  /\ List.length results = List.length before + List.length after
  /\ Forall (fun r => errors r = []
                      /\ List.length (warnings r) = skippedImages r) results.
Proof.
  cbv zeta. unfold convertMultipleMarkdownFiles. rewrite !batch_is_map.
  split; [apply map_app|]. split; [now rewrite length_map, length_app|].
  apply Forall_forall. intros r I. apply in_map_iff in I as (file & <- & _).
  unfold convertBatchFile.
  exact (rewritten_no_errors env
           {| relativePath := ""; absolutePath := batch_filePath file;
              fileContent := batch_content file |}).
Qed.

(** X23.  With the rewriter of the module, which does not throw, the batch
    conversion returns for every file the result of
    [convertMarkdownImages], so that its counters add up to those a
    completed run of the converter holds for the same files. *)
Theorem batch_agrees_with_converter
        (env : Env) (files : list IMarkdownFile) (created : Completion unit)
        (write : string -> string -> Completion unit) (sourceDir : string) :
  fst (convert (wired env (Returns files) created write) sourceDir) = ExitCompleted ->
  let a := aggregate (world (snd (convert (wired env (Returns files) created write)
                                    sourceDir))) in
  let results :=
    convertMultipleMarkdownFiles env
      (map (fun f => {| batch_content := fileContent f;
                        batch_filePath := absolutePath f |}) files) in
  results
  = map (fun f => convertMarkdownImages env (fileContent f) (absolutePath f)) files
  /\ r_convertedImages a = list_sum (map convertedImages results)
  /\ r_skippedImages a = list_sum (map skippedImages results)
  /\ r_warnings a = concat (map warnings results).
Proof.
  intros H. cbv zeta.
  assert (convertMultipleMarkdownFiles env
            (map (fun f => {| batch_content := fileContent f;
                              batch_filePath := absolutePath f |}) files)
          = map (fun f => convertMarkdownImages env (fileContent f) (absolutePath f))
                files) as E.
  { unfold convertMultipleMarkdownFiles. rewrite batch_is_map, map_map.
    reflexivity. }
  rewrite E. split; [reflexivity|]. rewrite !map_map.
  destruct (convert_completed _ _ H) as (fs & Hs & _ & _ & C).
  cbn [wired scanMarkdownFiles] in Hs. injection Hs as <-. rewrite C.
  destruct (wired_processFiles env (Returns files) created write files
              (startState (setTotalFiles emptyResult (List.length files))))
    as (_ & I2 & I3 & I4 & _).
  cbn [startState world aggregate setTotalFiles emptyResult
       r_convertedImages r_skippedImages r_warnings Nat.add app] in I2, I3, I4.
  split; [exact I2|]. split; [exact I3 | exact I4].
Qed.

Lemma batch_agrees_with_converter_witness :
  let file := {| relativePath := "a.md"; absolutePath := "/docs/a.md";
                 fileContent := "![a](./a.png) ![r](https://x/y.png)" |} in
  let env := oneFile "/docs/a.png" sampleBytes in
  map convertedImages
    (convertMultipleMarkdownFiles env
       [ {| batch_content := fileContent file; batch_filePath := absolutePath file |} ])
  = [1]
  /\ r_convertedImages
       (aggregate (world (snd (convert (wired env (Returns [file]) (Returns tt)
                                          (fun _ _ => Throws "EACCES")) "/docs"))))
     = 1.
Proof.
  cbv zeta. split; [reflexivity|].
  destruct (batch_agrees_with_converter (oneFile "/docs/a.png" sampleBytes)
              [ {| relativePath := "a.md"; absolutePath := "/docs/a.md";
                   fileContent := "![a](./a.png) ![r](https://x/y.png)" |} ]
              (Returns tt) (fun _ _ => Throws "EACCES") "/docs" eq_refl)
    as (_ & H & _).
  rewrite H. reflexivity.
Defined.

(* ================================================================== *)
(** * The grouping of the diagnostics *)

Section Grouping.

Variable typeOf : string -> string.

(** The messages of the type [key] among [seen], or [None] when there are
    none. *)
Let ofType (key : string) (seen : list string) : option (list string) :=
  match filter (fun m => String.eqb (typeOf m) key) seen with
  | [] => None
  | items => Some items
  end.

Lemma lookupGroup_push (key type item : string)
      (groups : list (string * list string)) :
  lookupGroup key (pushToGroup type item groups)
  = if String.eqb type key then
      Some (match lookupGroup type groups with
            | Some items => (items ++ [item])%list
            | None => [item]
            end)
    else lookupGroup key groups.
Proof.
  induction groups as [|[k v] groups IH]; cbn [pushToGroup lookupGroup].
  - destruct (String.eqb type key); reflexivity.
  - destruct (String.eqb k type) eqn:Ekt; cbn [lookupGroup].
    + apply String.eqb_eq in Ekt. subst k.
      destruct (String.eqb type key); reflexivity.
    + rewrite IH. destruct (String.eqb k key) eqn:Ekk.
      * apply String.eqb_eq in Ekk. subst k.
        rewrite String.eqb_sym in Ekt. now rewrite Ekt.
      * reflexivity.
Qed.

Lemma pushToGroup_size (type item : string) (groups : list (string * list string)) :
  list_sum (map (fun g => List.length (snd g)) (pushToGroup type item groups))
  = S (list_sum (map (fun g => List.length (snd g)) groups)).
Proof.
  unfold list_sum.
  induction groups as [|[k v] groups IH]; cbn [pushToGroup map fold_right snd].
  - reflexivity.
  - destruct (String.eqb k type); cbn [map fold_right snd].
    + rewrite length_app. cbn [List.length]. lia.
    + rewrite IH. lia.
Qed.

Lemma pushToGroup_keys (type item key : string)
      (groups : list (string * list string)) :
  In key (map fst (pushToGroup type item groups)) <->
  key = type \/ In key (map fst groups).
Proof.
  induction groups as [|[k v] groups IH]; cbn [pushToGroup map fst In].
  - intuition congruence.
  - destruct (String.eqb_spec k type) as [->|ne]; cbn [map fst In].
    + intuition congruence.
    + rewrite IH. intuition congruence.
Qed.

Lemma pushToGroup_NoDup (type item : string) (groups : list (string * list string)) :
  NoDup (map fst groups) -> NoDup (map fst (pushToGroup type item groups)).
Proof.
  induction groups as [|[k v] groups IH]; cbn [pushToGroup map fst]; intros ND.
  - repeat constructor. intros [].
  - destruct (String.eqb_spec k type) as [->|ne]; cbn [map fst]; [exact ND|].
    inversion ND as [|? ? Hn ND']. subst. constructor; [|now apply IH].
    intros H. apply pushToGroup_keys in H. destruct H as [H|H];
      [now elim ne | now elim Hn].
Qed.

Lemma grouping_loop (messages : list string) :
  forall groups seen,
    (forall key, lookupGroup key groups = ofType key seen) ->
    NoDup (map fst groups) ->
    list_sum (map (fun g => List.length (snd g)) groups) = List.length seen ->
    let groups' :=
      fold_left (fun gs m => pushToGroup (typeOf m) m gs) messages groups in
    (forall key, lookupGroup key groups' = ofType key (seen ++ messages)%list)
    /\ NoDup (map fst groups')
    /\ list_sum (map (fun g => List.length (snd g)) groups')
       = List.length (seen ++ messages)%list.
Proof.
  induction messages as [|m messages IH]; intros groups seen L ND S; cbv zeta.
  - cbn [fold_left]. rewrite app_nil_r. auto.
  - cbn [fold_left].
    replace (seen ++ m :: messages)%list with ((seen ++ [m]) ++ messages)%list
      by (now rewrite <- app_assoc).
    apply IH.
    + intros key. rewrite lookupGroup_push, !L. unfold ofType.
      rewrite !filter_app. cbn [filter].
      destruct (String.eqb (typeOf m) key) eqn:E.
      * apply String.eqb_eq in E. subst key.
        destruct (filter _ seen) as [|x l]; reflexivity.
      * rewrite app_nil_r. reflexivity.
    + now apply pushToGroup_NoDup.
    + rewrite pushToGroup_size, S, length_app. cbn [List.length]. lia.
Qed.

Lemma groupByType_spec (messages : list string) :
  (forall key, lookupGroup key (groupByType typeOf messages) = ofType key messages)
  /\ NoDup (map fst (groupByType typeOf messages))
  /\ list_sum (map (fun g => List.length (snd g)) (groupByType typeOf messages))
     = List.length messages.
Proof.
  apply (grouping_loop messages [] []); try reflexivity. constructor.
Qed.

End Grouping.

Lemma includes_prefix (pat rest : string) : includes (pat ++ rest) pat = true.
Proof.
  unfold includes. destruct (pat ++ rest) as [|c s] eqn:E.
  - cbn [JsString.cutFirst]. rewrite <- E, prefix_append. reflexivity.
  - cbn [JsString.cutFirst]. rewrite <- E, prefix_append. reflexivity.
Qed.

(** X24.  The grouping loses and invents nothing: under every type the
    warnings of that type are found in the order in which they came, a type
    without warning has no group, no type has two groups, and the sizes of
    the groups add up to the number of warnings.  The same holds of the
    errors. *)
Theorem grouping_keeps_every_message (messages : list string) (key : string) :
  let ofType typeOf :=
    match filter (fun m => String.eqb (typeOf m) key) messages with
    | [] => None
    | items => Some items
    end in
  lookupGroup key (groupWarningsByType messages) = ofType warningType
  /\ lookupGroup key (groupErrorsByType messages) = ofType errorType
  /\ NoDup (map fst (groupWarningsByType messages))
  /\ NoDup (map fst (groupErrorsByType messages))
  /\ list_sum (map (fun g => List.length (snd g)) (groupWarningsByType messages))
     = List.length messages
  /\ list_sum (map (fun g => List.length (snd g)) (groupErrorsByType messages))
     = List.length messages.
Proof.
  cbv zeta. unfold groupWarningsByType, groupErrorsByType.
  destruct (groupByType_spec warningType messages) as (W1 & W2 & W3).
  destruct (groupByType_spec errorType messages) as (E1 & E2 & E3).
  repeat split; try assumption; [apply W1 | apply E1].
Qed.

(** X25.  The diagnostics of the converter find their group whatever the
    paths and messages they carry: a warning of a skipped remote image is
    grouped under the type of the remote images, and the entry the loop
    records for a failed file is grouped under the type of the file
    processing errors. *)
Theorem converter_diagnostics_are_typed (imagePath rel message : string) :
  warningType ("Skipped remote image: " ++ imagePath) = "跳过远程图片"
  /\ errorType (fileFailedMsg rel message) = "文件处理错误"
  /\ (forall warnings,
         In ("Skipped remote image: " ++ imagePath) warnings ->
         exists items,
           lookupGroup "跳过远程图片" (groupWarningsByType warnings) = Some items
           /\ In ("Skipped remote image: " ++ imagePath) items)
  /\ (forall errors,
         In (fileFailedMsg rel message) errors ->
         exists items,
           lookupGroup "文件处理错误" (groupErrorsByType errors) = Some items
           /\ In (fileFailedMsg rel message) items).
Proof.
  assert (W : warningType ("Skipped remote image: " ++ imagePath) = "跳过远程图片").
  { unfold warningType.
    change ("Skipped remote image: " ++ imagePath)
      with ("Skipped remote image" ++ (": " ++ imagePath)).
    now rewrite includes_prefix. }
  assert (E : errorType (fileFailedMsg rel message) = "文件处理错误").
  { unfold errorType, fileFailedMsg.
    change ("Failed to process file " ++ rel ++ ": " ++ message)
      with ("Failed to process file" ++ (" " ++ rel ++ ": " ++ message)).
    now rewrite includes_prefix. }
  split; [exact W|]. split; [exact E|]. split.
  - intros warnings H.
    destruct (groupByType_spec warningType warnings) as (L & _).
    unfold groupWarningsByType. rewrite L.
    assert (In ("Skipped remote image: " ++ imagePath)
               (filter (fun m => String.eqb (warningType m) "跳过远程图片") warnings))
      as F.
    { apply filter_In. split; [exact H|]. now rewrite W. }
    destruct (filter _ warnings) as [|x l]; [contradiction|].
    now eexists.
  - intros errors H.
    destruct (groupByType_spec errorType errors) as (L & _).
    unfold groupErrorsByType. rewrite L.
    assert (In (fileFailedMsg rel message)
               (filter (fun m => String.eqb (errorType m) "文件处理错误") errors))
      as F.
    { apply filter_In. split; [exact H|]. now rewrite E. }
    destruct (filter _ errors) as [|x l]; [contradiction|].
    now eexists.
Qed.

(* ================================================================== *)
(** * The statistics of the logger *)

Section LoggedRun.

Variable c : Collaborators.

(** The rewriter reports no error of its own, as [convertMarkdownImages]
    does with the codec of the module. *)
Let quiet : Prop :=
  forall text p conversionResult,
    rewriteImages c text p = Returns conversionResult ->
    errors conversionResult = [].

Let logged (ls ls' : LoopState) (s s' : Statistics) : Prop :=
  let a := aggregate (world ls) in
  let a' := aggregate (world ls') in
  st_errors s' + List.length (r_errors a) <= st_errors s + List.length (r_errors a')
  /\ (quiet ->
      st_errors s' + List.length (r_errors a) = st_errors s + List.length (r_errors a'))
  /\ filesProcessed s' + processedFiles ls = filesProcessed s + processedFiles ls'
  /\ filesSkipped s' + failedFiles ls = filesSkipped s + failedFiles ls'
  /\ imagesSucess s' + r_convertedImages a <= imagesSucess s + r_convertedImages a'
  /\ imagesSkipped s' + r_skippedImages a <= imagesSkipped s + r_skippedImages a'
  /\ (failedFiles ls' = failedFiles ls ->
      imagesSucess s' + r_convertedImages a = imagesSucess s + r_convertedImages a'
      /\ imagesSkipped s' + r_skippedImages a = imagesSkipped s + r_skippedImages a')
  /\ st_warnings s' = st_warnings s
  /\ failedFiles ls <= failedFiles ls'.

Lemma logged_loopBody (ls : LoopState) (s : Statistics) (file : IMarkdownFile) :
  logged ls (loopBody c ls file) s (loopBodyLogs c s file).
Proof.
  unfold logged, quiet. cbv zeta.
  unfold loopBodyLogs, processMarkdownFileLogs, loopBody, processMarkdownFile.
  destruct (rewriteImages c (fileContent file) (absolutePath file))
    as [cr|msg] eqn:R.
  - destruct (writeMarkdownFile c (relativePath file) (content cr)) as [u|msg];
      cbn [snd world aggregate withAggregate recordWrite pushError accumulate
           r_convertedImages r_skippedImages r_errors processedFiles failedFiles
           ConvertLogger.logFileProcessingSuccess
           ConvertLogger.logFileProcessingError
           ConvertLogger.logError st_errors st_warnings filesProcessed
           filesSkipped imagesSucess imagesSkipped];
      rewrite ?length_app; cbn [List.length];
      (repeat split; try lia);
      intros Q; rewrite (Q _ _ _ R); cbn [List.length]; lia.
  - cbn [snd world aggregate withAggregate recordWrite pushError accumulate
         r_convertedImages r_skippedImages r_errors processedFiles failedFiles
         ConvertLogger.logFileProcessingSuccess
         ConvertLogger.logFileProcessingError
         ConvertLogger.logError st_errors st_warnings filesProcessed
         filesSkipped imagesSucess imagesSkipped];
      rewrite ?length_app; cbn [List.length];
      repeat split; lia.
Qed.

Lemma logged_processFiles (files : list IMarkdownFile) :
  forall ls s,
    logged ls (processFiles c files ls) s (fold_left (loopBodyLogs c) files s).
Proof.
  induction files as [|f files IH]; intros ls s.
  - unfold logged. cbn. repeat split; lia.
  - cbn [processFiles fold_left]. fold (processFiles c files (loopBody c ls f)).
    specialize (IH (loopBody c ls f) (loopBodyLogs c s f)).
    pose proof (logged_loopBody ls s f) as B.
    unfold logged in *. cbv zeta in *.
    destruct IH as (I1 & I2 & I3 & I4 & I5 & I6 & I7 & I8 & I9).
    destruct B as (B1 & B2 & B3 & B4 & B5 & B6 & B7 & B8 & B9).
    repeat split; try lia.
    intros Q. specialize (I2 Q). specialize (B2 Q). lia.
Qed.

End LoggedRun.

(** X26.  When [convert] returns, the statistics of the logger count as
    many processed and skipped files as the loop counted and no warning of
    an image: a completed run leaves the warnings of the logger at zero
    whatever the aggregate holds.  The logger never counts more errors
    than the aggregate lists, and counts exactly as many when the rewriter
    reports no error of its own.  Its image counters leave out the files
    that failed: they never exceed those of the aggregate and agree with
    them when no file failed. *)
Theorem logger_statistics_and_aggregate
        (c : Collaborators) (sourceDir : string) :
  let s := convertLogs c in
  let final := snd (convert c sourceDir) in
  let a := aggregate (world final) in
  filesProcessed s = processedFiles final
  /\ filesSkipped s = failedFiles final
  /\ st_errors s <= List.length (r_errors a)
  /\ ((forall text p conversionResult,
         rewriteImages c text p = Returns conversionResult ->
         errors conversionResult = []) ->
      st_errors s = List.length (r_errors a))
  /\ imagesSucess s <= r_convertedImages a
  /\ imagesSkipped s <= r_skippedImages a
  /\ (failedFiles final = 0 ->
      imagesSucess s = r_convertedImages a /\ imagesSkipped s = r_skippedImages a)
  /\ (fst (convert c sourceDir) = ExitCompleted -> st_warnings s = 0).
Proof.
  cbv zeta. unfold convertLogs, convert.
  destruct (scanMarkdownFiles c) as [files|msg];
    [|cbn; repeat split; try lia; discriminate].
  destruct files as [|f files]; [cbn; repeat split; try lia; discriminate|].
  destruct (createOutputDirectory c) as [u|msg];
    [|cbn; repeat split; try lia; discriminate].
  cbn [fst snd].
  set (fs := f :: files).
  pose proof (logged_processFiles c fs
                (startState (setTotalFiles emptyResult (List.length fs)))
                ConvertLogger.resetStatistics) as L.
  cbv zeta in L.
  destruct L as (I1 & I2 & I3 & I4 & I5 & I6 & I7 & I8 & I9).
  cbn [startState world aggregate setTotalFiles emptyResult r_errors
       r_convertedImages r_skippedImages processedFiles failedFiles
       ConvertLogger.resetStatistics st_errors st_warnings filesProcessed
       filesSkipped imagesSucess imagesSkipped List.length Nat.add]
    in I1, I2, I3, I4, I5, I6, I7, I8, I9.
  rewrite !Nat.add_0_r in *.
  repeat split; try assumption; try lia.
Qed.

(* ================================================================== *)
(** * Paths of plain names *)

Lemma split_nonempty (sep : ascii) (s : string) : NodePath.split sep s <> [].
Proof.
  induction s as [|c s IH]; cbn [NodePath.split]; [discriminate|].
  destruct (Ascii.eqb c sep); [discriminate|].
  destruct (NodePath.split sep s); discriminate.
Qed.

Lemma split_app_sep (sep : ascii) (a b : string) :
  NodePath.split sep (a ++ String sep b)
  = (NodePath.split sep a ++ NodePath.split sep b)%list.
Proof.
  induction a as [|c a IH]; cbn [append NodePath.split].
  - now rewrite Ascii.eqb_refl.
  - destruct (Ascii.eqb c sep); [now rewrite IH|].
    rewrite IH. pose proof (split_nonempty sep a) as N.
    destruct (NodePath.split sep a) as [|h t]; [contradiction|reflexivity].
Qed.

Lemma split_plain (sep : ascii) (s : string) :
  JsString.includesChar sep s = false -> NodePath.split sep s = [s].
Proof.
  induction s as [|c s IH]; cbn [JsString.includesChar NodePath.split];
    [reflexivity|].
  intros H. apply orb_false_elim in H as [E I].
  rewrite E, (IH I). reflexivity.
Qed.

Lemma split_no_sep (sep : ascii) (s seg : string) :
  In seg (NodePath.split sep s) -> JsString.includesChar sep seg = false.
Proof.
  revert seg. induction s as [|c s IH]; cbn [NodePath.split]; intros seg H.
  - destruct H as [<-|[]]. reflexivity.
  - destruct (Ascii.eqb c sep) eqn:E.
    + destruct H as [<-|H]; [reflexivity|now apply IH].
    + pose proof (split_nonempty sep s) as N.
      destruct (NodePath.split sep s) as [|h t]; [contradiction|].
      destruct H as [<-|H].
      * cbn [JsString.includesChar]. rewrite E. apply IH. now left.
      * apply IH. now right.
Qed.

Lemma plainName_spec (name : string) :
  plainName name = true ->
  name <> "" /\ name <> "." /\ name <> ".."
  /\ JsString.includesChar NodePath.slash name = false.
Proof.
  unfold plainName. intros H.
  apply andb_prop in H as [H H4]. apply andb_prop in H as [H H3].
  apply andb_prop in H as [H1 H2].
  apply negb_true_iff in H1, H2, H3, H4.
  apply String.eqb_neq in H1, H2, H3. tauto.
Qed.

Lemma normalizeSegment_plain (b : bool) (stack : list string) (seg : string) :
  plainName seg = true -> NodePath.normalizeSegment b stack seg = seg :: stack.
Proof.
  intros H. apply plainName_spec in H as (H1 & H2 & H3 & _).
  apply String.eqb_neq in H1, H2, H3.
  unfold NodePath.normalizeSegment. now rewrite H1, H2, H3.
Qed.

Lemma normalize_plain (b : bool) (segs : list string) :
  forallb plainName segs = true ->
  forall stack,
    fold_left (NodePath.normalizeSegment b) segs stack = (List.rev segs ++ stack)%list.
Proof.
  induction segs as [|s segs IH]; intros H stack; [reflexivity|].
  cbn [forallb] in H. apply andb_prop in H as [P H].
  cbn [fold_left List.rev]. rewrite (normalizeSegment_plain b stack s P), (IH H).
  now rewrite <- app_assoc.
Qed.

(** The segments [path.resolve] keeps are plain names. *)
Lemma normalize_keeps_plain (segs : list string) :
  (forall seg, In seg segs -> JsString.includesChar NodePath.slash seg = false) ->
  forall stack,
    forallb plainName stack = true ->
    forallb plainName (fold_left (NodePath.normalizeSegment false) segs stack) = true.
Proof.
  induction segs as [|s segs IH]; intros N stack P; [exact P|].
  cbn [fold_left]. apply IH; [intros seg I; apply N; now right|].
  unfold NodePath.normalizeSegment.
  destruct (String.eqb s "") eqn:E1; [exact P|].
  destruct (String.eqb s ".") eqn:E2; [exact P|]. cbn [orb].
  destruct (String.eqb s "..") eqn:E3.
  - destruct stack as [|top below]; [reflexivity|].
    destruct (String.eqb top ".."); [exact P|].
    cbn [forallb] in P. now apply andb_prop in P as [_ P].
  - cbn [forallb]. rewrite P, andb_true_r.
    unfold plainName. rewrite E1, E2, E3, (N s (or_introl eq_refl)). reflexivity.
Qed.

Lemma concat_cons (s : string) (segs : list string) :
  segs <> [] ->
  String.concat "/" (s :: segs) = s ++ String NodePath.slash (String.concat "/" segs).
Proof. destruct segs; [contradiction|reflexivity]. Qed.

Lemma concat_app (a b : list string) :
  a <> [] -> b <> [] ->
  String.concat "/" (a ++ b)
  = String.concat "/" a ++ String NodePath.slash (String.concat "/" b).
Proof.
  induction a as [|s a IH]; intros A B; [contradiction|].
  destruct a as [|s' a].
  - cbn [app]. now rewrite concat_cons.
  - change ((s :: s' :: a) ++ b)%list with (s :: ((s' :: a) ++ b))%list.
    rewrite concat_cons by discriminate.
    rewrite IH by (discriminate || assumption).
    rewrite (concat_cons s (s' :: a)) by discriminate.
    now rewrite append_assoc.
Qed.

Lemma split_concat (segs : list string) :
  segs <> [] -> forallb plainName segs = true ->
  NodePath.split NodePath.slash (String.concat "/" segs) = segs.
Proof.
  induction segs as [|s segs IH]; intros N P; [contradiction|].
  cbn [forallb] in P. apply andb_prop in P as [Ps P].
  apply plainName_spec in Ps as (_ & _ & _ & Ns).
  destruct segs as [|s' segs].
  - cbn [String.concat]. now apply split_plain.
  - rewrite concat_cons by discriminate.
    rewrite split_app_sep, (split_plain _ _ Ns), IH by (discriminate || assumption).
    reflexivity.
Qed.

(** The segments of a normalised path between two slashes. *)
Lemma segments_between (b : bool) (segs : list string) (tail : list string)
      (stack : list string) :
  forallb plainName segs = true ->
  fold_left (NodePath.normalizeSegment b)
    (NodePath.split NodePath.slash (String.concat "/" segs) ++ tail) stack
  = fold_left (NodePath.normalizeSegment b) tail (List.rev segs ++ stack)%list.
Proof.
  intros P. rewrite fold_left_app. f_equal.
  destruct segs as [|s segs]; [reflexivity|].
  rewrite split_concat by (discriminate || assumption).
  now apply normalize_plain.
Qed.

Lemma normalizeString_rooted (b : bool) (segs : list string) (tail : string) :
  forallb plainName segs = true ->
  NodePath.normalizeString
    (String NodePath.slash (String.concat "/" segs ++ String NodePath.slash tail)) b
  = String.concat "/"
      (List.rev (fold_left (NodePath.normalizeSegment b)
                   (NodePath.split NodePath.slash tail) (List.rev segs))).
Proof.
  intros P. unfold NodePath.normalizeString.
  cbn [NodePath.split]. rewrite Ascii.eqb_refl.
  rewrite split_app_sep. cbn [fold_left].
  change (NodePath.normalizeSegment b [] "") with (@nil string).
  rewrite (segments_between b segs _ [] P), app_nil_r. reflexivity.
Qed.

(** [path.resolve] leaves a normalised absolute path as it is. *)
Lemma resolve_fixed (cwd : string) (segs : list string) :
  forallb plainName segs = true ->
  NodePath.resolve cwd [String NodePath.slash (String.concat "/" segs)]
  = String NodePath.slash (String.concat "/" segs).
Proof.
  intros P. unfold NodePath.resolve.
  cbn [List.rev app NodePath.resolve_gather String.eqb NodePath.isAbsolute].
  rewrite Ascii.eqb_refl. cbn [negb].
  change (String NodePath.slash (String.concat "/" segs) ++ "/" ++ "")
    with (String NodePath.slash (String.concat "/" segs ++ String NodePath.slash "")).
  rewrite (normalizeString_rooted false segs "" P).
  cbn [NodePath.split fold_left].
  change (NodePath.normalizeSegment false (List.rev segs) "") with (List.rev segs).
  now rewrite List.rev_involutive.
Qed.

Lemma resolve_gather_absolute (cwd : string) (rev_args : list string) :
  NodePath.isAbsolute cwd = true ->
  forall acc,
  exists p, NodePath.resolve_gather (rev_args ++ [cwd]) acc = (p, true).
Proof.
  intros A. induction rev_args as [|x l IH]; intros acc.
  - cbn [app NodePath.resolve_gather]. rewrite A.
    destruct cwd as [|c cwd]; [discriminate|]. cbn [String.eqb]. eauto.
  - cbn [app NodePath.resolve_gather].
    destruct (String.eqb x ""); [apply IH|].
    destruct (NodePath.isAbsolute x); [eauto|apply IH].
Qed.

(** In a process whose working directory is absolute, [path.resolve]
    returns a slash followed by plain names separated by slashes. *)
Lemma resolve_normal_form (cwd : string) (args : list string) :
  NodePath.isAbsolute cwd = true ->
  exists segs,
    forallb plainName segs = true
    /\ NodePath.resolve cwd args = String NodePath.slash (String.concat "/" segs).
Proof.
  intros A. unfold NodePath.resolve.
  destruct (resolve_gather_absolute cwd (List.rev args) A "") as [p ->].
  unfold NodePath.normalizeString.
  exists (List.rev (fold_left (NodePath.normalizeSegment false)
                      (NodePath.split NodePath.slash p) [])).
  split; [|reflexivity].
  apply forallb_forall. intros seg I. apply in_rev in I.
  pose proof (normalize_keeps_plain (NodePath.split NodePath.slash p)
                (fun seg => split_no_sep NodePath.slash p seg) [] eq_refl) as K.
  rewrite forallb_forall in K. now apply K.
Qed.

Lemma concat_plain_head (names : list string) :
  names <> [] -> forallb plainName names = true ->
  exists c s,
    String.concat "/" names = String c s /\ Ascii.eqb c NodePath.slash = false.
Proof.
  destruct names as [|n names]; [contradiction|]. intros _ P.
  cbn [forallb] in P. apply andb_prop in P as [P _].
  apply plainName_spec in P as (N & _ & _ & I).
  destruct n as [|c n]; [contradiction|].
  cbn [JsString.includesChar] in I. apply orb_false_elim in I as [E _].
  destruct names as [|n' names]; cbn [String.concat append]; eauto.
Qed.

Lemma endsWithSlash_append (a b : string) :
  b <> "" ->
  NodePathMore.endsWithSlash (a ++ b) = NodePathMore.endsWithSlash b.
Proof.
  intros B. induction a as [|c a IH]; [reflexivity|].
  cbn [append NodePathMore.endsWithSlash].
  destruct (a ++ b) eqn:E; [|exact IH].
  destruct a; [cbn in E; contradiction|discriminate].
Qed.

Lemma endsWithSlash_plain (s : string) :
  JsString.includesChar NodePath.slash s = false ->
  NodePathMore.endsWithSlash s = false.
Proof.
  induction s as [|c s IH]; [reflexivity|].
  cbn [JsString.includesChar NodePathMore.endsWithSlash]. intros H.
  apply orb_false_elim in H as [E I]. destruct s; [exact E|now apply IH].
Qed.

Lemma endsWithSlash_concat (names : list string) :
  forallb plainName names = true ->
  NodePathMore.endsWithSlash (String.concat "/" names) = false.
Proof.
  induction names as [|n names IH]; intros P; [reflexivity|].
  cbn [forallb] in P. apply andb_prop in P as [Pn P].
  destruct names as [|n' names].
  - cbn [String.concat]. apply endsWithSlash_plain.
    now apply plainName_spec in Pn.
  - rewrite concat_cons by discriminate.
    destruct (concat_plain_head (n' :: names)) as (c & s & E & _);
      [discriminate|assumption|].
    change (n ++ String NodePath.slash (String.concat "/" (n' :: names)))
      with (n ++ ("/" ++ String.concat "/" (n' :: names))).
    rewrite <- append_assoc, endsWithSlash_append by (rewrite E; discriminate).
    now apply IH.
Qed.

Lemma forallb_plain_app (a b : list string) :
  forallb plainName a = true -> forallb plainName b = true ->
  forallb plainName (a ++ b) = true.
Proof. intros A B. now rewrite forallb_app, A, B. Qed.

(** [path.join] of a normalised absolute path and a relative path of
    plain names appends the names. *)
Lemma join_plain (segs names : list string) :
  forallb plainName segs = true -> forallb plainName names = true ->
  names <> [] ->
  NodePathMore.join [String NodePath.slash (String.concat "/" segs);
                     String.concat "/" names]
  = String NodePath.slash (String.concat "/" (segs ++ names)).
Proof.
  intros S N NE.
  destruct (concat_plain_head names NE N) as (c & s & E & _).
  destruct (concat_plain_head (segs ++ names)) as (c' & s' & E' & _);
    [destruct segs; [assumption|discriminate]|now apply forallb_plain_app|].
  unfold NodePathMore.join.
  cbn [NodePathMore.join_gather String.length Nat.ltb Nat.leb].
  rewrite E. cbn [String.length Nat.ltb Nat.leb NodePathMore.join_gather].
  rewrite <- E.
  change (String NodePath.slash (String.concat "/" segs) ++ "/" ++ String.concat "/" names)
    with (String NodePath.slash
            (String.concat "/" segs
             ++ String NodePath.slash (String.concat "/" names))).
  unfold NodePathMore.normalize.
  rewrite (normalizeString_rooted _ segs (String.concat "/" names) S).
  rewrite split_concat, normalize_plain by assumption.
  rewrite rev_app_distr, !List.rev_involutive, E'.
  cbn [NodePath.isAbsolute]. rewrite Ascii.eqb_refl.
  replace (String NodePath.slash
             (String.concat "/" segs
              ++ String NodePath.slash (String.concat "/" names)))
    with (String NodePath.slash (String.concat "/" segs ++ "/")
          ++ String.concat "/" names)
    by (cbn [append]; now rewrite append_assoc).
  rewrite endsWithSlash_append by (rewrite E; discriminate).
  now rewrite (endsWithSlash_concat names N).
Qed.

Lemma list_ascii_of_append (a b : string) :
  list_ascii_of_string (a ++ b)
  = (list_ascii_of_string a ++ list_ascii_of_string b)%list.
Proof. induction a as [|c a IH]; cbn; congruence. Qed.

(** The first loop of [path.relative] when [from] is a beginning of
    [to]. *)
Lemma common_prefix (x rest : list ascii) :
  forall i sep,
  exists sep',
    NodePathRelative.common x (x ++ rest) i sep
    = (i + List.length x, sep', [], rest).
Proof.
  induction x as [|c x IH]; intros i sep.
  - exists sep. cbn [app List.length]. rewrite Nat.add_0_r.
    destruct rest; reflexivity.
  - cbn [app NodePathRelative.common List.length]. rewrite Ascii.eqb_refl.
    destruct (IH (S i) (if Ascii.eqb c NodePath.slash then S i else sep))
      as [sep' ->].
    exists sep'. f_equal. f_equal. f_equal. lia.
Qed.

Lemma append_longer (a b : string) : b <> "" -> a <> a ++ b.
Proof.
  intros B E. apply (f_equal String.length) in E.
  rewrite length_append in E. destruct b; [contradiction|]. cbn in E. lia.
Qed.

(** [path.relative] from a normalised absolute path to a path below it
    returns the names that lead down. *)
Lemma relative_plain (cwd : string) (segs names : list string) :
  forallb plainName segs = true -> forallb plainName names = true ->
  names <> [] ->
  NodePathRelative.relative cwd
    (String NodePath.slash (String.concat "/" segs))
    (String NodePath.slash (String.concat "/" (segs ++ names)))
  = String.concat "/" names.
Proof.
  intros S N NE.
  destruct (concat_plain_head names NE N) as (c & s & E & C).
  assert (String.concat "/" segs <> String.concat "/" (segs ++ names)) as D.
  { destruct segs as [|g segs].
    - cbn [app String.concat]. rewrite E. discriminate.
    - rewrite concat_app by (discriminate || assumption).
      apply append_longer. discriminate. }
  unfold NodePathRelative.relative.
  rewrite (resolve_fixed cwd segs S).
  rewrite (resolve_fixed cwd (segs ++ names) (forallb_plain_app _ _ S N)).
  assert (String.eqb (String NodePath.slash (String.concat "/" segs))
            (String NodePath.slash (String.concat "/" (segs ++ names))) = false)
    as ->.
  { apply String.eqb_neq. intros H. injection H as H. contradiction. }
  cbn [JsString.drop].
  destruct segs as [|g segs].
  - cbn [app String.concat list_ascii_of_string NodePathRelative.common].
    rewrite E. cbn [list_ascii_of_string NodePathRelative.common List.length
                    Nat.min Nat.eqb].
    rewrite C. rewrite <- E.
    change (c :: list_ascii_of_string s) with (list_ascii_of_string (String c s)).
    now rewrite string_of_list_ascii_of_string.
  - rewrite concat_app by (discriminate || assumption).
    rewrite list_ascii_of_append.
    set (x := list_ascii_of_string (String.concat "/" (g :: segs))).
    cbn [list_ascii_of_string].
    destruct (common_prefix x
                (NodePath.slash :: list_ascii_of_string (String.concat "/" names))
                0 0) as [sep' ->].
    rewrite length_app. cbn [Nat.add].
    rewrite Nat.min_l by lia. rewrite Nat.eqb_refl, Ascii.eqb_refl.
    now rewrite string_of_list_ascii_of_string.
Qed.

Lemma below_root (segs names : list string) :
  forallb plainName segs = true -> names <> [] ->
  String NodePath.slash (String.concat "/" (segs ++ names))
  = (if String.eqb (String NodePath.slash (String.concat "/" segs)) "/"
     then "" else String NodePath.slash (String.concat "/" segs))
    ++ "/" ++ String.concat "/" names.
Proof.
  intros S NE. destruct segs as [|g segs]; [reflexivity|].
  destruct (concat_plain_head (g :: segs)) as (c & s & E & _);
    [discriminate|assumption|].
  rewrite concat_app by (discriminate || assumption).
  rewrite E. cbn [String.eqb Ascii.eqb Bool.eqb NodePath.slash append].
  reflexivity.
Qed.

Lemma join_name (segs : list string) (name : string) :
  forallb plainName segs = true -> plainName name = true ->
  NodePathMore.join [String NodePath.slash (String.concat "/" segs); name]
  = String NodePath.slash (String.concat "/" (segs ++ [name])).
Proof.
  intros S N. apply (join_plain segs [name] S); [|discriminate].
  cbn [forallb]. now rewrite N.
Qed.

(* ================================================================== *)
(** * The scanner *)

(** Induction on a tree through its listings. *)
Lemma FsTree_nested_ind (P : FsTree -> Prop) :
  (forall name entries, Forall P entries -> P (TreeDir name (Returns entries))) ->
  (forall name message, P (TreeDir name (Throws message))) ->
  (forall name isFile reading, P (TreeEntry name isFile reading)) ->
  forall entry, P entry.
Proof.
  intros Hd Ht He. fix IH 1.
  intros [name [entries|message]|name isFile reading].
  - refine (Hd name entries
              ((fix G (l : list FsTree) : Forall P l :=
                  match l with
                  | [] => Forall_nil P
                  | e :: l' => Forall_cons e (IH e) (G l')
                  end) entries)).
  - apply Ht.
  - apply He.
Qed.

Section ScannedPaths.

Variable cwd : string.
Variable rootSegs : list string.
Hypothesis rootPlain : forallb plainName rootSegs = true.

Let root := String NodePath.slash (String.concat "/" rootSegs).

Lemma scanEntry_paths (entry : FsTree) :
  wellNamed entry = true ->
  forall down,
    forallb plainName down = true ->
    forall f,
      In f (Scanner.scanEntry cwd root
              (String NodePath.slash (String.concat "/" (rootSegs ++ down))) entry) ->
      exists dirs name,
        forallb plainName dirs = true
        /\ plainName name = true
        /\ FileScanner.isMarkdownFile name = true
        /\ relativePath f = String.concat "/" (down ++ dirs ++ [name])
        /\ absolutePath f
           = String NodePath.slash
               (String.concat "/" (rootSegs ++ down ++ dirs ++ [name])).
Proof.
  induction entry as [name entries IH|name message|name isFile reading]
    using FsTree_nested_ind; intros W down D f I.
  - cbn [wellNamed] in W. apply andb_prop in W as [Pn W].
    cbn [Scanner.scanEntry] in I.
    rewrite (join_name (rootSegs ++ down) name) in I
      by (try apply forallb_plain_app; assumption).
    rewrite <- app_assoc in I.
    apply in_flat_map in I as (e & Ie & I).
    rewrite Forall_forall in IH. rewrite forallb_forall in W.
    destruct (IH e Ie (W e Ie) (down ++ [name])%list) with (f := f)
      as (dirs & leaf & Pd & Pl & M & R & A);
      [apply forallb_plain_app; [assumption|cbn [forallb]; now rewrite Pn]
      |exact I|].
    exists (name :: dirs), leaf. cbn [forallb]. rewrite Pn, Pd.
    repeat split; try assumption.
    + rewrite R. now rewrite <- app_assoc.
    + rewrite A. now rewrite <- (app_assoc down).
  - destruct I.
  - cbn [wellNamed] in W. cbn [Scanner.scanEntry] in I.
    destruct (isFile && FileScanner.isMarkdownFile name) eqn:T; [|destruct I].
    apply andb_prop in T as [_ M].
    destruct reading as [text|message]; [|destruct I].
    destruct I as [<-|[]]. cbn [relativePath absolutePath].
    rewrite (join_name (rootSegs ++ down) name)
      by (try apply forallb_plain_app; assumption).
    rewrite <- app_assoc.
    exists [], name. cbn [forallb app]. repeat split; try assumption.
    apply relative_plain; [assumption| |destruct down; discriminate].
    apply forallb_plain_app; [assumption|cbn [forallb]; now rewrite W].
Qed.

End ScannedPaths.



(** X28.  [scanMarkdownFiles] returns exactly when the source path is a
    directory whose entries can be listed: nothing below the source
    directory makes it throw.  When it throws, the message names the
    resolved source directory as missing, as not being a directory or as
    impossible to scan, or is the message of [stat]; the converter then
    returns with [Failed to scan markdown files: ] and that message as its
    only diagnostic, without counting, processing or writing any file. *)
Theorem scan_outcome
        (cwd sourceDir : string) (root : StatResult)
        (listing : Completion (list FsTree)) :
  let absoluteSourceDir := NodePath.resolve cwd [sourceDir] in
  let outcome := Scanner.scanMarkdownFiles cwd sourceDir root listing in
  ((exists files, outcome = Returns files) <->
   root = StatOk true /\ exists entries, listing = Returns entries)
  /\ (forall message,
         outcome = Throws message ->
         ((exists reason,
              root = StatThrows "ENOENT" reason
              /\ message = "Source directory does not exist: " ++ absoluteSourceDir)
          \/ (exists code, root = StatThrows code message /\ code <> "ENOENT")
          \/ (root = StatOk false
              /\ message = "Source path is not a directory: " ++ absoluteSourceDir)
          \/ (exists reason,
                 root = StatOk true /\ listing = Throws reason
                 /\ message = "Failed to scan directory " ++ absoluteSourceDir
                              ++ ": " ++ reason))
         /\ forall env created write,
              convert (wired env outcome created write) sourceDir
              = (ExitScanFailed,
                 {| world :=
                      {| aggregate :=
                           {| totalFiles := 0; r_convertedImages := 0;
                              r_skippedImages := 0; r_warnings := [];
                              r_errors :=
                                ["Failed to scan markdown files: " ++ message] |};
                         outputTree := [] |};
                    processedFiles := 0; failedFiles := 0 |})).
Proof.
  cbv zeta. unfold Scanner.scanMarkdownFiles.
  destruct root as [[|]|code reason].
  - destruct listing as [entries|reason].
    + split; [split; eauto|]. intros message H. discriminate H.
    + split.
      * split; [intros [files H]; discriminate H
               |intros [_ [entries H]]; discriminate H].
      * intros message H. injection H as <-. split; [|reflexivity].
        right. right. right. now exists reason.
  - split.
    + split; [intros [files H]; discriminate H|intros [H _]; discriminate H].
    + intros message H. injection H as <-. split; [|reflexivity].
      right. right. now left.
  - split.
    + split; [intros [files H]; destruct (String.eqb code "ENOENT"); discriminate H
             |intros [H _]; discriminate H].
    + intros message H. destruct (String.eqb code "ENOENT") eqn:E.
      * apply String.eqb_eq in E as ->. injection H as <-.
        split; [|reflexivity]. left. now exists reason.
      * apply String.eqb_neq in E. injection H as <-.
        split; [|reflexivity]. right. left. now exists code.
Qed.

(** X29.  An entry the scanner cannot use costs nothing but itself: a
    sub-directory that cannot be listed, an entry that is not a regular
    file, a file whose name is not a markdown name or a markdown file that
    cannot be read is left out, and the scan returns what it returns
    without that entry, in the source directory as in any directory below
    it. *)
Theorem scan_leaves_out_unusable_entry
        (cwd sourceDir : string) (before after : list FsTree) (bad : FsTree) :
  (exists name message, bad = TreeDir name (Throws message))
  \/ (exists name isFile reading,
         bad = TreeEntry name isFile reading
         /\ (isFile = false
             \/ FileScanner.isMarkdownFile name = false
             \/ exists message, reading = Throws message)) ->
  Scanner.scanMarkdownFiles cwd sourceDir (StatOk true)
    (Returns (before ++ bad :: after)%list)
  = Scanner.scanMarkdownFiles cwd sourceDir (StatOk true)
      (Returns (before ++ after)%list)
  /\ forall absoluteSourceDir currentDir name,
       Scanner.scanEntry cwd absoluteSourceDir currentDir
         (TreeDir name (Returns (before ++ bad :: after)%list))
       = Scanner.scanEntry cwd absoluteSourceDir currentDir
           (TreeDir name (Returns (before ++ after)%list)).
Proof.
  intros U.
  assert (forall absoluteSourceDir currentDir,
             Scanner.scanEntry cwd absoluteSourceDir currentDir bad = []) as B.
  { intros absoluteSourceDir currentDir.
    destruct U as [(name & message & ->)|(name & isFile & reading & -> & U)];
      [reflexivity|].
    cbn [Scanner.scanEntry].
    destruct U as [-> |[-> |[message ->]]]; [reflexivity| |].
    - now rewrite andb_false_r.
    - now destruct (isFile && FileScanner.isMarkdownFile name). }
  split.
  - unfold Scanner.scanMarkdownFiles. f_equal.
    rewrite !flat_map_app. cbn [flat_map]. now rewrite B.
  - intros absoluteSourceDir currentDir name. cbn [Scanner.scanEntry].
    rewrite !flat_map_app. cbn [flat_map]. now rewrite B.
Qed.

Lemma scan_leaves_out_unusable_entry_witness :
  Scanner.scanMarkdownFiles "/w" "docs" (StatOk true)
    (Returns ([TreeEntry "a.md" true (Returns "A")]
              ++ TreeDir "locked" (Throws "EACCES")
              :: [TreeEntry "b.md" true (Returns "B")])%list)
  = Returns [ {| relativePath := "a.md"; absolutePath := "/w/docs/a.md";
                 fileContent := "A" |};
              {| relativePath := "b.md"; absolutePath := "/w/docs/b.md";
                 fileContent := "B" |} ].
Proof.
  rewrite (proj1 (scan_leaves_out_unusable_entry "/w" "docs"
                    [TreeEntry "a.md" true (Returns "A")]
                    [TreeEntry "b.md" true (Returns "B")]
                    (TreeDir "locked" (Throws "EACCES"))
                    (or_introl (ex_intro _ "locked" (ex_intro _ "EACCES" eq_refl))))).
  reflexivity.
Defined.

(* ================================================================== *)
(** * The extension of a file name *)

Lemma includesChar_In (sep : ascii) (s : string) :
  JsString.includesChar sep s = false ->
  forall c, In c (list_ascii_of_string s) -> Ascii.eqb c sep = false.
Proof.
  induction s as [|x s IH]; cbn [JsString.includesChar list_ascii_of_string];
    intros H c I; [destruct I|].
  apply orb_false_elim in H as [E H].
  destruct I as [<-|I]; [exact E|now apply IH].
Qed.

Lemma endsWithSlash_split (s : string) :
  NodePathMore.endsWithSlash s = true -> exists d, s = d ++ "/".
Proof.
  induction s as [|c s IH]; [discriminate|].
  cbn [NodePathMore.endsWithSlash]. destruct s as [|c' s].
  - intros E. apply Ascii.eqb_eq in E as ->. now exists "".
  - intros E. destruct (IH E) as [d ->]. now exists (String c d).
Qed.

Lemma substring_suffix (a b : string) :
  String.substring (String.length a) (String.length b) (a ++ b) = b.
Proof.
  induction a as [|c a IH]; cbn [String.length append String.substring];
    [|exact IH].
  induction b as [|c b IH]; cbn [String.length String.substring];
    [reflexivity|now rewrite IH].
Qed.

Lemma length_list_ascii (s : string) :
  List.length (list_ascii_of_string s) = String.length s.
Proof. induction s as [|c s IH]; cbn; congruence. Qed.

Section ExtnameLoop.

Import NodePath.

(** The characters of the extension, read from the end of the path. *)
Lemma extname_loop_tail (l rest : list ascii) :
  (forall c, In c l -> Ascii.eqb c slash = false /\ Ascii.eqb c dot = false) ->
  forall i sp e ms pd,
    extname_loop (l ++ rest) i
      {| startDot := None; startPart := sp; endPos := Some e;
         matchedSlash := ms; preDotState := pd |}
    = extname_loop rest (i - List.length l)
        {| startDot := None; startPart := sp; endPos := Some e;
           matchedSlash := ms; preDotState := pd |}.
Proof.
  induction l as [|c l IH]; intros P i sp e ms pd.
  - cbn [app List.length]. now rewrite Nat.sub_0_r.
  - destruct (P c (or_introl eq_refl)) as [S D].
    cbn [app extname_loop endPos startDot]. rewrite S, D.
    rewrite IH by (intros x I; apply P; now right).
    cbn [List.length]. f_equal. lia.
Qed.

Lemma extname_loop_ext (l rest : list ascii) (i : nat) :
  l <> [] ->
  (forall c, In c l -> Ascii.eqb c slash = false /\ Ascii.eqb c dot = false) ->
  extname_loop (l ++ rest) i
    {| startDot := None; startPart := 0; endPos := None;
       matchedSlash := true; preDotState := 0%Z |}
  = extname_loop rest (i - List.length l)
      {| startDot := None; startPart := 0; endPos := Some (i + 1);
         matchedSlash := false; preDotState := 0%Z |}.
Proof.
  destruct l as [|c l]; [contradiction|]. intros _ P.
  destruct (P c (or_introl eq_refl)) as [S D].
  cbn [app extname_loop endPos startDot startPart matchedSlash preDotState].
  rewrite S, D.
  rewrite extname_loop_tail by (intros x I; apply P; now right).
  cbn [List.length]. f_equal. lia.
Qed.

(** The characters of the name before its last dot. *)
Lemma extname_loop_stem (l rest : list ascii) :
  (forall c, In c l -> Ascii.eqb c slash = false) ->
  forall i sd sp e ms pd,
  exists pd',
    extname_loop (l ++ rest) i
      {| startDot := Some sd; startPart := sp; endPos := Some e;
         matchedSlash := ms; preDotState := pd |}
    = extname_loop rest (i - List.length l)
        {| startDot := Some sd; startPart := sp; endPos := Some e;
           matchedSlash := ms; preDotState := pd' |}
    /\ (l <> [] -> pd' = 1%Z \/ pd' = (-1)%Z)
    /\ (l = [] -> pd' = pd).
Proof.
  induction l as [|c l IH]; intros P i sd sp e ms pd.
  - exists pd. cbn [app List.length]. rewrite Nat.sub_0_r.
    split; [reflexivity|]. split; [intros H; now contradiction H|reflexivity].
  - pose proof (P c (or_introl eq_refl)) as S.
    assert (forall x, In x l -> Ascii.eqb x slash = false) as P'
      by (intros x I; apply P; now right).
    cbn [app extname_loop endPos startDot startPart matchedSlash preDotState].
    rewrite S.
    destruct (Ascii.eqb c dot);
      cbn [endPos startDot startPart matchedSlash preDotState];
      [destruct (IH P' (i - 1) sd sp e ms 1%Z) as (pd' & E & N & Z)
      |destruct (IH P' (i - 1) sd sp e ms (-1)%Z) as (pd' & E & N & Z)];
      exists pd'; rewrite E; cbn [List.length];
      (split; [f_equal; lia|]); (split; [|discriminate]); intros _;
      (destruct l as [|x l]; [rewrite Z by reflexivity; auto|apply N; discriminate]).
Qed.

(** The loop on a path that ends with a name [stem.ext]. *)
Lemma extname_loop_name (extR stemR dirR : list ascii) (i : nat) :
  extR <> [] ->
  (forall c, In c extR -> Ascii.eqb c slash = false /\ Ascii.eqb c dot = false) ->
  (forall c, In c stemR -> Ascii.eqb c slash = false) ->
  dirR = [] \/ (exists r, dirR = slash :: r) ->
  exists sp pd,
    extname_loop (extR ++ dot :: stemR ++ dirR) i
      {| startDot := None; startPart := 0; endPos := None;
         matchedSlash := true; preDotState := 0%Z |}
    = {| startDot := Some (i - List.length extR); startPart := sp;
         endPos := Some (i + 1); matchedSlash := false; preDotState := pd |}
    /\ (stemR <> [] -> pd = 1%Z \/ pd = (-1)%Z)
    /\ (stemR = [] -> pd = 0%Z).
Proof.
  intros NE PE PS D.
  rewrite (extname_loop_ext extR _ i NE PE).
  cbn [extname_loop endPos startDot startPart matchedSlash preDotState].
  change (Ascii.eqb dot slash) with false. change (Ascii.eqb dot dot) with true.
  cbn [endPos startDot startPart matchedSlash preDotState].
  destruct (extname_loop_stem stemR dirR PS (i - List.length extR - 1)
              (i - List.length extR) 0 (i + 1) false 0%Z) as (pd & E & N & Z).
  rewrite E.
  destruct D as [-> |[r ->]].
  - exists 0, pd. cbn [extname_loop]. auto.
  - exists (i - List.length extR - 1 - List.length stemR + 1), pd.
    cbn [extname_loop matchedSlash negb endPos startDot startPart preDotState].
    rewrite Ascii.eqb_refl. auto.
Qed.

End ExtnameLoop.

(** The extension of a path that ends with the name [stem.ext]. *)
Lemma extname_of_name (dir stem ext : string) :
  JsString.includesChar NodePath.slash stem = false ->
  ext <> "" ->
  JsString.includesChar NodePath.slash ext = false ->
  JsString.includesChar NodePath.dot ext = false ->
  dir = "" \/ NodePathMore.endsWithSlash dir = true ->
  NodePath.extname (dir ++ stem ++ "." ++ ext)
  = if String.eqb stem "" then "" else "." ++ ext.
Proof.
  intros Ss NE Es Ed D.
  unfold NodePath.extname.
  set (p := dir ++ stem ++ "." ++ ext).
  assert (List.rev (list_ascii_of_string p)
          = (List.rev (list_ascii_of_string ext)
             ++ NodePath.dot
                :: List.rev (list_ascii_of_string stem)
                   ++ List.rev (list_ascii_of_string dir))%list) as R.
  { unfold p. rewrite !list_ascii_of_append. cbn [list_ascii_of_string].
    rewrite !rev_app_distr. cbn [List.rev app].
    now rewrite <- !app_assoc. }
  assert (String.length p
          = String.length dir + String.length stem + 1 + String.length ext) as L.
  { unfold p. rewrite !length_append. cbn [String.length]. lia. }
  rewrite R.
  destruct (extname_loop_name
              (List.rev (list_ascii_of_string ext))
              (List.rev (list_ascii_of_string stem))
              (List.rev (list_ascii_of_string dir))
              (String.length p - 1)) as (sp & pd & E & N & Z).
  - intros H. apply (f_equal (@List.length ascii)) in H.
    rewrite length_rev, length_list_ascii in H.
    destruct ext; [contradiction|discriminate].
  - intros c I. apply in_rev in I. split.
    + exact (includesChar_In _ _ Es c I).
    + exact (includesChar_In _ _ Ed c I).
  - intros c I. apply in_rev in I. exact (includesChar_In _ _ Ss c I).
  - destruct D as [-> |T]; [now left|right].
    destruct (endsWithSlash_split dir T) as [d ->].
    rewrite list_ascii_of_append, rev_app_distr. cbn. eauto.
  - rewrite E. cbn [NodePath.startDot NodePath.endPos NodePath.preDotState
                    NodePath.startPart].
    rewrite length_rev, length_list_ascii.
    assert (String.length ext <> 0) as Le by (destruct ext; [contradiction|discriminate]).
    destruct stem as [|c stem].
    + rewrite Z by reflexivity. reflexivity.
    + cbn [String.eqb].
      destruct N as [-> | ->];
        [intros H; apply (f_equal (@List.length ascii)) in H;
         rewrite length_rev, length_list_ascii in H; discriminate| |].
      all: cbn [Z.eqb orb andb].
      all: replace (String.length p - 1 + 1 - (String.length p - 1 - String.length ext))
             with (String.length ("." ++ ext))
             by (cbn [append String.length]; lia).
      all: replace (String.length p - 1 - String.length ext)
             with (String.length (dir ++ String c stem))
             by (rewrite length_append; lia).
      all: assert (p = (dir ++ String c stem) ++ ("." ++ ext)) as ->
             by (unfold p; now rewrite append_assoc).
      2: now rewrite substring_suffix.
      assert (Nat.eqb (String.length (dir ++ String c stem))
                (String.length ((dir ++ String c stem) ++ "." ++ ext) - 1 + 1 - 1)
              = false) as ->.
      { apply Nat.eqb_neq. rewrite !length_append. cbn [String.length]. lia. }
      cbn [andb]. now rewrite substring_suffix.
Qed.

(** X30.  For a path that ends with a name [stem.ext] whose extension
    [ext] is not empty and holds no dot, [path.extname] returns [.ext]
    when the stem is not empty and the empty string for a name that begins
    with its only dot.  So a file is a markdown file exactly when its stem
    is not empty and its extension is [md] or [markdown] in any letter
    case, the Kelvin sign counting as a [k], and it is an image file, with
    the MIME type of the table,
    exactly when its stem is not empty and its lower-case extension is a
    key of the table: a file named [.md] or [.png] is neither. *)
Theorem extension_of_file_name (dir stem ext : string) :
  JsString.includesChar NodePath.slash stem = false ->
  ext <> "" ->
  JsString.includesChar NodePath.slash ext = false ->
  JsString.includesChar NodePath.dot ext = false ->
  dir = "" \/ NodePathMore.endsWithSlash dir = true ->
  let p := dir ++ stem ++ "." ++ ext in
  let lower := JsString.toLowerCase ext in
  NodePath.extname p = (if String.eqb stem "" then "" else "." ++ ext)
  /\ FileScanner.isMarkdownFile p
     = negb (String.eqb stem "")
       && (String.eqb lower "md" || String.eqb lower "markdown")
  /\ getImageMimeType p
     = (if String.eqb stem "" then None else lookup ("." ++ lower) MIME_TYPES)
  /\ isImageFile p
     = match getImageMimeType p with Some _ => true | None => false end.
Proof.
  intros Ss NE Es Ed D. cbv zeta.
  pose proof (extname_of_name dir stem ext Ss NE Es Ed D) as E.
  unfold FileScanner.isMarkdownFile, getImageMimeType, isImageFile.
  rewrite E. split; [reflexivity|].
  destruct (String.eqb stem ""); [repeat split|].
  change ("." ++ ext) with (String "." ext).
  rewrite (toLowerCase_plain "." ext) by (intros r [H _]; discriminate H).
  change (JsString.lower_char ".") with "."%char.
  change ("." ++ JsString.toLowerCase ext)
    with (String "." (JsString.toLowerCase ext)).
  cbn [negb andb String.eqb Ascii.eqb Bool.eqb].
  split; [reflexivity|].
  destruct (lookup (String "." (JsString.toLowerCase ext)) MIME_TYPES)
    as [mime|] eqn:L; [|split; reflexivity].
  rewrite (table_values_truthy _ _ L). split; reflexivity.
Qed.

Lemma extension_of_file_name_witness :
  FileScanner.isMarkdownFile "/docs/notes.v2.MD" = true
  /\ FileScanner.isMarkdownFile
       ("/docs/" ++ "a" ++ "."
        ++ "mar" ++ String "226" (String "132" (String "170" "down")))
     = true
  /\ FileScanner.isMarkdownFile "/docs/.md" = false
  /\ getImageMimeType "/docs/logo.final.PNG" = Some "image/png"
  /\ isImageFile "/docs/.png" = false.
Proof.
  pose proof (extension_of_file_name "/docs/" "notes.v2" "MD"
                eq_refl ltac:(discriminate) eq_refl eq_refl (or_intror eq_refl))
    as (_ & A & _).
  pose proof (extension_of_file_name "/docs/" "a"
                ("mar" ++ String "226" (String "132" (String "170" "down")))
                eq_refl ltac:(discriminate) eq_refl eq_refl (or_intror eq_refl))
    as (_ & K & _).
  pose proof (extension_of_file_name "/docs/" "" "md"
                eq_refl ltac:(discriminate) eq_refl eq_refl (or_intror eq_refl))
    as (_ & B & _).
  pose proof (extension_of_file_name "/docs/" "logo.final" "PNG"
                eq_refl ltac:(discriminate) eq_refl eq_refl (or_intror eq_refl))
    as (_ & _ & C & _).
  pose proof (extension_of_file_name "/docs/" "" "png"
                eq_refl ltac:(discriminate) eq_refl eq_refl (or_intror eq_refl))
    as (_ & _ & G & I).
  cbv zeta in *.
  split; [exact A|]. split; [exact K|]. split; [exact B|]. split; [exact C|].
  exact (eq_trans I
           (f_equal (fun o : option string =>
                       match o with Some _ => true | None => false end) G)).
Defined.
